(** * Agent Ops Watcher: a shallow embedding of [src/agent-ops-watcher.ts]

    The watcher polls a directory for spec files, parses them, and applies
    create / modify / delete operations on specialist agents.  This file
    embeds the parser, the section extractor, the mount validator, the three
    handlers and the dispatch layer as executable Rocq functions over an
    explicit world state (registry, scheduled tasks, file system, log), and
    proves properties of them.

    JavaScript strings are modelled as lists of code units; the model ranges
    over code units below 256 ([ascii]).  *)

From Stdlib Require Import Ascii String List Bool Arith NArith Lia.
From stdpp Require Import gmap strings list fin_maps.

Open Scope string_scope.
Open Scope nat_scope.
Open Scope list_scope.

Abbreviation str := (list ascii).
Coercion list_ascii_of_string : string >-> list.

(* String literals stand for their code-unit lists also inside list, pair
   and option constructors. *)
Arguments cons {A} & _ _.
Arguments pair {A B} & _ _.
Arguments Some {A} & _.

(** ** JavaScript string primitives *)

Module Js.

Definition LF : ascii := "010"%char.
Definition CR : ascii := "013"%char.
Definition DQ : ascii := "034"%char.

(** [WhiteSpace] and [LineTerminator] code units below 256: TAB, LF, VT, FF,
    CR, SP and NBSP.  This is the set matched by the regex class [\s] and
    stripped by [trim]. *)
Definition isSpace (c : ascii) : bool :=
  let n := nat_of_ascii c in
  ((9 <=? n) && (n <=? 13)) || (n =? 32) || (n =? 160).

Definition isLineTerminator (c : ascii) : bool :=
  Ascii.eqb c LF || Ascii.eqb c CR.

(** The regex class [\w]. *)
Definition isWord (c : ascii) : bool :=
  let n := nat_of_ascii c in
  ((48 <=? n) && (n <=? 57)) || ((65 <=? n) && (n <=? 90))
  || ((97 <=? n) && (n <=? 122)) || (n =? 95).

Definition lowerChar (c : ascii) : ascii :=
  let n := nat_of_ascii c in
  if ((65 <=? n) && (n <=? 90))
     || ((192 <=? n) && (n <=? 222) && negb (n =? 215))
  then ascii_of_nat (n + 32) else c.

Definition upperAsciiChar (c : ascii) : ascii :=
  let n := nat_of_ascii c in
  if (97 <=? n) && (n <=? 122) then ascii_of_nat (n - 32) else c.

Definition toLowerCase (s : str) : str := map lowerChar s.

(** [s.startsWith(p)] *)
Fixpoint startsWith (s p : str) : bool :=
  match p, s with
  | [], _ => true
  | _ :: _, [] => false
  | c :: p', d :: s' => Ascii.eqb c d && startsWith s' p'
  end.

(** [s.endsWith(p)] *)
Definition endsWith (s p : str) : bool := startsWith (rev s) (rev p).

(** [s.includes(p)] *)
Fixpoint includes (s p : str) : bool :=
  startsWith s p ||
  match s with
  | [] => false
  | _ :: s' => includes s' p
  end.

(** [s.indexOf(c)] for a one-character needle; [None] stands for [-1]. *)
Fixpoint indexOfChar (c : ascii) (s : str) : option nat :=
  match s with
  | [] => None
  | d :: s' => if Ascii.eqb d c then Some 0 else S <$> indexOfChar c s'
  end.

(** [s.split(c)] for a one-character separator. *)
Fixpoint splitChar (c : ascii) (s : str) : list str :=
  match s with
  | [] => [[]]
  | d :: s' =>
      if Ascii.eqb d c then [] :: splitChar c s'
      else match splitChar c s' with
           | h :: t => (d :: h) :: t
           | [] => [[d]]
           end
  end.

(** [s.split(sep)[0]]: the text before the first occurrence of [sep]. *)
Fixpoint beforeFirst (sep s : str) : str :=
  if startsWith s sep then []
  else match s with
       | [] => []
       | c :: s' => c :: beforeFirst sep s'
       end.

Fixpoint trimStart (s : str) : str :=
  match s with
  | c :: s' => if isSpace c then trimStart s' else s
  | [] => []
  end.

Definition trimEnd (s : str) : str := rev (trimStart (rev s)).
Definition trim (s : str) : str := trimEnd (trimStart s).

(** [xs.join(sep)] *)
Fixpoint join (sep : str) (xs : list str) : str :=
  match xs with
  | [] => []
  | [x] => x
  | x :: rest => x ++ sep ++ join sep rest
  end.

(** A JavaScript string in a boolean position: the empty string is falsy. *)
Definition truthy (s : str) : bool :=
  match s with [] => false | _ => true end.

(** [a || b] on possibly-undefined strings. *)
Definition orElse (a : option str) (b : option str) : option str :=
  match a with
  | Some (_ :: _) => a
  | _ => b
  end.

(** Decimal rendering of a number inside a template literal. *)
Fixpoint digitsFuel (fuel : nat) (n : N) (acc : str) : str :=
  match fuel with
  | 0 => acc
  | S f =>
      let d := ascii_of_N (48 + n mod 10) in
      if (n <? 10)%N then d :: acc else digitsFuel f (n / 10) (d :: acc)
  end.

Definition ofN (n : N) : str := digitsFuel (S (N.size_nat n)) n [].
Definition ofNat (n : nat) : str := ofN (N.of_nat n).

End Js.

Import Js.

(** ** A backtracking matcher for the regular expressions of the source

    The source uses five regular expressions.  They are embedded as syntax
    trees and run by one matcher that follows the ECMAScript backtracking
    order: alternatives left to right, greedy repetition longest first, lazy
    repetition shortest first, and [exec] trying start positions from the
    left.  Repetition only occurs over character classes in the source, so
    the matcher is structurally recursive. *)

Module Regex.

Inductive re : Type :=
| Eps
| Lit (c : ascii)                       (* a literal character *)
| Cls (p : ascii -> bool)               (* a character class *)
| Bol                                   (* ^ *)
| Eol                                   (* $ *)
| Seq (a b : re)
| Alt (a b : re)
| Star (greedy : bool) (p : ascii -> bool)   (* [p]* and [p]*? *)
| Grp (a : re).                         (* a capture group *)

Record flags := { ignoreCase : bool; multiline : bool }.

Definition anyChar : ascii -> bool := fun _ => true.

(** [p+] is [p p*]. *)
Definition Plus (p : ascii -> bool) : re := Seq (Cls p) (Star true p).

Fixpoint lits (s : str) : re :=
  match s with
  | [] => Eps
  | [c] => Lit c
  | c :: s' => Seq (Lit c) (lits s')
  end.

(** Canonicalize of the non-unicode [i] flag, for the literals of the
    source, which are all ASCII: a code unit of 128 or more never folds onto
    an ASCII one. *)
Definition litMatches (fl : flags) (pat c : ascii) : bool :=
  if ignoreCase fl
  then Ascii.eqb (upperAsciiChar pat) (upperAsciiChar c)
  else Ascii.eqb pat c.

Definition atBol (fl : flags) (prev : option ascii) : bool :=
  match prev with
  | None => true
  | Some c => multiline fl && isLineTerminator c
  end.

Definition atEol (fl : flags) (rest : str) : bool :=
  match rest with
  | [] => true
  | c :: _ => multiline fl && isLineTerminator c
  end.

(** A match result: the end index and the captures, innermost-last. *)
Definition result : Type := nat * list (nat * nat).

(** A continuation takes the current index, the previous character, the
    remaining input and the captures so far. *)
Definition kont : Type :=
  nat -> option ascii -> str -> list (nat * nat) -> option result.

Fixpoint starGreedy (p : ascii -> bool) (k : kont)
    (i : nat) (prev : option ascii) (s : str) (caps : list (nat * nat))
    : option result :=
  match s with
  | c :: s' =>
      if p c then
        match starGreedy p k (S i) (Some c) s' caps with
        | Some r => Some r
        | None => k i prev s caps
        end
      else k i prev s caps
  | [] => k i prev s caps
  end.

Fixpoint starLazy (p : ascii -> bool) (k : kont)
    (i : nat) (prev : option ascii) (s : str) (caps : list (nat * nat))
    : option result :=
  match k i prev s caps with
  | Some r => Some r
  | None =>
      match s with
      | c :: s' => if p c then starLazy p k (S i) (Some c) s' caps else None
      | [] => None
      end
  end.

Fixpoint run (fl : flags) (r : re) (k : kont) : kont :=
  fun i prev s caps =>
  match r with
  | Eps => k i prev s caps
  | Lit a =>
      match s with
      | c :: s' => if litMatches fl a c then k (S i) (Some c) s' caps else None
      | [] => None
      end
  | Cls p =>
      match s with
      | c :: s' => if p c then k (S i) (Some c) s' caps else None
      | [] => None
      end
  | Bol => if atBol fl prev then k i prev s caps else None
  | Eol => if atEol fl s then k i prev s caps else None
  | Seq a b => run fl a (run fl b k) i prev s caps
  | Alt a b =>
      match run fl a k i prev s caps with
      | Some res => Some res
      | None => run fl b k i prev s caps
      end
  | Star true p => starGreedy p k i prev s caps
  | Star false p => starLazy p k i prev s caps
  | Grp a =>
      run fl a (fun j prev' s' caps' => k j prev' s' (caps' ++ [(i, j)]))
          i prev s caps
  end.

Definition accept : kont := fun i _ _ caps => Some (i, caps).

(** A successful [exec]: [index], the end of [match[0]], and the groups. *)
Record matched := { m_index : nat; m_end : nat; m_groups : list (nat * nat) }.

Fixpoint execFrom (fl : flags) (r : re)
    (i : nat) (prev : option ascii) (s : str) : option matched :=
  match run fl r accept i prev s [] with
  | Some (j, caps) => Some {| m_index := i; m_end := j; m_groups := caps |}
  | None =>
      match s with
      | c :: s' => execFrom fl r (S i) (Some c) s'
      | [] => None
      end
  end.

(** [s.match(r)] for a regex without the [g] flag. *)
Definition exec (fl : flags) (r : re) (s : str) : option matched :=
  execFrom fl r 0 None s.

(** [s.slice(a, b)] *)
Definition slice (a b : nat) (s : str) : str := take (b - a) (drop a s).

(** The text of capture group [n] (1-based) of a match on [s]. *)
Definition group (s : str) (m : matched) (n : nat) : str :=
  match m_groups m !! (n - 1) with
  | Some (a, b) => slice a b s
  | None => []
  end.

End Regex.

Import Regex.

(** ** POSIX [path] functions *)

Module Path.

Definition plainSegment (seg : str) : bool :=
  truthy seg && negb (bool_decide (seg = "." :> str))
  && negb (bool_decide (seg = ".." :> str))
  && negb (includes seg "/").

(** [normalizeString]: the segments are folded onto a stack, kept in
    reverse; [".."] pops, or is kept when nothing can be popped and the
    path is relative. *)
Definition normStep (allowAbove : bool) (stack : list str) (seg : str)
    : list str :=
  if bool_decide (seg = [] :> str) || bool_decide (seg = "." :> str) then stack
  else if bool_decide (seg = ".." :> str) then
    match stack with
    | top :: below =>
        if bool_decide (top = ".." :> str) then seg :: stack else below
    | [] => if allowAbove then [seg] else []
    end
  else seg :: stack.

(** [path.normalize] *)
Definition normalize (p : str) : str :=
  match p with
  | [] => "."
  | c :: _ =>
      let isAbs := Ascii.eqb c "/" in
      let trailing := endsWith p "/" in
      let segs := rev (fold_left (normStep (negb isAbs)) (splitChar "/" p) []) in
      let body := join "/" segs in
      match body with
      | [] => if isAbs then "/" else if trailing then "./" else "."
      | _ =>
          (if isAbs then "/" else []) ++ body ++ (if trailing then "/" else [])
      end
  end.

(** [path.join(...parts)] *)
Definition pjoin (parts : list str) : str :=
  normalize (join "/" (filter (fun x => truthy x) parts)).

Fixpoint dropTrailingSlashes (r : str) : str :=
  match r with
  | c :: r' => if Ascii.eqb c "/" then dropTrailingSlashes r' else r
  | [] => []
  end.

(** The last segment of a path, trailing separators ignored. *)
Definition lastSegment (p : str) : str :=
  rev (beforeFirst "/" (dropTrailingSlashes (rev p))).

(** [path.basename(p, ext)] *)
Definition basename (p : str) (ext : str) : str :=
  let b := lastSegment p in
  if endsWith b ext && negb (bool_decide (b = ext))
  then take (length b - length ext) b
  else b.

(** [path.dirname(p)] *)
Definition dirname (p : str) : str :=
  let r := dropTrailingSlashes (rev p) in
  let seg := beforeFirst "/" r in
  let above := drop (length seg) r in
  match above with
  | [] => match p with
          | c :: _ => if Ascii.eqb c "/" then "/" else "."
          | [] => "."
          end
  | _ =>
      match rev (dropTrailingSlashes above) with
      | [] => "/"
      | d => d
      end
  end.

End Path.

Import Path.

(** ** Data model *)

(** [Record<string, string>]: an object with string keys, in insertion
    order.  Assigning to a key that is present keeps its position.  (Keys
    that are canonical array indices, which JavaScript enumerates first, and
    the key [__proto__] are outside the model.) *)
Abbreviation record := (list (str * str)).

Fixpoint getKey (k : str) (o : record) : option str :=
  match o with
  | [] => None
  | (k', v) :: o' => if bool_decide (k' = k) then Some v else getKey k o'
  end.

Fixpoint setKey (k v : str) (o : record) : record :=
  match o with
  | [] => [(k, v)]
  | (k', v') :: o' =>
      if bool_decide (k' = k) then (k, v) :: o' else (k', v') :: setKey k v o'
  end.

(** [Object.assign(target, source)] *)
Definition assign (target source : record) : record :=
  fold_left (fun o kv => setKey (fst kv) (snd kv) o) source target.

Inductive operation := Create | Modify | Delete.

Global Instance operation_eq_dec : EqDecision operation.
Proof. solve_decision. Defined.

Definition operationName (op : operation) : str :=
  match op with
  | Create => "create"
  | Modify => "modify"
  | Delete => "delete"
  end.

Record SpecFrontmatter := {
  fm_operation : operation;
  fm_agent : str;
  fm_model : option str;
}.

Record Mount := {
  hostPath : str;
  containerPath : str;
  readonly : bool;
}.

Record ContainerConfig := {
  additionalMounts : option (list Mount);
  timeout : option N;
}.

Record RegisteredGroup := {
  name : str;
  folder : str;
  trigger : str;
  added_at : str;
  containerConfig : option ContainerConfig;
  requiresTrigger : option bool;
}.

Record ScheduledTask := {
  id : str;
  group_folder : str;
  chat_jid : str;
  prompt : str;
  schedule_type : str;
  schedule_value : str;
  context_mode : str;
  next_run : str;
  status : str;
  created_at : str;
}.

(** What the watcher imports and does not define: the configuration
    constants, the folder-name check, the cron library, the secret store,
    the clock rendering and the JSON codec. *)
Record Externals := {
  GROUPS_DIR : str;
  DATA_DIR : str;
  isValidGroupFolder : str -> bool;
  (** [CronExpressionParser.parse(expr, {tz}).next().toISOString()] at the
      given instant; [inr msg] when [parse] throws an error with message
      [msg]. *)
  cronNext : str -> N -> str + str;
  (** [readEnvFile(keys)]: the requested keys that are present. *)
  readEnvFile : list str -> record;
  (** [new Date(t).toISOString()] *)
  isoString : N -> str;
  (** [JSON.stringify({env}, null, 2)] and the [env] member of
      [JSON.parse(text)]; [None] when parsing throws. *)
  jsonStringify : record -> str;
  jsonParse : str -> option record;
}.

(** ** The pure layer: parsers and validators *)

Definition noFlags : flags := {| ignoreCase := false; multiline := false |}.
Definition flagsIM : flags := {| ignoreCase := true; multiline := true |}.

Definition MAX_CLAUDE_MD_LINES : nat := 150.

Definition MODEL_MAP : record :=
  [ ("opus", "claude-opus-4-6");
    ("sonnet", "claude-sonnet-4-6");
    ("haiku", "claude-haiku-4-6");
    ("opus-4-6", "claude-opus-4-6");
    ("sonnet-4-6", "claude-sonnet-4-6");
    ("claude-opus-4-6", "claude-opus-4-6");
    ("claude-sonnet-4-6", "claude-sonnet-4-6") ].

Definition SELF_MOD_NAMES : list str := ["orchestrator"; "main"].

(** [SELF_MOD_NAMES.has(agent.toLowerCase())] *)
Definition isSelfMod (agent : str) : bool :=
  bool_decide (toLowerCase agent ∈ SELF_MOD_NAMES).

(** The pattern of [parseFrontmatter]: ^---\n( [\s\S]*? )\n---\n( [\s\S]* )$ *)
Definition reFrontmatter : re :=
  Seq Bol (Seq (lits ("---" ++ [LF]))
    (Seq (Grp (Star false anyChar))
      (Seq (lits ([LF] ++ "---" ++ [LF]))
        (Seq (Grp (Star true anyChar)) Eol)))).

Definition parseOperation (s : str) : option operation :=
  if bool_decide (s = "create" :> str) then Some Create
  else if bool_decide (s = "modify" :> str) then Some Modify
  else if bool_decide (s = "delete" :> str) then Some Delete
  else None.

(** One [key: value] line assigned into an object; a line without a colon
    leaves the object as it is. *)
Definition assignKeyValue (o : record) (line : str) : record :=
  match indexOfChar ":" line with
  | None => o
  | Some colonIdx =>
      setKey (trim (take colonIdx line)) (trim (drop (S colonIdx) line)) o
  end.

Definition parseFrontmatter (content : str)
    : option (SpecFrontmatter * str) :=
  match exec noFlags reFrontmatter content with
  | None => None
  | Some m =>
      let yamlBlock := group content m 1 in
      let body := group content m 2 in
      let fm := fold_left assignKeyValue (splitChar LF yamlBlock) [] in
      match getKey "operation" fm, getKey "agent" fm with
      | Some ((_ :: _) as op), Some ((_ :: _) as agent) =>
          match parseOperation op with
          | None => None
          | Some o =>
              Some ({| fm_operation := o; fm_agent := agent;
                       fm_model := getKey "model" fm |}, body)
          end
      | _, _ => None
      end
  end.

(** A heading argument of [parseSection] is a regex source with top-level
    alternatives, such as ['Scheduled Tasks|Tasks']; it is kept as the list
    of its alternatives. *)
Fixpoint headingTail (alts : list re) : re :=
  match alts with
  | [] => Seq (Star true isSpace) Eol
  | [a] => Seq a (Seq (Star true isSpace) Eol)
  | a :: rest => Alt a (headingTail rest)
  end.

(** [new RegExp(`^##\\s+${heading}\\s*$`, 'im')].  The heading is spliced in
    as text, and alternation binds weakest: the prefix [^##\s+] belongs to
    the first alternative only and the suffix [\s*$] to the last one. *)
Definition headingRegex (alts : list re) : re :=
  let pre := Seq Bol (Seq (lits "##") (Plus isSpace)) in
  match alts with
  | [] => Seq pre (headingTail [])
  | [a] => Seq pre (headingTail [a])
  | a :: rest => Alt (Seq pre a) (headingTail rest)
  end.

Definition fence : str := "```".

(** The loop of [parseSection] over [rest.split('\n')]: the offset of the
    first line starting with ['## '] that is met with [inCodeBlock] unset. *)
Fixpoint findSectionEnd (lines : list str) (inCodeBlock : bool) (pos : nat)
    : option nat :=
  match lines with
  | [] => None
  | line :: more =>
      if startsWith line fence then
        findSectionEnd more (negb inCodeBlock) (pos + (length line + 1))
      else if negb inCodeBlock && startsWith line "## " then Some pos
      else findSectionEnd more inCodeBlock (pos + (length line + 1))
  end.

(** The text of the section before trimming. *)
Definition sectionText (rest : str) : str :=
  match findSectionEnd (splitChar LF rest) false 0 with
  | None => rest
  | Some e => take e rest
  end.

Definition parseSection (body : str) (heading : list re) : option str :=
  match exec flagsIM (headingRegex heading) body with
  | None => None
  | Some m =>
      let start := m_end m in
      let rest := drop start body in
      let section := trim (sectionText rest) in
      if truthy section then Some section else None
  end.

(** The headings the handlers ask for. *)
Definition H_CLAUDE_MD : list re := [lits "CLAUDE.md"].
Definition H_APPEND : list re := [lits "Append to CLAUDE.md"].
Definition H_MOUNTS : list re := [lits "Mounts"].
Definition H_ENV : list re :=
  [lits "API Keys"; lits "Env"; lits "Environment"].
Definition H_TASKS : list re := [lits "Scheduled Tasks"; lits "Tasks"].

(** The pattern of [parseCodeBlock]: ```[\w]*\n( [\s\S]*? )``` *)
Definition reCodeBlock : re :=
  Seq (lits fence) (Seq (Star true isWord) (Seq (Lit LF)
    (Seq (Grp (Star false anyChar)) (lits fence)))).

Definition parseCodeBlock (text : str) : option str :=
  match exec noFlags reCodeBlock text with
  | Some m => Some (trim (group text m 1))
  | None => None
  end.

(** [parseCodeBlock(section) || section] *)
Definition codeBlockOr (section : str) : str :=
  match parseCodeBlock section with
  | Some ((_ :: _) as c) => c
  | _ => section
  end.

Definition lineCount (s : str) : nat := length (splitChar LF s).

(** The loop state of [parseYamlList]: the finished items and [current]. *)
Definition yamlStep (st : list record * option record) (line : str)
    : list record * option record :=
  let '(items, current) := st in
  let trimmed := trim line in
  if startsWith trimmed "- " && includes trimmed ":" then
    let items' := match current with
                  | Some c => items ++ [c]
                  | None => items
                  end in
    (items', Some (assignKeyValue [] (drop 2 trimmed)))
  else
    match current with
    | Some c =>
        if includes trimmed ":" then (items, Some (assignKeyValue c trimmed))
        else st
    | None => st
    end.

Definition parseYamlList (text : str) : list record :=
  let '(items, current) := fold_left yamlStep (splitChar LF text) ([], None) in
  match current with
  | Some c => items ++ [c]
  | None => items
  end.

(** [item.hostPath || item.host] and the like. *)
Definition field2 (o : record) (k1 k2 : str) : option str :=
  orElse (getKey k1 o) (getKey k2 o).

(** The mount entries declared by a [## Mounts] section. *)
Definition mountOfItem (item : record) : option Mount :=
  match field2 item "hostPath" "host" with
  | Some ((_ :: _) as hp) =>
      let cp := match field2 item "containerPath" "container" with
                | Some ((_ :: _) as c) => c
                | _ => basename hp []
                end in
      let ro := bool_decide (getKey "readonly" item = Some ("true" : str))
                || bool_decide (getKey "readonly" item = Some ("yes" : str)) in
      Some {| hostPath := hp; containerPath := cp; readonly := ro |}
  | _ => None
  end.

Definition mountsOfSection (section : str) : list Mount :=
  omap mountOfItem (parseYamlList section).

Definition resolveModel (model : option str) : str :=
  match model with
  | Some ((_ :: _) as m) =>
      match getKey (trim (toLowerCase m)) MODEL_MAP with
      | Some ((_ :: _) as full) => full
      | _ => m
      end
  | _ => "claude-sonnet-4-6"
  end.

Definition PARTITIONS : list str := ["tasks"; "results"; "knowledge"].

Section Pure.

Variable E : Externals.

Definition SHARED_DIR : str := pjoin [GROUPS_DIR E; "main"; "shared"].
Definition AGENT_OPS_DIR : str :=
  pjoin [GROUPS_DIR E; "main"; "shared"; "agent-ops"].

(** The root of one kind of partition: [path.join(SHARED_DIR, subdir)]. *)
Definition partitionRoot (subdir : str) : str := pjoin [SHARED_DIR; subdir].

Definition violationMessage (hp relative subdir : str) : str :=
  "Mount " ++ [DQ] ++ hp ++ [DQ] ++ " crosses into agent " ++ [DQ]
  ++ relative ++ [DQ] ++ " " ++ subdir ++ " directory".

(** The body of the inner loop of [validateMountsIsolation]: the violation
    found for the host path [hp] and one subdirectory, if any. *)
Definition crossing (agentName hp subdir : str) : option str :=
  let sharedSubdir := partitionRoot subdir in
  if startsWith hp (sharedSubdir ++ "/") then
    match splitChar "/" (drop (length sharedSubdir + 1) hp) with
    | relative :: _ =>
        if truthy relative && negb (bool_decide (relative = agentName))
        then Some (violationMessage hp relative subdir)
        else None
    | [] => None
    end
  else None.

(** The inner loop, over the subdirectories. *)
Fixpoint checkMount (agentName hp : str) (subdirs : list str) : option str :=
  match subdirs with
  | [] => None
  | subdir :: more =>
      match crossing agentName hp subdir with
      | Some msg => Some msg
      | None => checkMount agentName hp more
      end
  end.

(** [null] is [None]. *)
Fixpoint validateMountsIsolation (agentName : str) (mounts : list Mount)
    : option str :=
  match mounts with
  | [] => None
  | mount :: more =>
      match checkMount agentName (hostPath mount) PARTITIONS with
      | Some msg => Some msg
      | None => validateMountsIsolation agentName more
      end
  end.

End Pure.

(** ** The world: registry, scheduled tasks, file system, log *)

Inductive Node := File (content : str) | Dir.

(** The state the watcher acts on.  [registry] and [tasks] are the two
    tables behind [db.js]; [fs] maps a path to the file or directory there;
    [logs] is the text handed to [log], which the source sends to stdout and
    appends to its log file (an arrow or a dash above code unit 255 in a log
    line is spelled in ASCII); [clock] is the instant [Date.now()] reads. *)
Record World := {
  registry : gmap str RegisteredGroup;
  tasks : gmap str ScheduledTask;
  fs : gmap str Node;
  logs : list str;
  clock : N;
}.

Definition setRegistry (w : World) (r : gmap str RegisteredGroup) : World :=
  {| registry := r; tasks := tasks w; fs := fs w; logs := logs w;
     clock := clock w |}.
Definition setTasks (w : World) (t : gmap str ScheduledTask) : World :=
  {| registry := registry w; tasks := t; fs := fs w; logs := logs w;
     clock := clock w |}.
Definition setFs (w : World) (f : gmap str Node) : World :=
  {| registry := registry w; tasks := tasks w; fs := f; logs := logs w;
     clock := clock w |}.
Definition setLogs (w : World) (l : list str) : World :=
  {| registry := registry w; tasks := tasks w; fs := fs w; logs := l;
     clock := clock w |}.

(** A computation either returns or throws an error with a message; the
    world it leaves behind is kept in both cases. *)
Inductive outcome (A : Type) := Ok (a : A) | Throw (msg : str).
Arguments Ok {A} a.
Arguments Throw {A} & msg.

Definition M (A : Type) : Type := World -> outcome A * World.

Definition ret {A} (a : A) : M A := fun w => (Ok a, w).
Definition throw {A} (msg : str) : M A := fun w => (Throw msg, w).
Definition bind {A B} (m : M A) (k : A -> M B) : M B :=
  fun w =>
    match m w with
    | (Ok a, w') => k a w'
    | (Throw msg, w') => (Throw msg, w')
    end.

Notation "x <- m ;; k" := (bind m (fun x => k))
  (at level 100, m at next level, right associativity).
Notation "m ;; k" := (bind m (fun _ => k))
  (at level 100, right associativity).

(** [try { m } catch (err) { h(err.message) }] *)
Definition tryCatch (m : M unit) (h : str -> M unit) : M unit :=
  fun w =>
    match m w with
    | (Ok a, w') => (Ok a, w')
    | (Throw msg, w') => h msg w'
    end.

Definition when (b : bool) (m : M unit) : M unit :=
  if b then m else ret tt.

(** [for (const x of xs) body(x)] *)
Fixpoint forEach {A} (xs : list A) (body : A -> M unit) : M unit :=
  match xs with
  | [] => ret tt
  | x :: more => body x ;; forEach more body
  end.

Definition get {A} (f : World -> A) : M A := fun w => (Ok (f w), w).

Definition log (message : str) : M unit :=
  fun w => (Ok tt, setLogs w (logs w ++ [message])).

(** *** The registry client *)

(** Modelled from the spec: the registry client of [db.js], which is not
    part of the sources.  Section 6 gives its contract: [get(identity)],
    [set(identity, definition)], [delete(identity)], [listAll()],
    [getTasksForOwner(folder)], [createTask(task)], [updateTask(id, patch)],
    [deleteTask(id)], each atomic; section 3 makes a task [id] unique per
    registry, so creating a task under an identifier in use is an error. *)
Definition getRegisteredGroup (jid : str) : M (option RegisteredGroup) :=
  get (fun w => registry w !! jid).

Definition setRegisteredGroup (jid : str) (g : RegisteredGroup) : M unit :=
  fun w => (Ok tt, setRegistry w (<[jid := g]> (registry w))).

Definition deleteRegisteredGroup (jid : str) : M unit :=
  fun w => (Ok tt, setRegistry w (delete jid (registry w))).

Definition getAllRegisteredGroups : M (list (str * RegisteredGroup)) :=
  get (fun w => map_to_list (registry w)).

Definition getTasksForGroup (folder : str) : M (list ScheduledTask) :=
  get (fun w =>
    filter (fun t => group_folder t = folder) (snd <$> map_to_list (tasks w))).

Definition createTask (t : ScheduledTask) : M unit :=
  fun w =>
    match tasks w !! id t with
    | Some _ => (Throw "UNIQUE constraint failed: scheduled_tasks.id", w)
    | None => (Ok tt, setTasks w (<[id t := t]> (tasks w)))
    end.

(** The patch of [updateTask] as the handlers use it. *)
Definition updateTask (taskId prompt' schedule' next' status' : str)
    : M unit :=
  fun w =>
    (Ok tt, setTasks w (alter (fun t =>
       {| id := id t; group_folder := group_folder t; chat_jid := chat_jid t;
          prompt := prompt'; schedule_type := schedule_type t;
          schedule_value := schedule'; context_mode := context_mode t;
          next_run := next'; status := status';
          created_at := created_at t |}) taskId (tasks w))).

Definition deleteTask (taskId : str) : M unit :=
  fun w => (Ok tt, setTasks w (delete taskId (tasks w))).

(** *** The file system

    The calls of Node's [fs] module that the watcher makes, on a map from
    normalized paths to nodes.  The root and the working directory always
    exist. *)

Definition isSome {A} (o : option A) : bool :=
  match o with Some _ => true | None => false end.

Definition isRoot (p : str) : bool :=
  bool_decide (p = "/" :> str) || bool_decide (p = "." :> str).

Definition isDir (f : gmap str Node) (p : str) : bool :=
  match f !! p with
  | Some Dir => true
  | Some (File _) => false
  | None => isRoot p
  end.

Fixpoint prefixesFrom (acc : str) (segs : list str) : list str :=
  match segs with
  | [] => []
  | seg :: more =>
      let q := match acc with
               | [] => seg
               | _ => if endsWith acc "/" then acc ++ seg
                      else acc ++ "/" ++ seg
               end in
      q :: prefixesFrom q more
  end.

(** A directory path and the directories above it, outermost first. *)
Definition ancestorsAndSelf (p : str) : list str :=
  prefixesFrom (if startsWith p "/" then "/" else [])
               (filter (fun x => truthy x) (splitChar "/" p)).

Fixpoint mkdirAll (f : gmap str Node) (dirs : list str)
    : option (gmap str Node) :=
  match dirs with
  | [] => Some f
  | d :: more =>
      match f !! d with
      | Some (File _) => None
      | _ => mkdirAll (<[d := Dir]> f) more
      end
  end.

Definition existsSync (p : str) : M bool :=
  get (fun w => isSome (fs w !! p) || isRoot p).

(** [fs.mkdirSync(p, { recursive: true })] *)
Definition mkdirSync (p : str) : M unit :=
  fun w =>
    match mkdirAll (fs w) (ancestorsAndSelf p) with
    | Some f => (Ok tt, setFs w f)
    | None => (Throw ("EEXIST: file already exists, mkdir " ++ p), w)
    end.

(** [fs.readFileSync(p, 'utf-8')] *)
Definition readFileSync (p : str) : M str :=
  fun w =>
    match fs w !! p with
    | Some (File c) => (Ok c, w)
    | Some Dir => (Throw ("EISDIR: illegal operation on a directory, read"), w)
    | None => (Throw ("ENOENT: no such file or directory, open " ++ p), w)
    end.

(** [fs.writeFileSync(p, content)] *)
Definition writeFileSync (p content : str) : M unit :=
  fun w =>
    if isDir (fs w) p then
      (Throw ("EISDIR: illegal operation on a directory, open " ++ p), w)
    else if isDir (fs w) (dirname p) then
      (Ok tt, setFs w (<[p := File content]> (fs w)))
    else (Throw ("ENOENT: no such file or directory, open " ++ p), w).

(** The path [k] is [p] or lies below it. *)
Definition within (p k : str) : bool :=
  bool_decide (k = p) || startsWith k (p ++ "/").

(** [fs.rmSync(p, { recursive: true })] *)
Definition rmSync (p : str) : M unit :=
  fun w =>
    match fs w !! p with
    | None => (Throw ("ENOENT: no such file or directory, rm " ++ p), w)
    | Some _ =>
        (Ok tt, setFs w (filter (fun kv => within p (fst kv) = false) (fs w)))
    end.

(** [fs.readdirSync(p)]: the names directly below [p]. *)
Definition readdirSync (p : str) : M (list str) :=
  fun w =>
    if isDir (fs w) p then
      (Ok (omap (fun kv =>
             let k := fst kv in
             if startsWith k (p ++ "/") then
               let rel := drop (length p + 1) k in
               if truthy rel && negb (includes rel "/") then Some rel else None
             else None) (map_to_list (fs w))), w)
    else (Throw ("ENOTDIR: not a directory, scandir " ++ p), w).

(** [fs.renameSync(a, b)].  A file replaces a file; a directory moves with
    everything below it, and only onto a path where nothing exists. *)
Definition renameSync (a b : str) : M unit :=
  fun w =>
    match fs w !! a with
    | None => (Throw ("ENOENT: no such file or directory, rename " ++ a), w)
    | Some (File c) =>
        if isDir (fs w) b then
          (Throw ("EISDIR: illegal operation on a directory, rename " ++ a), w)
        else if isDir (fs w) (dirname b) then
          (Ok tt, setFs w (<[b := File c]> (delete a (fs w))))
        else (Throw ("ENOENT: no such file or directory, rename " ++ a), w)
    | Some Dir =>
        if isSome (fs w !! b) || within a b then
          (Throw ("ENOTEMPTY: directory not empty, rename " ++ a), w)
        else if isDir (fs w) (dirname b) then
          (Ok tt, setFs w (list_to_map (map (fun kv =>
             if within a (fst kv)
             then (b ++ drop (length a) (fst kv), snd kv) else kv)
             (map_to_list (fs w)))))
        else (Throw ("ENOENT: no such file or directory, rename " ++ a), w)
    end.

(** ** The handlers *)

(** [s.charAt(0).toUpperCase() + s.slice(1)], for a first character whose
    upper-case form is one code unit below 256. *)
Definition upperFirst (s : str) : str :=
  match s with
  | [] => []
  | c :: s' =>
      let n := nat_of_ascii c in
      (if ((97 <=? n) && (n <=? 122))
          || ((224 <=? n) && (n <=? 254) && negb (n =? 247))
       then ascii_of_nat (n - 32) else c) :: s'
  end.

(** [Object.values(item)[0] || Object.keys(item)[0]] *)
Definition firstValueOrKey (item : record) : option str :=
  orElse (head (snd <$> item)) (head (fst <$> item)).

Definition keyNamesOf (envItems : list record) : list str :=
  omap (fun item =>
          match firstValueOrKey item with
          | Some ((_ :: _) as k) => Some k
          | _ => None
          end) envItems.

Definition defaultEnv (model : option str) : record :=
  [ ("CLAUDE_CODE_EXPERIMENTAL_AGENT_TEAMS", "1");
    ("CLAUDE_CODE_ADDITIONAL_DIRECTORIES_CLAUDE_MD", "1");
    ("CLAUDE_CODE_DISABLE_AUTO_MEMORY", "0");
    ("CLAUDE_CODE_USE_MODEL", resolveModel model) ].

(** [(item.context_mode as ...) || 'group'] *)
Definition contextModeOf (item : record) : str :=
  match getKey "context_mode" item with
  | Some ((_ :: _) as m) => m
  | _ => "group"
  end.

(** [item.prompt || item.description || ''] *)
Definition promptOf (item : record) : str :=
  match field2 item "prompt" "description" with
  | Some p => p
  | None => []
  end.

Definition lineLimitMessage (lineCount : nat) : str :=
  "CLAUDE.md is " ++ ofNat lineCount ++ " lines (max "
  ++ ofNat MAX_CLAUDE_MD_LINES ++ ")".

Definition appendLimitMessage (lineCount : nat) : str :=
  "CLAUDE.md would be " ++ ofNat lineCount ++ " lines after append (max "
  ++ ofNat MAX_CLAUDE_MD_LINES ++ ")".

Definition alreadyExistsMessage (agentName jid : str) : str :=
  "Agent " ++ [DQ] ++ agentName ++ [DQ] ++ " already exists (JID: " ++ jid
  ++ ")".

Definition notFoundMessage (agentName : str) : str :=
  "Agent " ++ [DQ] ++ agentName ++ [DQ] ++ " not found".

Section Handlers.

Variable E : Externals.

Definition computeNextCronRun (cronExpr : str) : M str :=
  now <- get clock ;;
  match cronNext E cronExpr now with
  | inl iso => ret iso
  | inr msg => throw msg
  end.

Definition nowIso : M str := now <- get clock ;; ret (isoString E now).

(** The default mounts of an agent. *)
Definition standardMounts (agentName : str) : list Mount :=
  [ {| hostPath := pjoin [SHARED_DIR E; "tasks"; agentName];
       containerPath := "tasks"; readonly := false |};
    {| hostPath := pjoin [SHARED_DIR E; "results"; agentName];
       containerPath := "results"; readonly := false |};
    {| hostPath := pjoin [SHARED_DIR E; "knowledge"; agentName];
       containerPath := "knowledge"; readonly := false |};
    {| hostPath := SHARED_DIR E; containerPath := "shared";
       readonly := true |} ].

(** The directories [handleCreate] makes below [SHARED_DIR]. *)
Definition partitionDirs (agentName : str) : list str :=
  [ "tasks/" ++ agentName ++ "/inbox";
    "tasks/" ++ agentName ++ "/active";
    "tasks/" ++ agentName ++ "/archive";
    "results/" ++ agentName ++ "/inbox";
    "results/" ++ agentName ++ "/archive";
    "knowledge/" ++ agentName;
    "knowledge/" ++ agentName ++ "/archive" ].

Definition newGroup (agentName folder addedAt : str) (allMounts : list Mount)
    : RegisteredGroup :=
  {| name := upperFirst agentName ++ " Specialist";
     folder := folder;
     trigger := "@andy";
     added_at := addedAt;
     containerConfig :=
       Some {| additionalMounts := Some allMounts; timeout := Some 600000%N |};
     requiresTrigger := Some false |}.

(** [item.id || `task-${agentName}-${Date.now()}`] *)
Definition taskIdOf (agentName : str) (now : N) (item : record) : str :=
  match getKey "id" item with
  | Some ((_ :: _) as i) => i
  | _ => "task-" ++ agentName ++ "-" ++ ofN now
  end.

Definition newTask (taskId folder jid prompt' cron mode next created : str)
    : ScheduledTask :=
  {| id := taskId; group_folder := folder; chat_jid := jid;
     prompt := prompt'; schedule_type := "cron"; schedule_value := cron;
     context_mode := mode; next_run := next; status := "active";
     created_at := created |}.

(** One round of the task loop of [handleCreate]. *)
Definition createTaskEntry (agentName folder jid : str) (item : record)
    : M unit :=
  now <- get clock ;;
  let taskId := taskIdOf agentName now item in
  match field2 item "cron" "schedule" with
  | Some ((_ :: _) as cron) =>
      let prompt' := promptOf item in
      if truthy prompt' then
        next <- computeNextCronRun cron ;;
        created <- nowIso ;;
        createTask (newTask taskId folder jid prompt' cron
                      (contextModeOf item) next created) ;;
        log ("  Created task: " ++ taskId ++ " (" ++ cron ++ ")")
      else ret tt
  | _ => ret tt
  end.

Definition settingsDirOf (folder : str) : str :=
  pjoin [DATA_DIR E; "sessions"; folder; ".claude"].

Definition settingsPathOf (folder : str) : str :=
  pjoin [DATA_DIR E; "sessions"; folder; ".claude"; "settings.json"].

Definition claudeMdPathOf (folder : str) : str :=
  pjoin [GROUPS_DIR E; folder; "CLAUDE.md"].

(** [handleCreate] is given in three parts, in the order of the source: the
    effects (from the creation of the shared directories to the final log
    line), the mount parsing and validation before them, and the checks that
    open the function. *)

Definition createTasks (agentName folder jid body : str) : M unit :=
  match parseSection body H_TASKS with
  | Some tasksSection =>
      forEach (parseYamlList tasksSection)
              (createTaskEntry agentName folder jid)
  | None => ret tt
  end.

Definition createEnvVars (body : str) (model : option str) : record :=
  match parseSection body H_ENV with
  | Some envSection =>
      let keyNames := keyNamesOf (parseYamlList envSection) in
      match keyNames with
      | [] => defaultEnv model
      | _ => assign (defaultEnv model) (readEnvFile E keyNames)
      end
  | None => defaultEnv model
  end.

Definition provisionAgent (agentName folder jid body : str)
    (model : option str) (claudeMdContent : str) (allMounts : list Mount)
    : M unit :=
  forEach (partitionDirs agentName)
    (fun sub => mkdirSync (pjoin [SHARED_DIR E; sub])) ;;
  let groupDir := pjoin [GROUPS_DIR E; folder] in
  mkdirSync (pjoin [groupDir; "logs"]) ;;
  writeFileSync (pjoin [groupDir; "CLAUDE.md"]) claudeMdContent ;;
  addedAt <- nowIso ;;
  setRegisteredGroup jid (newGroup agentName folder addedAt allMounts) ;;
  mkdirSync (settingsDirOf folder) ;;
  writeFileSync (pjoin [settingsDirOf folder; "settings.json"])
                (jsonStringify E (createEnvVars body model)) ;;
  createTasks agentName folder jid body ;;
  log ("  Agent " ++ [DQ] ++ agentName ++ [DQ] ++ " created -> folder: "
       ++ folder ++ ", JID: " ++ jid).

(** The custom mounts a spec body declares. *)
Definition declaredMounts (body : str) : list Mount :=
  match parseSection body H_MOUNTS with
  | Some mountsSection => mountsOfSection mountsSection
  | None => []
  end.

Definition createAgent (agentName folder jid body : str)
    (model : option str) (claudeMdContent : str) : M unit :=
  let allMounts := standardMounts agentName ++ declaredMounts body in
  match validateMountsIsolation E agentName allMounts with
  | Some isolationError => throw isolationError
  | None =>
      provisionAgent agentName folder jid body model claudeMdContent allMounts
  end.

Definition handleCreate (agentName body : str) (model : option str)
    : M unit :=
  let folder := agentName ++ "-specialist" in
  let jid := "agent:" ++ folder in
  if negb (isValidGroupFolder E folder) then
    throw ("Invalid folder name: " ++ folder)
  else
  existing <- getRegisteredGroup jid ;;
  if isSome existing then throw (alreadyExistsMessage agentName jid) else
  match parseSection body H_CLAUDE_MD with
  | None => throw "Missing ## CLAUDE.md section"
  | Some claudeMdSection =>
      let claudeMdContent := codeBlockOr claudeMdSection in
      if MAX_CLAUDE_MD_LINES <? lineCount claudeMdContent then
        throw (lineLimitMessage (lineCount claudeMdContent))
      else createAgent agentName folder jid body model claudeMdContent
  end.

(** [findOrchestratorJid]: the first registered identity whose folder is
    ['main'], or the empty string. *)
Definition findOrchestratorJid : M str :=
  groups <- getAllRegisteredGroups ;;
  ret (match filter (fun jg => folder (snd jg) = ("main" : str)) groups with
       | (jid, _) :: _ => jid
       | [] => []
       end).

(** The lookup that opens [handleModify] and [handleDelete]: the name as
    given, then the name with [-specialist] appended. *)
Definition resolveAgent (agentName : str)
    : M (str * str * option RegisteredGroup) :=
  let folder := agentName in
  let jid := "agent:" ++ folder in
  group <- getRegisteredGroup jid ;;
  if negb (isSome group) && negb (endsWith folder "-specialist") then
    let folder := agentName ++ "-specialist" in
    let jid := "agent:" ++ folder in
    group <- getRegisteredGroup jid ;;
    ret (folder, jid, group)
  else ret (folder, jid, group).

(** [settings] as read back from [settings.json], or the empty default. *)
Definition loadSettings (settingsPath : str) : M record :=
  present <- existsSync settingsPath ;;
  if present then
    text <- readFileSync settingsPath ;;
    match jsonParse E text with
    | Some env => ret env
    | None => throw "SyntaxError: Unexpected token in JSON"
    end
  else ret [].

Definition saveSettings (settingsPath : str) (env : record) : M unit :=
  mkdirSync (dirname settingsPath) ;;
  writeFileSync settingsPath (jsonStringify E env).

(** The steps of [handleModify], in the order of the source. *)

Definition modifyClaudeMd (folder body : str) : M unit :=
  match parseSection body H_CLAUDE_MD with
  | Some claudeMdSection =>
      let claudeMdContent := codeBlockOr claudeMdSection in
      if MAX_CLAUDE_MD_LINES <? lineCount claudeMdContent then
        throw (lineLimitMessage (lineCount claudeMdContent))
      else
        writeFileSync (claudeMdPathOf folder) claudeMdContent ;;
        log ("  Updated CLAUDE.md for " ++ folder)
  | None => ret tt
  end.

(** [existing.trimEnd() + '\n\n' + appendContent + '\n'] *)
Definition combinedDocument (existing appendContent : str) : str :=
  trimEnd existing ++ [LF; LF] ++ appendContent ++ [LF].

Definition modifyAppend (folder body : str) : M unit :=
  match parseSection body H_APPEND with
  | Some appendSection =>
      let appendContent := codeBlockOr appendSection in
      let claudeMdPath := claudeMdPathOf folder in
      present <- existsSync claudeMdPath ;;
      existing <- (if present then readFileSync claudeMdPath else ret []) ;;
      let combined := combinedDocument existing appendContent in
      if MAX_CLAUDE_MD_LINES <? lineCount combined then
        throw (appendLimitMessage (lineCount combined))
      else
        writeFileSync claudeMdPath combined ;;
        log ("  Appended to CLAUDE.md for " ++ folder)
  | None => ret tt
  end.

Definition modifyModel (folder : str) (model : option str) : M unit :=
  match model with
  | Some (_ :: _) =>
      let settingsPath := settingsPathOf folder in
      env <- loadSettings settingsPath ;;
      saveSettings settingsPath
        (setKey "CLAUDE_CODE_USE_MODEL" (resolveModel model) env) ;;
      log ("  Updated model to " ++ resolveModel model ++ " for " ++ folder)
  | _ => ret tt
  end.

(** One [key, value] entry of an environment item: a value that starts with
    [$] names a key of the secret store. *)
Definition injectEntry (env : record) (kv : str * str) : record :=
  let '(k, v) := kv in
  if startsWith v "$" then
    let envKey := drop 1 v in
    match getKey envKey (readEnvFile E [envKey]) with
    | Some ((_ :: _) as found) => setKey envKey found env
    | _ => env
    end
  else setKey k v env.

Definition modifyEnv (folder body : str) : M unit :=
  match parseSection body H_ENV with
  | Some envSection =>
      let settingsPath := settingsPathOf folder in
      env <- loadSettings settingsPath ;;
      let env' := fold_left (fun e item => fold_left injectEntry item e)
                            (parseYamlList envSection) env in
      saveSettings settingsPath env' ;;
      log ("  Updated env vars for " ++ folder)
  | None => ret tt
  end.

(** The name [handleModify] passes to the validator. *)
Definition isolationName (agentName : str) : str :=
  if bool_decide (agentName = "main" :> str)
     || bool_decide (agentName = "orchestrator" :> str)
  then "main" else agentName.

Definition existingMountsOf (group : RegisteredGroup) : list Mount :=
  match containerConfig group with
  | Some {| additionalMounts := Some ms |} => ms
  | _ => []
  end.

Definition withMounts (group : RegisteredGroup) (ms : list Mount)
    : RegisteredGroup :=
  {| name := name group; folder := folder group; trigger := trigger group;
     added_at := added_at group;
     containerConfig :=
       Some {| additionalMounts := Some ms;
               timeout := match containerConfig group with
                          | Some c => timeout c
                          | None => None
                          end |};
     requiresTrigger := requiresTrigger group |}.

Definition modifyMounts (agentName folder jid body : str)
    (group : RegisteredGroup) : M unit :=
  match parseSection body H_MOUNTS with
  | Some mountsSection =>
      let newMounts := mountsOfSection mountsSection in
      match validateMountsIsolation E (isolationName agentName) newMounts with
      | Some isolationError => throw isolationError
      | None =>
          setRegisteredGroup jid
            (withMounts group (existingMountsOf group ++ newMounts)) ;;
          log ("  Updated mounts for " ++ folder)
      end
  | None => ret tt
  end.

(** One round of the task loop of [handleModify]. *)
Definition upsertTaskEntry (agentName folder jid : str)
    (existingIds : list str) (item : record) : M unit :=
  now <- get clock ;;
  let taskId := taskIdOf agentName now item in
  match field2 item "cron" "schedule" with
  | Some ((_ :: _) as cron) =>
      let prompt' := promptOf item in
      if truthy prompt' then
        if bool_decide (taskId ∈ existingIds) then
          next <- computeNextCronRun cron ;;
          updateTask taskId prompt' cron next "active" ;;
          log ("  Updated task: " ++ taskId)
        else
          next <- computeNextCronRun cron ;;
          created <- nowIso ;;
          createTask (newTask taskId folder jid prompt' cron
                        (contextModeOf item) next created) ;;
          log ("  Created task: " ++ taskId)
      else ret tt
  | _ => ret tt
  end.

Definition modifyTasks (agentName folder jid body : str) : M unit :=
  match parseSection body H_TASKS with
  | Some tasksSection =>
      existingTasks <- getTasksForGroup folder ;;
      let existingIds := id <$> existingTasks in
      forEach (parseYamlList tasksSection)
              (upsertTaskEntry agentName folder jid existingIds)
  | None => ret tt
  end.

(** The target of [handleModify]: the lookup by name, overridden by the
    reverse lookup of the controller when the name is one of its own. *)
Definition modifyTarget (agentName : str)
    : M (str * str * option RegisteredGroup) :=
  target <- resolveAgent agentName ;;
  if isSelfMod agentName then
    jid <- findOrchestratorJid ;;
    group <- (if truthy jid then getRegisteredGroup jid else ret None) ;;
    ret ("main" : str, jid, group)
  else ret target.

Definition handleModify (agentName body : str) (model : option str)
    : M unit :=
  target <- modifyTarget agentName ;;
  let '(folder, jid, group) := target in
  match group with
  | None => throw (notFoundMessage agentName)
  | Some group =>
      modifyClaudeMd folder body ;;
      modifyAppend folder body ;;
      modifyModel folder model ;;
      modifyEnv folder body ;;
      modifyMounts agentName folder jid body group ;;
      modifyTasks agentName folder jid body ;;
      log ("  Agent " ++ [DQ] ++ agentName ++ [DQ] ++ " modified")
  end.

(** The archiving loop of [handleDelete] for one of [inbox], [active]. *)
Definition archiveSub (agentDir sub : str) : M unit :=
  let src := pjoin [agentDir; sub] in
  present <- existsSync src ;;
  if present then
    files <- readdirSync src ;;
    let archiveDir := pjoin [agentDir; "archive"] in
    mkdirSync archiveDir ;;
    forEach files
      (fun file => renameSync (pjoin [src; file]) (pjoin [archiveDir; file]))
  else ret tt.

Definition handleDelete (agentName : str) : M unit :=
  target <- resolveAgent agentName ;;
  let '(folder, jid, group) := target in
  match group with
  | None => throw (notFoundMessage agentName)
  | Some _ =>
      owned <- getTasksForGroup folder ;;
      forEach owned
        (fun task => deleteTask (id task) ;;
                     log ("  Deleted task: " ++ id task)) ;;
      deleteRegisteredGroup jid ;;
      let groupDir := pjoin [GROUPS_DIR E; folder] in
      present <- existsSync groupDir ;;
      when present (rmSync groupDir) ;;
      let settingsDir := pjoin [DATA_DIR E; "sessions"; folder] in
      present <- existsSync settingsDir ;;
      when present (rmSync settingsDir) ;;
      forEach ["tasks"; "results"]
        (fun subdir =>
           let agentDir := pjoin [SHARED_DIR E; subdir; agentName] in
           present <- existsSync agentDir ;;
           if present then forEach ["inbox"; "active"] (archiveSub agentDir)
           else ret tt) ;;
      log ("  Agent " ++ [DQ] ++ agentName ++ [DQ]
           ++ " deleted (archives preserved in shared/)")
  end.

End Handlers.

(** ** Spec files: state transitions and dispatch *)

Inductive suffix := APPLIED | FAILED | PENDING_APPROVAL | APPROVED.

Definition suffixName (sfx : suffix) : str :=
  match sfx with
  | APPLIED => "APPLIED"
  | FAILED => "FAILED"
  | PENDING_APPROVAL => "PENDING_APPROVAL"
  | APPROVED => "APPROVED"
  end.

(** The pattern of [renameSpec]: \.(APPLIED|FAILED|PENDING_APPROVAL|APPROVED)$ *)
Definition reStatusSuffix : re :=
  Seq (Lit ".")
    (Seq (Grp (Alt (lits "APPLIED") (Alt (lits "FAILED")
            (Alt (lits "PENDING_APPROVAL") (lits "APPROVED")))))
         Eol).

(** [base.replace(reStatusSuffix, '')] *)
Definition stripStatus (base : str) : str :=
  match exec noFlags reStatusSuffix base with
  | Some m => take (m_index m) base ++ drop (m_end m) base
  | None => base
  end.

(** The path a spec file is renamed to. *)
Definition renamedPath (filePath : str) (sfx : suffix) : str :=
  pjoin [dirname filePath;
         stripStatus (basename filePath ".md") ++ "." ++ suffixName sfx
         ++ ".md"].

Definition noteSeparator : str := [LF; LF] ++ "---" ++ [LF; LF].

Definition renameSpec (filePath : str) (sfx : suffix)
    (appendText : option str) : M unit :=
  let newPath := renamedPath filePath sfx in
  match appendText with
  | Some ((_ :: _) as text) =>
      content <- readFileSync filePath ;;
      writeFileSync filePath (content ++ noteSeparator ++ text)
  | _ => ret tt
  end ;;
  renameSync filePath newPath.

Definition invalidSpecNote : str :=
  "**Error:** Invalid spec format. Missing or malformed YAML frontmatter."
  ++ [LF] ++ "Expected: `operation`, `agent` fields.".

Definition pendingNote : str :=
  "**Pending owner approval.** This spec targets the Orchestrator. "
  ++ "Waiting for rename to .APPROVED.md.".

Definition cannotDeleteNote : str :=
  "**Error:** Cannot delete the Orchestrator.".

Definition errorNote (msg : str) : str := "**Error:** " ++ msg.

(** The marker at which [processApprovedFile] cuts the approval notice. *)
Definition approvalMarker : str :=
  [LF] ++ "---" ++ [LF; LF] ++ "**Pending owner approval".

Section Dispatch.

Variable E : Externals.

(** The [switch] of [processSpecFile]. *)
Definition runOperation (op : operation) (agent body : str)
    (model : option str) : M unit :=
  match op with
  | Create => handleCreate E agent body model
  | Modify => handleModify E agent body model
  | Delete => handleDelete E agent
  end.

(** The [switch] of [processApprovedFile], which has no [delete] case. *)
Definition runApprovedOperation (op : operation) (agent body : str)
    (model : option str) : M unit :=
  match op with
  | Create => handleCreate E agent body model
  | Modify => handleModify E agent body model
  | Delete => ret tt
  end.

Definition processSpecFile (filePath : str) : M unit :=
  let filename := basename filePath [] in
  log ("Processing: " ++ filename) ;;
  content <- readFileSync filePath ;;
  match parseFrontmatter content with
  | None =>
      renameSpec filePath FAILED (Some invalidSpecNote) ;;
      log ("  FAILED: Invalid frontmatter in " ++ filename)
  | Some (frontmatter, body) =>
      let op := fm_operation frontmatter in
      let agent := fm_agent frontmatter in
      let model := fm_model frontmatter in
      if isSelfMod agent && negb (bool_decide (op = Delete)) then
        renameSpec filePath PENDING_APPROVAL (Some pendingNote) ;;
        log ("  PENDING_APPROVAL: Self-modification detected for " ++ [DQ]
             ++ agent ++ [DQ])
      else if isSelfMod agent && bool_decide (op = Delete) then
        renameSpec filePath FAILED (Some cannotDeleteNote) ;;
        log "  FAILED: Cannot delete orchestrator"
      else
        tryCatch
          (runOperation op agent body model ;;
           renameSpec filePath APPLIED None ;;
           log ("  APPLIED: " ++ operationName op ++ " " ++ agent))
          (fun msg =>
             renameSpec filePath FAILED (Some (errorNote msg)) ;;
             log ("  FAILED: " ++ operationName op ++ " " ++ agent ++ " - "
                  ++ msg))
  end.

Definition processApprovedFile (filePath : str) : M unit :=
  let filename := basename filePath [] in
  log ("Processing approved: " ++ filename) ;;
  content <- readFileSync filePath ;;
  let cleanContent := beforeFirst approvalMarker content in
  match parseFrontmatter cleanContent with
  | None =>
      renameSpec filePath FAILED
        (Some ("**Error:** Could not re-parse spec after approval." : str))
  | Some (frontmatter, body) =>
      let op := fm_operation frontmatter in
      let agent := fm_agent frontmatter in
      tryCatch
        (runApprovedOperation op agent body (fm_model frontmatter) ;;
         renameSpec filePath APPLIED None ;;
         log ("  APPLIED (approved): " ++ operationName op ++ " " ++ agent))
        (fun msg =>
           renameSpec filePath FAILED (Some (errorNote msg)) ;;
           log ("  FAILED (approved): " ++ operationName op ++ " " ++ agent
                ++ " - " ++ msg))
  end.

(** How [poll] treats one entry of the watched directory. *)
Inductive route := Skip | ApprovedPath | StandardPath.

Definition classify (file : str) : route :=
  if negb (endsWith file ".md") then Skip
  else if includes file ".APPLIED." || includes file ".FAILED."
          || includes file ".PENDING_APPROVAL." then Skip
  else if includes file ".APPROVED." then ApprovedPath
  else if startsWith file "create-" || startsWith file "modify-"
          || startsWith file "delete-" then StandardPath
  else Skip.

Definition pollEntry (file : str) : M unit :=
  let filePath := pjoin [AGENT_OPS_DIR E; file] in
  match classify file with
  | Skip => ret tt
  | ApprovedPath => processApprovedFile filePath
  | StandardPath => processSpecFile filePath
  end.

Definition poll : M unit :=
  present <- existsSync (AGENT_OPS_DIR E) ;;
  when (negb present) (mkdirSync (AGENT_OPS_DIR E)) ;;
  files <- readdirSync (AGENT_OPS_DIR E) ;;
  forEach files pollEntry.

End Dispatch.

(** ** A concrete instance of the externals, for the examples *)

Module Demo.

Definition nl (lines : list str) : str := join [LF] lines.

(** Folder names: a letter or digit, then letters, digits, [_] or [-], at
    most 64 characters. *)
Definition validFolder (f : str) : bool :=
  match f with
  | [] => false
  | c :: rest =>
      isWord c && negb (Ascii.eqb c "_")
      && forallb (fun d => isWord d || Ascii.eqb d "-") rest
      && (length f <=? 64)
  end.

(** A cron expression of five or six fields of digits, [*], [,], [-], [/]. *)
Definition cronField (f : str) : bool :=
  truthy f
  && forallb (fun d => let n := nat_of_ascii d in
                ((48 <=? n) && (n <=? 57)) || Ascii.eqb d "*"
                || Ascii.eqb d "," || Ascii.eqb d "-" || Ascii.eqb d "/") f.

Definition validCron (e : str) : bool :=
  let fields := splitChar " " e in
  ((length fields =? 5) || (length fields =? 6)) && forallb cronField fields.

Definition ext : Externals :=
  {| GROUPS_DIR := "/srv/groups";
     DATA_DIR := "/srv/data";
     isValidGroupFolder := validFolder;
     cronNext := fun e now =>
       if validCron e then inl ("next:" ++ e ++ "@" ++ ofN now)
       else inr ("Invalid cron expression: " ++ e);
     readEnvFile := fun keys =>
       filter (fun kv => bool_decide (fst kv ∈ keys))
              [("EXA_API_KEY", "exa-secret") : str * str];
     isoString := fun t => "t" ++ ofN t;
     jsonStringify := fun env =>
       nl (map (fun kv => fst kv ++ "=" ++ snd kv) env);
     jsonParse := fun text =>
       Some (omap (fun line =>
               match indexOfChar "=" line with
               | Some i => Some (take i line, drop (S i) line)
               | None => None
               end) (splitChar LF text)) |}.

Definition emptyWorld : World :=
  {| registry := ∅; tasks := ∅; fs := ∅; logs := []; clock := 1700%N |}.

(** The world after the given files were written into the watched
    directory. *)
Definition withSpecs (files : list (str * str)) (w : World) : World :=
  snd ((mkdirSync (AGENT_OPS_DIR ext) ;;
        forEach files (fun f =>
          writeFileSync (pjoin [AGENT_OPS_DIR ext; fst f]) (snd f))) w).

End Demo.

(** ** Vocabulary of the properties *)

(** The heading of the section is found in [body]. *)
Definition sectionPresent (body : str) (heading : list re) : bool :=
  isSome (exec flagsIM (headingRegex heading) body).

(** The number of fence lines among the first [k] lines. *)
Definition fencesBefore (lines : list str) (k : nat) : nat :=
  length (filter (fun l => startsWith l fence = true) (take k lines)).

(** Line [k] is nested inside a fenced block: an odd number of fence lines
    precede it. *)
Definition insideFence (lines : list str) (k : nat) : bool :=
  Nat.odd (fencesBefore lines k).

(** The offset of line [k] in the text the lines were split from. *)
Definition lineOffset (lines : list str) (k : nat) : nat :=
  sum_list ((fun l => length l + 1) <$> take k lines).

(** An agent name as a path segment: not empty, no separator in it. *)
Definition plainName (n : str) : Prop := n <> [] /\ "/"%char ∉ n.

(** The host path [hp] lies in the partition of kind [subdir] of agent [B]:
    it is [<partitionRoot>/<B>] or starts with [<partitionRoot>/<B>/]. *)
Definition inPartition (E : Externals) (subdir B hp : str) : bool :=
  bool_decide (hp = partitionRoot E subdir ++ "/" ++ B)
  || startsWith hp (partitionRoot E subdir ++ "/" ++ B ++ "/").

(** The mounts registered for [jid]. *)
Definition mountsAt (w : World) (jid : str) : list Mount :=
  match registry w !! jid with
  | Some g => existingMountsOf g
  | None => []
  end.

(** The text of an absolute path with the given segments. *)
Definition absText (segs : list str) : str :=
  concat ((fun s => "/" ++ s) <$> segs).

(** A configured directory that is absolute and normalized: a non-empty
    sequence of plain segments, each after a separator. *)
Definition absolutePath (p : str) : Prop :=
  exists segs, segs <> [] /\ Forall (fun s => plainSegment s = true) segs
               /\ p = absText segs.

(** A computation leaves a component of the world as it found it, whether
    it returns or throws. *)
Definition preserves {X A : Type} (proj : World -> X) (m : M A) : Prop :=
  forall w, proj (snd (m w)) = proj w.

(** A mount that reaches into no partition of an agent other than [A]. *)
Definition isolatedFrom (E : Externals) (A : str) (m : Mount) : Prop :=
  forall subdir B, subdir ∈ PARTITIONS -> plainName B -> B <> A ->
    inPartition E subdir B (hostPath m) = false.

(** The index of the first occurrence of [sep] in [s]. *)
Fixpoint findSep (sep s : str) : option nat :=
  if startsWith s sep then Some 0
  else match s with
       | [] => None
       | _ :: s' => S <$> findSep sep s'
       end.

Definition frontmatterOpen : str := "---" ++ [LF].
Definition frontmatterClose : str := [LF] ++ "---" ++ [LF].

(** What the pattern of [parseFrontmatter] captures, computed directly: the
    text opens with the delimiter line, the header block runs to the first
    closing delimiter, and the body is everything after it. *)
Definition splitFrontmatter (content : str) : option (str * str) :=
  if startsWith content frontmatterOpen then
    let r := drop 4 content in
    match findSep frontmatterClose r with
    | Some d => Some (take d r, drop (d + 5) r)
    | None => None
    end
  else None.

(** The previous character after the literal text [s] was matched. *)
Definition lastPrev (prev : option ascii) (s : str) : option ascii :=
  fold_left (fun _ c => Some c) s prev.

(** A projection of the world that does not read the file system, the
    registry, the tasks, the log. *)
Definition ignoresFs {X : Type} (proj : World -> X) : Prop :=
  forall w f, proj (setFs w f) = proj w.
Definition ignoresRegistry {X : Type} (proj : World -> X) : Prop :=
  forall w r, proj (setRegistry w r) = proj w.
Definition ignoresTasks {X : Type} (proj : World -> X) : Prop :=
  forall w t, proj (setTasks w t) = proj w.
Definition ignoresLogs {X : Type} (proj : World -> X) : Prop :=
  forall w l, proj (setLogs w l) = proj w.

(** The steps of [handleModify] once the target is found. *)
Definition modifySteps (E : Externals) (A f j body : str) (model : option str)
    (g : RegisteredGroup) : M unit :=
  modifyClaudeMd E f body ;;
  modifyAppend E f body ;;
  modifyModel E f model ;;
  modifyEnv E f body ;;
  modifyMounts E A f j body g ;;
  modifyTasks E A f j body ;;
  log ("  Agent " ++ [DQ] ++ A ++ [DQ] ++ " modified").

(** What remains of [parseFrontmatter] once the pattern has matched. *)
Definition frontmatterOf (yamlBlock body : str)
    : option (SpecFrontmatter * str) :=
  let fm := fold_left assignKeyValue (splitChar LF yamlBlock) [] in
  match getKey "operation" fm, getKey "agent" fm with
  | Some ((_ :: _) as op), Some ((_ :: _) as agent) =>
      match parseOperation op with
      | None => None
      | Some o =>
          Some ({| fm_operation := o; fm_agent := agent;
                   fm_model := getKey "model" fm |}, body)
      end
  | _, _ => None
  end.

(** The content of a spec file after [renameSpec] appended its note. *)
Definition annotated (content : str) (note : option str) : str :=
  match note with
  | Some ((_ :: _) as text) => content ++ noteSeparator ++ text
  | _ => content
  end.

(** The [try] block shared by [processSpecFile] and [processApprovedFile]:
    run the operation, mark the file APPLIED; on an error mark it FAILED
    with the message.  [okLine] and [failLine] are the log lines. *)
Definition applyAndMark (filePath : str) (operationRun : M unit)
    (okLine : str) (failLine : str -> str) : M unit :=
  tryCatch
    (operationRun ;; renameSpec filePath APPLIED None ;; log okLine)
    (fun msg =>
       renameSpec filePath FAILED (Some (errorNote msg)) ;; log (failLine msg)).

(** No proper suffix of [m] is a prefix of [m]. *)
Definition borderless (m : str) : Prop :=
  forall k, 0 < k < length m -> startsWith m (drop k m) = false.

(** A computation never removes a directory or replaces it by a file. *)
Definition keepsDirs {A : Type} (m : M A) : Prop :=
  forall w p, fs w !! p = Some Dir -> fs (snd (m w)) !! p = Some Dir.

(** The default read-write mount of an agent on one of its partitions. *)
Definition partitionMount (E : Externals) (agentName subdir : str) : Mount :=
  {| hostPath := partitionRoot E subdir ++ "/" ++ agentName;
     containerPath := subdir; readonly := false |}.

(** The accumulator of [prefixesFrom] after the segments [done]. *)
Definition accOf (done : list str) : str :=
  match done with
  | [] => "/"
  | _ => absText done
  end.


(** ** Example inputs *)

Module Examples.

Import Demo.

(** A body whose mounts section is present and empty. *)
Definition emptyMountsBody : str :=
  nl ["## CLAUDE.md"; "You are the billing agent."; []; "## Mounts"; [];
           "## Scheduled Tasks"; "- id: t1"].

(** A create body with a fenced instruction document that contains a
    ['## Mounts'] line, and no mounts section of its own. *)
Definition fencedHeadingBody : str :=
  nl ["## CLAUDE.md"; "```"; "# Billing agent"; "## Mounts";
           "- host: /etc"; "```"; []].

(** A mount into the tasks partition of the agent [other]. *)
Definition crossMount : Mount :=
  {| hostPath := "/srv/groups/main/shared/tasks/other/inbox";
     containerPath := "tasks"; readonly := false |}.

(** A create body for [billing] that declares [crossMount]. *)
Definition crossBody : str :=
  nl ["## CLAUDE.md"; "You are the billing agent."; [];
      "## Mounts"; "- host: /srv/groups/main/shared/tasks/other/inbox";
      "  container: tasks"; []].

(** A document of [n] lines. *)
Definition documentOfLines (n : nat) : str :=
  nl (replicate n ("ok" : str)).

(** A create body whose instruction document has [n] lines. *)
Definition bodyOfLines (n : nat) : str :=
  "## CLAUDE.md" ++ [LF] ++ documentOfLines n ++ [LF].

(** A body that appends [n] lines to the instruction document. *)
Definition appendBodyOfLines (n : nat) : str :=
  "## Append to CLAUDE.md" ++ [LF] ++ documentOfLines n ++ [LF].

(** The world after [billing] was created with a document of [n] lines. *)
Definition billingWorld (n : nat) : World :=
  snd (handleCreate ext "billing" (bodyOfLines n) None emptyWorld).




(** The path of a file in the watched directory. *)
Definition opsPath (file : str) : str := pjoin [AGENT_OPS_DIR ext; file].

(** A spec that asks to delete the controller itself. *)
Definition selfDeleteSpec : str :=
  nl ["---"; "operation: delete"; "agent: main"; "---"; []].

(** A spec that asks to delete [billing]. *)
Definition deleteBillingSpec : str :=
  nl ["---"; "operation: delete"; "agent: billing"; "---"; []].

(** A spec by which the controller modifies itself. *)
Definition selfModifySpec : str :=
  nl ["---"; "operation: modify"; "agent: Orchestrator"; "model: opus";
      "---"; "## Append to CLAUDE.md"; "Report every Friday."; []].

Definition selfModifyFrontmatter : SpecFrontmatter :=
  {| fm_operation := Modify; fm_agent := "Orchestrator";
     fm_model := Some ("opus" : str) |}.

Definition selfModifyBody : str :=
  nl ["## Append to CLAUDE.md"; "Report every Friday."; []].

(** The controller is registered, with its instruction document. *)
Definition controllerWorld : World :=
  snd ((setRegisteredGroup "owner@s.whatsapp.net"
          {| name := "Orchestrator"; folder := "main"; trigger := "@andy";
             added_at := "t0"; containerConfig := None;
             requiresTrigger := Some false |} ;;
        mkdirSync "/srv/groups/main" ;;
        writeFileSync "/srv/groups/main/CLAUDE.md" "# Orchestrator")
         emptyWorld).

(** The controller has written [selfModifySpec]. *)
Definition selfModifyWorld : World :=
  withSpecs [("modify-orchestrator.md", selfModifySpec)] controllerWorld.

Definition deleteBillingFrontmatter : SpecFrontmatter :=
  {| fm_operation := Delete; fm_agent := "billing"; fm_model := None |}.

(** A spec by which the controller modifies itself, and whose body opens
    with a blank line and the words of the approval notice: the closing
    delimiter of the header and the start of the body spell the marker at
    which the approved path cuts. *)
Definition markerSpec : str :=
  nl ["---"; "operation: modify"; "agent: main"; "---"; [];
      "**Pending owner approval is recorded in the ledger.**";
      "## Append to CLAUDE.md"; "Report every Friday."; []].

(** [markerSpec] is gated, and the owner renames the pending file to
    APPROVED. *)
Definition markerGatedWorld : World :=
  snd (processSpecFile ext (opsPath "modify-main.md")
         (withSpecs [("modify-main.md", markerSpec)] controllerWorld)).

Definition markerApprovedWorld : World :=
  snd (renameSync (opsPath "modify-main.PENDING_APPROVAL.md")
                  (opsPath "modify-main.APPROVED.md") markerGatedWorld).

(** A file marked APPROVED that asks to delete the controller, and the same
    spec on the standard path. *)
Definition approvedSelfDeleteWorld : World :=
  withSpecs [("delete-main.APPROVED.md", selfDeleteSpec)] emptyWorld.

Definition standardSelfDeleteWorld : World :=
  withSpecs [("delete-main.md", selfDeleteSpec)] emptyWorld.

(** [billing] exists, and a file marked APPROVED asks to delete it. *)
Definition approvedDeleteWorld : World :=
  withSpecs [("delete-billing.APPROVED.md", deleteBillingSpec)]
            (billingWorld 3).

End Examples.

Import Examples.

(** ** Further vocabulary and example inputs *)

(** A mount with the given host path. *)
Definition mountAt (hp : str) : Mount :=
  {| hostPath := hp; containerPath := basename hp []; readonly := false |}.

(** The first [k] lines of a text, each with its line feed. *)
Definition linesBefore (lines : list str) (k : nat) : str :=
  concat ((fun l => l ++ [LF]) <$> take k lines).

(** The line starts with ['## '] and is not nested inside a fenced block. *)
Definition openHeading (lines : list str) (k : nat) : Prop :=
  exists line, lines !! k = Some line
               /\ startsWith line "## " = true
               /\ insideFence lines k = false.

(** The line opens a list item: trimmed, it starts with ['- '] and holds
    a colon. *)
Definition opensItem (line : str) : bool :=
  startsWith (trim line) "- " && includes (trim line) ":".

(** The items of the loop state of [parseYamlList], [current] last. *)
Definition itemsOf (st : list record * option record) : list record :=
  match snd st with
  | Some c => fst st ++ [c]
  | None => fst st
  end.

(** The header lines of a spec, as the format in the head comment of the
    watcher gives them: [operation], [agent] and the optional [model]. *)
Definition headerLines (op : operation) (agent : str) (model : option str)
    : list str :=
  ["operation: " ++ operationName op; "agent: " ++ agent]
  ++ match model with
     | Some m => ["model: " ++ m]
     | None => []
     end.

(** A spec file written in that format. *)
Definition renderSpec (op : operation) (agent : str) (model : option str)
    (body : str) : str :=
  frontmatterOpen ++ join [LF] (headerLines op agent model)
  ++ frontmatterClose ++ body.

(** A value as the header parser stores it: trimmed, on one line. *)
Definition headerValue (v : str) : Prop := trim v = v /\ LF ∉ v.

(** The names that every JavaScript object inherits and that are spelled
    in lower case only.  [MODEL_MAP[lower]] finds these on the prototype;
    the lookup of the model is meant for all other names. *)
Definition inheritedNames : list str := ["constructor"; "__proto__"].

(** A model name whose lookup key is a key of the table or of nothing. *)
Definition plainModel (model : option str) : Prop :=
  forall m, model = Some m -> trim (toLowerCase m) ∉ inheritedNames.

(** The three markers of a spec file that [poll] passes over. *)
Definition settled (sfx : suffix) : bool :=
  match sfx with
  | APPROVED => false
  | _ => true
  end.

(** The task table is keyed by the identifier of each task, as the
    primary key of the table makes it. *)
Definition keyedById (t : gmap str ScheduledTask) : Prop :=
  forall k task, t !! k = Some task -> id task = k.

(** The folder under which the lookup that opens [handleDelete] and
    [handleModify] finds the agent [agentName] registered as [g]: the name
    itself, or the name with [-specialist] when the name alone is not
    registered and does not end so already. *)
Definition foundAs (w : World) (agentName folder : str)
    (g : RegisteredGroup) : Prop :=
  (folder = agentName /\ registry w !! ("agent:" ++ agentName) = Some g)
  \/ (folder = agentName ++ "-specialist"
      /\ registry w !! ("agent:" ++ agentName) = None
      /\ endsWith agentName "-specialist" = false
      /\ registry w !! ("agent:" ++ agentName ++ "-specialist") = Some g).

(** The marker and the note with which the [try] block of the dispatch
    closes a spec file: APPLIED and no note after a handler that returned,
    FAILED and the error message after one that threw. *)
Definition verdict {A : Type} (r : outcome A) : suffix * option str :=
  match r with
  | Ok _ => (APPLIED, None)
  | Throw msg => (FAILED, Some (errorNote msg))
  end.

Module MoreExamples.

Import Demo.

(** A path that starts in the tasks partition of [billing] and leaves it
    through a parent segment. *)
Definition escapingPath : str :=
  "/srv/groups/main/shared/tasks/billing/../other/inbox".

(** A create body without an environment section, whose instruction
    document speaks of an environment and lists a key. *)
Definition proseBody : str :=
  nl ["## CLAUDE.md"; "You work in the staging environment.";
      "- key: EXA_API_KEY"; []].

(** [billing] exists and owns two tasks; a third task belongs to the
    controller. *)
Definition taskOf (taskId folder : str) : ScheduledTask :=
  newTask taskId folder ("agent:" ++ folder) "Report" "0 9 * * 1" "group"
          "next" "t0".

Definition billingWithTasks : World :=
  setTasks (billingWorld 3)
    (<[("b1" : str) := taskOf "b1" "billing-specialist"]>
       (<[("b2" : str) := taskOf "b2" "billing-specialist"]>
          (<[("m1" : str) := taskOf "m1" "main"]> ∅))).

(** A modify body that adds a mount of the reports directory. *)
Definition reportsBody : str :=
  nl ["## Mounts"; "- host: /srv/reports"; "  readonly: yes"; []].

(** A modify body with a new instruction document and the mount of
    [crossBody]. *)
Definition rewriteAndCrossBody : str :=
  nl ["## CLAUDE.md"; "Billing agent, second edition."; [];
      "## Mounts"; "- host: /srv/groups/main/shared/tasks/other/inbox";
      "  container: tasks"; []].

(** A file in the watched directory that has no header. *)
Definition headlessWorld : World :=
  withSpecs [("create-notes.md", "Remember the milk.")] emptyWorld.

(** [selfModifySpec] written straight into a file that carries the
    APPROVED marker; no file was ever held for approval. *)
Definition directlyApprovedWorld : World :=
  withSpecs [("note.APPROVED.md", selfModifySpec)] controllerWorld.

End MoreExamples.

Import MoreExamples.

(** ** The handlers up to their task loops, and further example inputs *)





Module Cases.

Import Demo.

(** Two agents, [billing] and [billing-specialist]: the folder of the first
    is the name of the second. *)
Definition namesakeWorld : World :=
  snd (handleCreate ext "billing-specialist" (bodyOfLines 3) None
         (billingWorld 3)).

(** The inbox of the tasks partition of [billing-specialist], and the inbox
    of the tasks partition of [billing]. *)
Definition namesakeInbox : str :=
  "/srv/groups/main/shared/tasks/billing-specialist/inbox".

Definition ownInbox : str := "/srv/groups/main/shared/tasks/billing/inbox".

(** Modify bodies that mount the one and the other. *)
Definition namesakeBody : str :=
  nl ["## Mounts";
      "- host: /srv/groups/main/shared/tasks/billing-specialist/inbox";
      "  container: inbox"; []].

Definition ownInboxBody : str :=
  nl ["## Mounts"; "- host: /srv/groups/main/shared/tasks/billing/inbox";
      "  container: inbox"; []].

(** A spec by which the controller modifies itself, and whose appended text
    holds a rule, a blank line and a sentence that starts with the words of
    the approval notice; a mounts section follows. *)
Definition ruleSpec : str :=
  nl ["---"; "operation: modify"; "agent: main"; "---";
      "## Append to CLAUDE.md"; "Approval flow:"; []; "---"; [];
      "**Pending owner approval** means: wait for the owner."; [];
      "## Mounts"; "- host: /srv/reports"; []].

Definition ruleBody : str :=
  match parseFrontmatter ruleSpec with
  | Some (_, body) => body
  | None => []
  end.

(** [ruleSpec] is gated, and the owner renames the pending file to
    APPROVED. *)
Definition ruleGatedWorld : World :=
  snd (processSpecFile ext (opsPath "modify-main.md")
         (withSpecs [("modify-main.md", ruleSpec)] controllerWorld)).

Definition ruleApprovedWorld : World :=
  snd (renameSync (opsPath "modify-main.PENDING_APPROVAL.md")
                  (opsPath "modify-main.APPROVED.md") ruleGatedWorld).


Definition badCronModifySpec : str :=
  nl ["---"; "operation: modify"; "agent: billing"; "---";
      "## Scheduled Tasks";
      "- id: t1"; "  cron: 0 9 * * 1"; "  prompt: Send the weekly report";
      "- id: t2"; "  cron: every monday"; "  prompt: Chase late invoices";
      "- id: t3"; "  cron: 0 18 * * 5"; "  prompt: Close the week"; []].

Definition badCronModifyBody : str :=
  match parseFrontmatter badCronModifySpec with
  | Some (_, body) => body
  | None => []
  end.


End Cases.

Import Cases.

(** * Properties *)

(* Character comparisons stay folded during simplification. *)
Arguments Ascii.eqb : simpl never.

(** ** Strings *)

Section StringFacts.

Lemma ascii_eqb_true (c d : ascii) : Ascii.eqb c d = true <-> c = d.
Proof. apply Ascii.eqb_eq. Qed.

Lemma ascii_eqb_false (c d : ascii) : Ascii.eqb c d = false <-> c <> d.
Proof. apply Ascii.eqb_neq. Qed.

Lemma startsWith_nil (s : str) : startsWith s [] = true.
Proof. destruct s; reflexivity. Qed.

Lemma startsWith_app (p r : str) : startsWith (p ++ r) p = true.
Proof.
  induction p as [|c p IH]; simpl.
  - apply startsWith_nil.
  - rewrite Ascii.eqb_refl. exact IH.
Qed.

Lemma startsWith_inv (s p : str) :
  startsWith s p = true -> s = p ++ drop (length p) s.
Proof.
  revert s. induction p as [|c p IH]; intros s H.
  - reflexivity.
  - destruct s as [|d s]; simpl in H; [discriminate|].
    apply andb_true_iff in H as [Hc Hs].
    apply ascii_eqb_true in Hc. subst d. simpl. f_equal. apply IH, Hs.
Qed.

Lemma startsWith_iff (s p : str) :
  startsWith s p = true <-> exists r, s = p ++ r.
Proof.
  split.
  - intros H. eexists. apply startsWith_inv, H.
  - intros [r ->]. apply startsWith_app.
Qed.

Lemma startsWith_cancel (a s p : str) :
  startsWith (a ++ s) (a ++ p) = startsWith s p.
Proof.
  induction a as [|c a IH]; simpl; [reflexivity|].
  rewrite Ascii.eqb_refl. exact IH.
Qed.

Lemma startsWith_longer (s p q : str) :
  startsWith s (p ++ q) = true -> startsWith s p = true.
Proof.
  rewrite !startsWith_iff. intros [r ->]. exists (q ++ r).
  now rewrite app_assoc.
Qed.

Lemma startsWith_short (s p : str) :
  length s < length p -> startsWith s p = false.
Proof.
  intros Hlen. destruct (startsWith s p) eqn:H; [|reflexivity].
  apply startsWith_inv in H. rewrite H, length_app in Hlen. lia.
Qed.

(** When [x] is at least as long as [m], only [x] decides the test. *)
Lemma startsWith_app_long (x r m : str) :
  length m <= length x -> startsWith (x ++ r) m = startsWith x m.
Proof.
  revert x. induction m as [|c m IH]; intros x Hlen.
  - now rewrite !startsWith_nil.
  - destruct x as [|d x]; simpl in *; [lia|].
    destruct (Ascii.eqb c d); simpl; [apply IH; lia|reflexivity].
Qed.

Lemma includes_nil_false (p : str) : p <> [] -> includes [] p = false.
Proof. destruct p; [congruence|reflexivity]. Qed.

Lemma includes_cons (c : ascii) (s p : str) :
  includes (c :: s) p = startsWith (c :: s) p || includes s p.
Proof. reflexivity. Qed.

(** *** Splitting at a separator character *)

Lemma splitChar_no_sep (c : ascii) (s : str) :
  c ∉ s -> splitChar c s = [s].
Proof.
  induction s as [|d s IH]; intros Hnot; [reflexivity|].
  simpl. apply not_elem_of_cons in Hnot as [Hne Hs].
  destruct (Ascii.eqb d c) eqn:Hd.
  - apply ascii_eqb_true in Hd. congruence.
  - now rewrite (IH Hs).
Qed.

Lemma splitChar_app_sep (c : ascii) (s r : str) :
  c ∉ s -> splitChar c (s ++ c :: r) = s :: splitChar c r.
Proof.
  induction s as [|d s IH]; intros Hnot; simpl.
  - now rewrite Ascii.eqb_refl.
  - apply not_elem_of_cons in Hnot as [Hne Hs].
    destruct (Ascii.eqb d c) eqn:Hd.
    + apply ascii_eqb_true in Hd. congruence.
    + now rewrite (IH Hs).
Qed.

Lemma splitChar_nonempty (c : ascii) (s : str) : splitChar c s <> [].
Proof.
  destruct s as [|d s]; simpl; [discriminate|].
  destruct (Ascii.eqb d c); [discriminate|].
  destruct (splitChar c s); discriminate.
Qed.



(** *** Trimming *)

Lemma trimStart_head (s : str) :
  match trimStart s with
  | [] => True
  | c :: _ => isSpace c = false
  end.
Proof.
  induction s as [|c s IH]; simpl; [exact I|].
  destruct (isSpace c) eqn:Hc; [exact IH|exact Hc].
Qed.

Lemma trimStart_fixed (s : str) :
  match s with [] => True | c :: _ => isSpace c = false end ->
  trimStart s = s.
Proof. destruct s as [|c s]; simpl; [reflexivity|]. now intros ->. Qed.

Lemma trimStart_idem (s : str) : trimStart (trimStart s) = trimStart s.
Proof. apply trimStart_fixed, trimStart_head. Qed.

Lemma trimStart_suffix (s : str) : exists pre, s = pre ++ trimStart s.
Proof.
  induction s as [|c s [pre IH]]; simpl; [now exists []|].
  destruct (isSpace c).
  - exists (c :: pre). simpl. now f_equal.
  - now exists [].
Qed.

Lemma trimEnd_idem (s : str) : trimEnd (trimEnd s) = trimEnd s.
Proof. unfold trimEnd. now rewrite rev_involutive, trimStart_idem. Qed.

Lemma trimEnd_prefix (s : str) : exists post, s = trimEnd s ++ post.
Proof.
  unfold trimEnd. destruct (trimStart_suffix (rev s)) as [pre H].
  exists (rev pre). rewrite <- rev_app_distr, <- H. now rewrite rev_involutive.
Qed.

(** Trimming the end keeps a first character that is not white space. *)
Lemma trimEnd_keeps_head (c : ascii) (s : str) :
  isSpace c = false -> exists t, trimEnd (c :: s) = c :: t.
Proof.
  intros Hc. unfold trimEnd. simpl.
  assert (H : forall r, exists t, rev (trimStart (r ++ [c])) = c :: t).
  { induction r as [|d r IH]; simpl.
    - rewrite Hc. now exists [].
    - destruct (isSpace d); [exact IH|].
      exists (rev r ++ [d]). simpl. rewrite rev_app_distr. reflexivity. }
  apply H.
Qed.

Lemma trim_idem (s : str) : trim (trim s) = trim s.
Proof.
  unfold trim.
  pose proof (trimStart_head s) as Hh.
  destruct (trimStart s) as [|c t] eqn:Hs; [reflexivity|].
  destruct (trimEnd_keeps_head c t Hh) as [t' Ht].
  rewrite Ht. rewrite trimStart_fixed by exact Hh.
  rewrite <- Ht. apply trimEnd_idem.
Qed.

End StringFacts.

(** ** The section extractor *)

Section SectionFacts.

Lemma fence_not_heading (line : str) :
  startsWith line fence = true -> startsWith line "## " = false.
Proof.
  intros H. apply startsWith_inv in H. rewrite H. reflexivity.
Qed.

Lemma insideFence_cons_fence (line : str) (more : list str) (k : nat) :
  startsWith line fence = true ->
  insideFence (line :: more) (S k) = negb (insideFence more k).
Proof.
  intros H. unfold insideFence, fencesBefore. simpl.
  rewrite filter_cons_True by exact H. simpl length.
  rewrite Nat.odd_succ, <- Nat.negb_odd. reflexivity.
Qed.

Lemma insideFence_cons_plain (line : str) (more : list str) (k : nat) :
  startsWith line fence = false ->
  insideFence (line :: more) (S k) = insideFence more k.
Proof.
  intros H. unfold insideFence, fencesBefore. simpl.
  rewrite filter_cons_False; [reflexivity|]. rewrite H. discriminate.
Qed.

Lemma lineOffset_cons (line : str) (more : list str) (k : nat) :
  lineOffset (line :: more) (S k) = (length line + 1) + lineOffset more k.
Proof. reflexivity. Qed.

(** The end boundary that [parseSection] finds is a line that starts with
    ['## '], is not nested inside a fenced block as counted from the start
    of the scan, and is the first such line. *)
Lemma findSectionEnd_Some (lines : list str) (b : bool) (pos e : nat) :
  findSectionEnd lines b pos = Some e ->
  exists k line,
    lines !! k = Some line
    /\ startsWith line "## " = true
    /\ xorb b (insideFence lines k) = false
    /\ e = pos + lineOffset lines k
    /\ forall j l, j < k -> lines !! j = Some l ->
         startsWith l "## " = true -> xorb b (insideFence lines j) = true.
Proof.
  revert b pos. induction lines as [|line more IH]; intros b pos H.
  - discriminate.
  - cbn [findSectionEnd] in H. revert H.
    destruct (startsWith line fence) eqn:Hf; intros H.
    + apply IH in H as (k & l & Hk & Hh & Hx & He & Hmin).
      exists (S k), l. repeat split; try assumption.
      * rewrite insideFence_cons_fence by exact Hf.
        destruct b, (insideFence more k); simpl in *; congruence.
      * rewrite lineOffset_cons. lia.
      * intros j l' Hj Hl' Hh'. destruct j as [|j].
        -- simpl in Hl'. injection Hl' as <-.
           rewrite (fence_not_heading _ Hf) in Hh'. discriminate.
        -- rewrite insideFence_cons_fence by exact Hf.
           specialize (Hmin j l' ltac:(lia) Hl' Hh').
           destruct b, (insideFence more j); simpl in *; congruence.
    + revert H. destruct (negb b && startsWith line "## ") eqn:Hb; intros H.
      * injection H as <-. apply andb_true_iff in Hb as [Hb Hh].
        exists 0, line. repeat split; try assumption.
        -- destruct b; [discriminate|reflexivity].
        -- unfold lineOffset. simpl. lia.
        -- intros j l Hj. lia.
      * apply IH in H as (k & l & Hk & Hh & Hx & He & Hmin).
        exists (S k), l. repeat split; try assumption.
        -- now rewrite insideFence_cons_plain.
        -- rewrite lineOffset_cons. lia.
        -- intros j l' Hj Hl' Hh'. destruct j as [|j].
           ++ simpl in Hl'. injection Hl' as <-. rewrite Hh' in Hb.
              destruct b; [reflexivity|discriminate].
           ++ rewrite insideFence_cons_plain by exact Hf.
              apply (Hmin j l'); [lia|assumption|assumption].
Qed.

(** Inside the section, a ['## '] line nested in a fenced block is never the
    end boundary. *)
Corollary fenced_heading_not_end (rest : str) (e : nat) :
  findSectionEnd (splitChar LF rest) false 0 = Some e ->
  exists k line,
    splitChar LF rest !! k = Some line
    /\ e = lineOffset (splitChar LF rest) k
    /\ startsWith line "## " = true
    /\ insideFence (splitChar LF rest) k = false.
Proof.
  intros H. apply findSectionEnd_Some in H as (k & l & Hk & Hh & Hx & He & _).
  exists k, l. simpl in Hx. auto.
Qed.

Lemma parseSection_unfold (body : str) (heading : list re) :
  parseSection body heading =
  match exec flagsIM (headingRegex heading) body with
  | None => None
  | Some m =>
      let section := trim (sectionText (drop (m_end m) body)) in
      if truthy section then Some section else None
  end.
Proof. reflexivity. Qed.

Lemma parseSection_nonempty (body : str) (heading : list re) (s : str) :
  parseSection body heading = Some s -> s <> [] /\ trim s = s.
Proof.
  rewrite parseSection_unfold.
  destruct (exec flagsIM (headingRegex heading) body) as [m|]; [|discriminate].
  cbv zeta.
  destruct (trim (sectionText (drop (m_end m) body))) as [|c t] eqn:Ht;
    simpl; [discriminate|].
  intros [= <-]. split; [discriminate|].
  rewrite <- Ht. apply trim_idem.
Qed.

End SectionFacts.

(** C9, as stated, fails: the extractor answers [null] for a section that is
    present but empty, exactly as for a section that is absent. *)
Lemma C9_present_but_empty_is_null :
  sectionPresent emptyMountsBody H_MOUNTS = true
  /\ parseSection emptyMountsBody H_MOUNTS = None
  /\ sectionPresent emptyMountsBody H_APPEND = false
  /\ parseSection emptyMountsBody H_APPEND = None.
Proof. vm_compute. repeat split; reflexivity. Qed.

(** C9, amended: the extractor returns [null] exactly when the heading is
    not found or the text of the section is empty after trimming; a result
    that is not [null] is a trimmed text that is not empty. *)
Theorem C9_null_iff_absent_or_blank (body : str) (heading : list re) :
  (parseSection body heading = None <->
     sectionPresent body heading = false
     \/ exists m, exec flagsIM (headingRegex heading) body = Some m
          /\ trim (sectionText (drop (m_end m) body)) = [])
  /\ (forall s, parseSection body heading = Some s -> s <> [] /\ trim s = s).
Proof.
  split; [|intros s; apply parseSection_nonempty].
  rewrite parseSection_unfold. unfold sectionPresent.
  destruct (exec flagsIM (headingRegex heading) body) as [m|]; simpl.
  - destruct (trim (sectionText (drop (m_end m) body))) as [|c t] eqn:Ht;
      simpl.
    + split; [|reflexivity]. intros _. right. exists m. now rewrite Ht.
    + split; [discriminate|]. intros [H|(m' & [= <-] & H)]; congruence.
  - split; [now left|reflexivity].
Qed.

(** C7 at the failing input: the ['## Mounts'] line is nested inside the
    fenced block of the instruction document, and the extractor takes it as
    the start of the mounts section. *)
Lemma C7_fenced_heading_starts_section :
  splitChar LF fencedHeadingBody !! 3 = Some ("## Mounts" : str)
  /\ insideFence (splitChar LF fencedHeadingBody) 3 = true
  /\ parseSection fencedHeadingBody H_MOUNTS
     = Some ("- host: /etc" ++ [LF] ++ "```")
  /\ declaredMounts fencedHeadingBody
     = [ {| hostPath := "/etc"; containerPath := "etc"; readonly := false |} ].
Proof. vm_compute. repeat split; reflexivity. Qed.

(** ** Paths *)

Section PathFacts.

Lemma includes_char (c : ascii) (s : str) :
  includes s [c] = true <-> c ∈ s.
Proof.
  induction s as [|d s IH].
  - split; [discriminate|]. intros H. inversion H.
  - rewrite includes_cons, orb_true_iff, IH, elem_of_cons.
    cbn [startsWith]. rewrite startsWith_nil, andb_true_r, ascii_eqb_true.
    reflexivity.
Qed.

Lemma plainSegment_inv (seg : str) :
  plainSegment seg = true ->
  seg <> [] /\ seg <> "." /\ seg <> ".." /\ "/"%char ∉ seg.
Proof.
  unfold plainSegment. rewrite !andb_true_iff, !negb_true_iff.
  rewrite !bool_decide_eq_false.
  intros [[[Ht Hd] Hdd] Hs]. repeat split; try assumption.
  - destruct seg; [discriminate|discriminate].
  - intros Hin. apply (includes_char "/") in Hin.
    change (includes seg "/" = true) in Hin. congruence.
Qed.

Lemma plainSegment_plainName (seg : str) :
  plainSegment seg = true -> plainName seg.
Proof. intros H. apply plainSegment_inv in H. split; apply H. Qed.

Lemma normStep_plain (allow : bool) (stack : list str) (seg : str) :
  plainSegment seg = true -> normStep allow stack seg = seg :: stack.
Proof.
  intros H. apply plainSegment_inv in H as (H1 & H2 & H3 & _).
  unfold normStep.
  rewrite !bool_decide_eq_false_2 by assumption. reflexivity.
Qed.

Lemma normFold_plain (allow : bool) (segs stack : list str) :
  Forall (fun s => plainSegment s = true) segs ->
  fold_left (normStep allow) segs stack = rev segs ++ stack.
Proof.
  revert stack. induction segs as [|s segs IH]; intros stack H;
    [reflexivity|].
  apply Forall_cons in H as [Hs Hrest]. cbn [fold_left].
  rewrite normStep_plain by exact Hs. rewrite IH by exact Hrest.
  cbn [rev]. now rewrite <- app_assoc.
Qed.

Lemma absText_cons (s : str) (segs : list str) :
  absText (s :: segs) = "/" ++ s ++ absText segs.
Proof. unfold absText. cbn. reflexivity. Qed.

Lemma absText_app (a b : list str) : absText (a ++ b) = absText a ++ absText b.
Proof. unfold absText. now rewrite fmap_app, concat_app. Qed.

Lemma absText_join (s : str) (segs : list str) :
  absText (s :: segs) = "/" ++ join "/" (s :: segs).
Proof.
  revert s. induction segs as [|t segs IH]; intros s.
  - rewrite absText_cons. unfold absText. cbn. now rewrite app_nil_r.
  - rewrite absText_cons, IH. reflexivity.
Qed.

Lemma splitChar_absText (segs : list str) :
  segs <> [] -> Forall (fun s => plainSegment s = true) segs ->
  splitChar "/" (absText segs) = [] :: segs.
Proof.
  induction segs as [|s segs IH]; intros Hne H; [congruence|].
  apply Forall_cons in H as [Hs Hrest].
  apply plainSegment_inv in Hs as (_ & _ & _ & Hslash).
  rewrite absText_cons.
  change ("/" ++ s ++ absText segs) with ("/"%char :: (s ++ absText segs)).
  cbn [splitChar]. rewrite Ascii.eqb_refl. f_equal.
  destruct segs as [|t segs].
  - unfold absText. cbn. rewrite app_nil_r. apply splitChar_no_sep, Hslash.
  - rewrite absText_cons.
    change (s ++ "/" ++ t ++ absText segs)
      with (s ++ "/"%char :: (t ++ absText segs)).
    rewrite splitChar_app_sep by exact Hslash. f_equal.
    specialize (IH ltac:(discriminate) Hrest).
    rewrite absText_cons in IH.
    change ("/" ++ t ++ absText segs)
      with ("/"%char :: (t ++ absText segs)) in IH.
    cbn [splitChar] in IH. rewrite Ascii.eqb_refl in IH.
    now injection IH.
Qed.

Lemma absText_last (segs : list str) :
  segs <> [] -> Forall (fun s => plainSegment s = true) segs ->
  exists q c, absText segs = q ++ [c] /\ c <> "/"%char.
Proof.
  induction segs as [|s segs IH]; intros Hne H; [congruence|].
  apply Forall_cons in H as [Hs Hrest]. rewrite absText_cons.
  destruct segs as [|t segs].
  - apply plainSegment_inv in Hs as (Hs1 & _ & _ & Hslash).
    destruct (exists_last Hs1) as (q & c & ->).
    exists ("/" ++ q), c. unfold absText. cbn. rewrite app_nil_r.
    split; [reflexivity|]. intros ->. apply Hslash.
    apply elem_of_app. right. apply list_elem_of_singleton. reflexivity.
  - destruct (IH ltac:(discriminate) Hrest) as (q & c & Hq & Hc).
    exists ("/" ++ s ++ q), c. rewrite Hq. split; [|exact Hc].
    now rewrite <- !app_assoc.
Qed.

(** [path.normalize] leaves an absolute path of plain segments as it is. *)
Lemma normalize_absText (segs : list str) :
  segs <> [] -> Forall (fun s => plainSegment s = true) segs ->
  normalize (absText segs) = absText segs.
Proof.
  intros Hne H.
  destruct segs as [|s segs]; [congruence|].
  pose proof (splitChar_absText _ Hne H) as Hsplit.
  destruct (absText_last _ Hne H) as (q & c & Hq & Hc).
  assert (Htrail : endsWith (absText (s :: segs)) "/" = false).
  { unfold endsWith. rewrite Hq, rev_app_distr. cbn.
    rewrite startsWith_nil, andb_true_r. apply ascii_eqb_false. congruence. }
  unfold normalize. rewrite Htrail, Hsplit.
  rewrite absText_cons at 1.
  change ("/" ++ s ++ absText segs) with ("/"%char :: (s ++ absText segs)).
  cbv beta iota zeta. rewrite Ascii.eqb_refl.
  change (fold_left (normStep (negb true)) ([] :: s :: segs) [])
    with (fold_left (normStep (negb true)) (s :: segs) []).
  rewrite normFold_plain by exact H.
  rewrite app_nil_r, rev_involutive.
  replace ("/"%char :: s ++ absText segs) with (absText (s :: segs))
    by apply absText_cons.
  rewrite absText_join.
  apply Forall_cons in H as [Hs _].
  apply plainSegment_inv in Hs as (Hs1 & _).
  destruct (join "/" (s :: segs)) as [|d body] eqn:Hj.
  - exfalso. destruct s as [|d s]; [congruence|].
    destruct segs; cbn in Hj; discriminate.
  - now rewrite app_nil_r.
Qed.

Lemma filter_truthy_all (l : list str) :
  Forall (fun s => s <> []) l -> filter (fun x => truthy x) l = l.
Proof.
  induction l as [|x l IH]; intros H; [reflexivity|].
  apply Forall_cons in H as [Hx Hl].
  rewrite filter_cons_True; [now rewrite IH|].
  destruct x; [congruence|exact I].
Qed.

Lemma join_cons2 (sep x y : str) (rest : list str) :
  join sep (x :: y :: rest) = x ++ sep ++ join sep (y :: rest).
Proof. reflexivity. Qed.

Lemma join_absText (acc : str) (more : list str) :
  join "/" (acc :: more) = acc ++ absText more.
Proof.
  revert acc. induction more as [|m ms IH]; intros acc.
  - cbn. now rewrite app_nil_r.
  - rewrite join_cons2, IH, absText_cons. reflexivity.
Qed.

Lemma absText_nonempty (segs : list str) : segs <> [] -> absText segs <> [].
Proof. destruct segs; [congruence|]. rewrite absText_cons. discriminate. Qed.

(** Joining plain segments onto an absolute path appends them. *)
Lemma pjoin_absolute (base : list str) (more : list str) :
  base <> [] -> Forall (fun s => plainSegment s = true) base ->
  Forall (fun s => plainSegment s = true) more ->
  pjoin (absText base :: more) = absText (base ++ more).
Proof.
  intros Hne Hb Hm. unfold pjoin.
  rewrite filter_truthy_all.
  - rewrite join_absText, <- absText_app.
    apply normalize_absText.
    + destruct base; [congruence|discriminate].
    + apply Forall_app. now split.
  - apply Forall_cons. split; [now apply absText_nonempty|].
    eapply Forall_impl; [exact Hm|].
    intros s Hs. now apply plainSegment_inv in Hs.
Qed.

(** With an absolute [GROUPS_DIR], the directories of the watcher are what
    their names say. *)
Lemma SHARED_DIR_absolute (E : Externals) :
  absolutePath (GROUPS_DIR E) ->
  SHARED_DIR E = GROUPS_DIR E ++ "/main/shared"
  /\ absolutePath (SHARED_DIR E).
Proof.
  intros (segs & Hne & Hplain & Hg).
  assert (H : SHARED_DIR E = absText (segs ++ ["main"; "shared"])).
  { unfold SHARED_DIR. rewrite Hg. apply pjoin_absolute; try assumption.
    repeat constructor. }
  split.
  - rewrite H, absText_app, Hg. reflexivity.
  - exists (segs ++ ["main"; "shared"]). repeat split.
    + destruct segs; discriminate.
    + apply Forall_app. split; [assumption|repeat constructor].
    + exact H.
Qed.

Lemma pjoin_onto (p : str) (more : list str) :
  absolutePath p -> Forall (fun s => plainSegment s = true) more ->
  pjoin (p :: more) = p ++ absText more.
Proof.
  intros (segs & Hne & Hplain & ->) Hm.
  change (concat _) with (absText segs).
  rewrite pjoin_absolute by assumption. apply absText_app.
Qed.

Lemma partitionRoot_absolute (E : Externals) (subdir : str) :
  absolutePath (GROUPS_DIR E) -> plainSegment subdir = true ->
  partitionRoot E subdir = SHARED_DIR E ++ "/" ++ subdir.
Proof.
  intros Hg Hs. unfold partitionRoot.
  rewrite pjoin_onto.
  - unfold absText. cbn. now rewrite app_nil_r.
  - now apply SHARED_DIR_absolute.
  - now constructor.
Qed.

Lemma PARTITIONS_plain (subdir : str) :
  subdir ∈ PARTITIONS -> plainSegment subdir = true.
Proof.
  unfold PARTITIONS. rewrite !elem_of_cons.
  intros [->|[->|[->|H]]]; try reflexivity. inversion H.
Qed.

End PathFacts.

(** ** Frame rules: which component of the world a computation can touch *)

Section Frames.

Context {X : Type} (proj : World -> X).

Lemma preserves_ret {A} (a : A) : preserves proj (ret a).
Proof. intros w. reflexivity. Qed.

Lemma preserves_throw {A} (msg : str) : preserves proj (@throw A msg).
Proof. intros w. reflexivity. Qed.

Lemma preserves_get {A} (f : World -> A) : preserves proj (get f).
Proof. intros w. reflexivity. Qed.

Lemma preserves_bind {A B} (m : M A) (k : A -> M B) :
  preserves proj m -> (forall a, preserves proj (k a)) ->
  preserves proj (bind m k).
Proof.
  intros Hm Hk w. unfold bind. specialize (Hm w).
  destruct (m w) as [[a|msg] w1]; simpl in *.
  - now rewrite Hk.
  - exact Hm.
Qed.

Lemma preserves_tryCatch (m : M unit) (h : str -> M unit) :
  preserves proj m -> (forall msg, preserves proj (h msg)) ->
  preserves proj (tryCatch m h).
Proof.
  intros Hm Hh w. unfold tryCatch. specialize (Hm w).
  destruct (m w) as [[a|msg] w1]; simpl in *.
  - exact Hm.
  - now rewrite Hh.
Qed.

Lemma preserves_when (b : bool) (m : M unit) :
  preserves proj m -> preserves proj (when b m).
Proof. destruct b; [easy|]. intros _. apply preserves_ret. Qed.

Lemma preserves_forEach {A} (xs : list A) (body : A -> M unit) :
  (forall x, preserves proj (body x)) -> preserves proj (forEach xs body).
Proof.
  intros Hb. induction xs as [|x xs IH]; cbn [forEach].
  - apply preserves_ret.
  - apply preserves_bind; [apply Hb|intros _; exact IH].
Qed.

End Frames.

(** The primitives, by the component they act on. *)

Ltac prim_frame :=
  let w := fresh "w" in
  intros w;
  repeat match goal with
         | |- context [match ?x with _ => _ end] => destruct x
         end;
  reflexivity.

Section PrimitiveFrames.

Context {X : Type} (proj : World -> X).

Lemma preserves_log (msg : str) :
  ignoresLogs proj -> preserves proj (log msg).
Proof. intros H w. apply H. Qed.

Lemma preserves_setRegisteredGroup (jid : str) (g : RegisteredGroup) :
  ignoresRegistry proj -> preserves proj (setRegisteredGroup jid g).
Proof. intros H w. apply H. Qed.

Lemma preserves_deleteRegisteredGroup (jid : str) :
  ignoresRegistry proj -> preserves proj (deleteRegisteredGroup jid).
Proof. intros H w. apply H. Qed.

Lemma preserves_createTask (t : ScheduledTask) :
  ignoresTasks proj -> preserves proj (createTask t).
Proof.
  intros H w. unfold createTask. destruct (tasks w !! id t); [reflexivity|].
  apply H.
Qed.

Lemma preserves_updateTask (a b c d e : str) :
  ignoresTasks proj -> preserves proj (updateTask a b c d e).
Proof. intros H w. apply H. Qed.

Lemma preserves_deleteTask (taskId : str) :
  ignoresTasks proj -> preserves proj (deleteTask taskId).
Proof. intros H w. apply H. Qed.

Lemma preserves_mkdirSync (p : str) :
  ignoresFs proj -> preserves proj (mkdirSync p).
Proof.
  intros H w. unfold mkdirSync.
  destruct (mkdirAll (fs w) (ancestorsAndSelf p)); [apply H|reflexivity].
Qed.

Lemma preserves_readFileSync (p : str) : preserves proj (readFileSync p).
Proof. unfold readFileSync. prim_frame. Qed.

Lemma preserves_writeFileSync (p c : str) :
  ignoresFs proj -> preserves proj (writeFileSync p c).
Proof.
  intros H w. unfold writeFileSync.
  destruct (isDir (fs w) p); [reflexivity|].
  destruct (isDir (fs w) (dirname p)); [apply H|reflexivity].
Qed.

Lemma preserves_rmSync (p : str) :
  ignoresFs proj -> preserves proj (rmSync p).
Proof.
  intros H w. unfold rmSync. destruct (fs w !! p); [apply H|reflexivity].
Qed.

Lemma preserves_readdirSync (p : str) : preserves proj (readdirSync p).
Proof. unfold readdirSync. prim_frame. Qed.

Lemma preserves_renameSync (a b : str) :
  ignoresFs proj -> preserves proj (renameSync a b).
Proof.
  intros H w. unfold renameSync.
  destruct (fs w !! a) as [[c|]|]; [| |reflexivity].
  - destruct (isDir (fs w) b); [reflexivity|].
    destruct (isDir (fs w) (dirname b)); [apply H|reflexivity].
  - destruct (isSome (fs w !! b) || within a b); [reflexivity|].
    destruct (isDir (fs w) (dirname b)); [apply H|reflexivity].
Qed.

End PrimitiveFrames.

Lemma registry_ignoresFs : ignoresFs registry.
Proof. easy. Qed.
Lemma registry_ignoresTasks : ignoresTasks registry.
Proof. easy. Qed.
Lemma registry_ignoresLogs : ignoresLogs registry.
Proof. easy. Qed.
Lemma tasks_ignoresFs : ignoresFs tasks.
Proof. easy. Qed.
Lemma tasks_ignoresRegistry : ignoresRegistry tasks.
Proof. easy. Qed.
Lemma tasks_ignoresLogs : ignoresLogs tasks.
Proof. easy. Qed.
Lemma fs_ignoresRegistry : ignoresRegistry fs.
Proof. easy. Qed.
Lemma fs_ignoresTasks : ignoresTasks fs.
Proof. easy. Qed.
Lemma fs_ignoresLogs : ignoresLogs fs.
Proof. easy. Qed.

Create HintDb frame discriminated.

#[global] Hint Resolve
  registry_ignoresFs registry_ignoresTasks registry_ignoresLogs
  tasks_ignoresFs tasks_ignoresRegistry tasks_ignoresLogs
  fs_ignoresRegistry fs_ignoresTasks fs_ignoresLogs
  preserves_ret preserves_throw preserves_get preserves_log
  preserves_setRegisteredGroup preserves_deleteRegisteredGroup
  preserves_createTask preserves_updateTask preserves_deleteTask
  preserves_mkdirSync preserves_readFileSync preserves_writeFileSync
  preserves_rmSync preserves_readdirSync preserves_renameSync : frame.

(** Walks a computation down to its primitives. *)
Ltac frame :=
  repeat first
    [ apply preserves_bind
    | apply preserves_forEach
    | apply preserves_tryCatch
    | apply preserves_when
    | match goal with
      | |- forall _, _ => intro
      | |- preserves _ (match ?x with _ => _ end) => destruct x
      | |- preserves _ (let '(_, _) := ?x in _) => destruct x
      end ];
  auto with frame.

Section HandlerFrames.

Variable E : Externals.

Lemma computeNextCronRun_frame {X} (proj : World -> X) (cron : str) :
  preserves proj (computeNextCronRun E cron).
Proof. unfold computeNextCronRun. frame. Qed.

Lemma nowIso_frame {X} (proj : World -> X) : preserves proj (nowIso E).
Proof. unfold nowIso. frame. Qed.

Lemma existsSync_frame {X} (proj : World -> X) (p : str) :
  preserves proj (existsSync p).
Proof. unfold existsSync. frame. Qed.

Lemma getRegisteredGroup_frame {X} (proj : World -> X) (jid : str) :
  preserves proj (getRegisteredGroup jid).
Proof. unfold getRegisteredGroup. frame. Qed.

Lemma getTasksForGroup_frame {X} (proj : World -> X) (f : str) :
  preserves proj (getTasksForGroup f).
Proof. unfold getTasksForGroup. frame. Qed.

Lemma findOrchestratorJid_frame {X} (proj : World -> X) :
  preserves proj findOrchestratorJid.
Proof. unfold findOrchestratorJid, getAllRegisteredGroups. frame. Qed.

Lemma resolveAgent_frame {X} (proj : World -> X) (agentName : str) :
  preserves proj (resolveAgent agentName).
Proof. unfold resolveAgent, getRegisteredGroup. frame. Qed.

Lemma loadSettings_frame {X} (proj : World -> X) (p : str) :
  preserves proj (loadSettings E p).
Proof. unfold loadSettings, existsSync. frame. Qed.

End HandlerFrames.

#[global] Hint Resolve computeNextCronRun_frame nowIso_frame existsSync_frame
  getRegisteredGroup_frame getTasksForGroup_frame findOrchestratorJid_frame
  resolveAgent_frame loadSettings_frame : frame.

Section RegistryFrames.

Variable E : Externals.

(** The steps that never write the registry. *)

Lemma createTasks_registry (a f j b : str) :
  preserves registry (createTasks E a f j b).
Proof. unfold createTasks, createTaskEntry. frame. Qed.

Lemma modifyClaudeMd_registry (f b : str) :
  preserves registry (modifyClaudeMd E f b).
Proof. unfold modifyClaudeMd. frame. Qed.

Lemma modifyAppend_registry (f b : str) :
  preserves registry (modifyAppend E f b).
Proof. unfold modifyAppend. frame. Qed.

Lemma modifyModel_registry (f : str) (model : option str) :
  preserves registry (modifyModel E f model).
Proof. unfold modifyModel, saveSettings. frame. Qed.

Lemma modifyEnv_registry (f b : str) : preserves registry (modifyEnv E f b).
Proof. unfold modifyEnv, saveSettings. frame. Qed.

Lemma modifyTasks_registry (a f j b : str) :
  preserves registry (modifyTasks E a f j b).
Proof. unfold modifyTasks, upsertTaskEntry. frame. Qed.

Lemma renameSpec_registry (p : str) (sfx : suffix) (note : option str) :
  preserves registry (renameSpec p sfx note).
Proof. unfold renameSpec. frame. Qed.

Lemma renameSpec_tasks (p : str) (sfx : suffix) (note : option str) :
  preserves tasks (renameSpec p sfx note).
Proof. unfold renameSpec. frame. Qed.

End RegistryFrames.

#[global] Hint Resolve createTasks_registry modifyClaudeMd_registry
  modifyAppend_registry modifyModel_registry modifyEnv_registry
  modifyTasks_registry renameSpec_registry renameSpec_tasks : frame.

(** ** Mount isolation *)

Section Isolation.

Variable E : Externals.

Lemma inPartition_shape (subdir B hp : str) :
  inPartition E subdir B hp = true ->
  exists r, hp = (partitionRoot E subdir ++ "/") ++ B ++ r
            /\ (r = [] \/ exists r', r = "/"%char :: r').
Proof.
  unfold inPartition. rewrite orb_true_iff, bool_decide_eq_true.
  intros [->|H].
  - exists []. rewrite app_nil_r, <- app_assoc. auto.
  - apply startsWith_inv in H. eexists (("/"%char) :: _).
    split; [|right; eauto]. rewrite H at 1.
    rewrite <- !app_assoc. reflexivity.
Qed.

Lemma splitChar_head (B r : str) :
  "/"%char ∉ B -> (r = [] \/ exists r', r = "/"%char :: r') ->
  exists more, splitChar "/" (B ++ r) = B :: more.
Proof.
  intros HB [->|[r' ->]].
  - rewrite app_nil_r, splitChar_no_sep by exact HB. eauto.
  - rewrite splitChar_app_sep by exact HB. eauto.
Qed.

(** A host path inside another agent's partition is reported, and the
    message names that agent. *)
Lemma crossing_in_partition (A B subdir hp : str) :
  plainName B -> B <> A -> inPartition E subdir B hp = true ->
  crossing E A hp subdir = Some (violationMessage hp B subdir).
Proof.
  intros [HB1 HB2] Hne Hin.
  apply inPartition_shape in Hin as (r & Hhp & Hr).
  destruct (splitChar_head B r HB2 Hr) as [more Hsplit].
  unfold crossing. cbv zeta.
  rewrite Hhp at 1. rewrite startsWith_app.
  replace (drop (length (partitionRoot E subdir) + 1) hp) with (B ++ r).
  2:{ rewrite Hhp. symmetry.
      replace (length (partitionRoot E subdir) + 1)
        with (length (partitionRoot E subdir ++ "/"))
        by (rewrite length_app; reflexivity).
      apply drop_app_length. }
  rewrite Hsplit.
  destruct B as [|b B]; [congruence|]. cbn [truthy andb].
  rewrite bool_decide_eq_false_2 by exact Hne. reflexivity.
Qed.

Lemma crossing_None_sound (A B subdir hp : str) :
  plainName B -> B <> A -> crossing E A hp subdir = None ->
  inPartition E subdir B hp = false.
Proof.
  intros HB Hne Hnone.
  destruct (inPartition E subdir B hp) eqn:Hin; [|reflexivity].
  rewrite (crossing_in_partition A B subdir hp HB Hne Hin) in Hnone.
  discriminate.
Qed.

Lemma checkMount_None (A hp : str) (subdirs : list str) :
  checkMount E A hp subdirs = None ->
  forall subdir, subdir ∈ subdirs -> crossing E A hp subdir = None.
Proof.
  induction subdirs as [|s subdirs IH]; intros H subdir Hin.
  - inversion Hin.
  - cbn [checkMount] in H.
    destruct (crossing E A hp s) eqn:Hs; [discriminate|].
    apply elem_of_cons in Hin as [->|Hin]; [exact Hs|now apply IH].
Qed.

Lemma validate_None (A : str) (mounts : list Mount) :
  validateMountsIsolation E A mounts = None ->
  forall m, m ∈ mounts -> checkMount E A (hostPath m) PARTITIONS = None.
Proof.
  induction mounts as [|m0 mounts IH]; intros H m Hin.
  - inversion Hin.
  - cbn [validateMountsIsolation] in H.
    destruct (checkMount E A (hostPath m0) PARTITIONS) eqn:Hm0;
      [discriminate|].
    apply elem_of_cons in Hin as [->|Hin]; [exact Hm0|now apply IH].
Qed.

(** Soundness: what the validator accepts reaches into no other agent's
    partition. *)
Lemma validate_sound (A B subdir : str) (mounts : list Mount) :
  plainName B -> B <> A -> subdir ∈ PARTITIONS ->
  validateMountsIsolation E A mounts = None ->
  forall m, m ∈ mounts -> inPartition E subdir B (hostPath m) = false.
Proof.
  intros HB Hne Hsub Hnone m Hin.
  apply (crossing_None_sound A B subdir _ HB Hne).
  eapply checkMount_None; [|exact Hsub].
  now apply (validate_None A mounts).
Qed.

(** Completeness: one offending mount anywhere in the list is enough for a
    violation. *)
Lemma validate_rejects (A B subdir : str) (mounts : list Mount) (m : Mount) :
  plainName B -> B <> A -> subdir ∈ PARTITIONS ->
  m ∈ mounts -> inPartition E subdir B (hostPath m) = true ->
  exists msg, validateMountsIsolation E A mounts = Some msg.
Proof.
  intros HB Hne Hsub Hin Hpart.
  destruct (validateMountsIsolation E A mounts) as [msg|] eqn:Hv; [eauto|].
  rewrite (validate_sound A B subdir mounts HB Hne Hsub Hv m Hin) in Hpart.
  discriminate.
Qed.

(** With an absolute [GROUPS_DIR] the three partition roots are disjoint,
    so the inner loop reports the partition the path is in. *)
Lemma checkMount_names (A B subdir hp : str) :
  absolutePath (GROUPS_DIR E) ->
  plainName B -> B <> A -> subdir ∈ PARTITIONS ->
  inPartition E subdir B hp = true ->
  checkMount E A hp PARTITIONS = Some (violationMessage hp B subdir).
Proof.
  intros Habs HB Hne Hsub Hin.
  pose proof (crossing_in_partition A B subdir hp HB Hne Hin) as Hcross.
  assert (Hother : forall s', s' ∈ PARTITIONS -> s' <> subdir ->
                     crossing E A hp s' = None).
  { intros s' Hs' Hdiff.
    apply inPartition_shape in Hin as (r & Hhp & _).
    unfold crossing. cbv zeta.
    rewrite Hhp at 1.
    rewrite !partitionRoot_absolute
      by (try exact Habs; now apply PARTITIONS_plain).
    rewrite <- !app_assoc, startsWith_cancel.
    enough (Hf : startsWith ("/" ++ subdir ++ "/" ++ B ++ r)
                            ("/" ++ s' ++ "/") = false) by now rewrite Hf.
    unfold PARTITIONS in Hsub, Hs'. rewrite !elem_of_cons in Hsub, Hs'.
    destruct Hsub as [->|[->|[->|Hsub]]]; [| | |inversion Hsub];
      destruct Hs' as [->|[->|[->|Hs']]];
      try congruence; try reflexivity; inversion Hs'. }
  unfold PARTITIONS in *. cbn [checkMount].
  rewrite !elem_of_cons in Hsub.
  destruct Hsub as [->|[->|[->|Hsub]]]; [| | |inversion Hsub].
  - now rewrite Hcross.
  - rewrite (Hother "tasks") by (try discriminate; rewrite !elem_of_cons; auto).
    now rewrite Hcross.
  - rewrite (Hother "tasks") by (try discriminate; rewrite !elem_of_cons; auto).
    rewrite (Hother "results")
      by (try discriminate; rewrite !elem_of_cons; auto).
    now rewrite Hcross.
Qed.

Lemma validate_app_None (A : str) (pre post : list Mount) :
  validateMountsIsolation E A pre = None ->
  validateMountsIsolation E A (pre ++ post)
  = validateMountsIsolation E A post.
Proof.
  induction pre as [|m pre IH]; intros H; [reflexivity|].
  cbn [validateMountsIsolation app] in *.
  destruct (checkMount E A (hostPath m) PARTITIONS); [discriminate|].
  now apply IH.
Qed.

(** The violation message names the agent whose partition the first
    offending mount is in. *)
Lemma validate_names (A B subdir : str) (pre post : list Mount) (m : Mount) :
  absolutePath (GROUPS_DIR E) ->
  plainName B -> B <> A -> subdir ∈ PARTITIONS ->
  validateMountsIsolation E A pre = None ->
  inPartition E subdir B (hostPath m) = true ->
  validateMountsIsolation E A (pre ++ m :: post)
  = Some (violationMessage (hostPath m) B subdir).
Proof.
  intros Habs HB Hne Hsub Hpre Hin.
  rewrite validate_app_None by exact Hpre.
  cbn [validateMountsIsolation].
  now rewrite (checkMount_names A B subdir _ Habs HB Hne Hsub Hin).
Qed.

End Isolation.

Section HandlerIsolation.

Variable E : Externals.

Lemma bind_run {A B : Type} (m : M A) (k : A -> M B) (w : World) :
  bind m k w = match m w with
               | (Ok a, w1) => k a w1
               | (Throw msg, w1) => (Throw msg, w1)
               end.
Proof. reflexivity. Qed.

(** Reasoning on the registry across a step that does not write it. *)
Lemma registry_bind_cases {A B : Type} (Q : gmap str RegisteredGroup -> Prop)
    (m : M A) (k : A -> M B) (w : World) :
  preserves registry m -> Q (registry w) ->
  (forall a w1, registry w1 = registry w -> Q (registry (snd (k a w1)))) ->
  Q (registry (snd (bind m k w))).
Proof.
  intros Hm Hq Hk. rewrite bind_run. specialize (Hm w).
  destruct (m w) as [[a|msg] w1]; simpl in *.
  - now apply Hk.
  - now rewrite Hm.
Qed.

Lemma provisionAgent_registry (A f j body : str) (model : option str)
    (content : str) (mounts : list Mount) (w : World) :
  let w' := snd (provisionAgent E A f j body model content mounts w) in
  registry w' = registry w
  \/ exists addedAt,
       registry w' = <[j := newGroup A f addedAt mounts]> (registry w).
Proof.
  cbv zeta. unfold provisionAgent.
  set (Q := fun r : gmap str RegisteredGroup =>
              r = registry w
              \/ exists addedAt,
                   r = <[j := newGroup A f addedAt mounts]> (registry w)).
  change (Q (registry (snd
    ((forEach (partitionDirs A) (fun sub => mkdirSync (pjoin [SHARED_DIR E; sub])) ;;
      mkdirSync (pjoin [pjoin [GROUPS_DIR E; f]; "logs"]) ;;
      writeFileSync (pjoin [pjoin [GROUPS_DIR E; f]; "CLAUDE.md"]) content ;;
      addedAt <- nowIso E ;;
      setRegisteredGroup j (newGroup A f addedAt mounts) ;;
      mkdirSync (settingsDirOf E f) ;;
      writeFileSync (pjoin [settingsDirOf E f; "settings.json"])
        (jsonStringify E (createEnvVars E body model)) ;;
      createTasks E A f j body ;;
      log ("  Agent " ++ [DQ] ++ A ++ [DQ] ++ " created -> folder: "
           ++ f ++ ", JID: " ++ j)) w)))).
  apply registry_bind_cases; [frame|now left|]. intros _ w1 H1.
  apply registry_bind_cases; [frame|left; congruence|]. intros _ w2 H2.
  apply registry_bind_cases; [frame|left; congruence|]. intros _ w3 H3.
  apply registry_bind_cases; [frame|left; congruence|]. intros addedAt w4 H4.
  right. exists addedAt. rewrite bind_run. cbn [setRegisteredGroup].
  match goal with
  | |- registry (snd (?rest ?w5)) = _ =>
      assert (Hrest : preserves registry rest) by frame;
      rewrite (Hrest w5)
  end.
  cbn. congruence.
Qed.

Lemma existingMountsOf_newGroup (A f addedAt : str) (mounts : list Mount) :
  existingMountsOf (newGroup A f addedAt mounts) = mounts.
Proof. reflexivity. Qed.

Lemma existingMountsOf_withMounts (g : RegisteredGroup) (ms : list Mount) :
  existingMountsOf (withMounts g ms) = ms.
Proof. reflexivity. Qed.

(** Whatever [handleCreate] does, a mount it leaves in the registry was
    there before or reaches into no other agent's partition. *)
Lemma handleCreate_isolated (A body : str) (model : option str) (w : World)
    (jid : str) (m : Mount) :
  m ∈ mountsAt (snd (handleCreate E A body model w)) jid ->
  m ∈ mountsAt w jid \/ isolatedFrom E A m.
Proof.
  unfold handleCreate. cbv zeta.
  destruct (negb (isValidGroupFolder E (A ++ "-specialist"))); [now left|].
  rewrite bind_run. cbn [getRegisteredGroup get].
  destruct (isSome (registry w !! ("agent:" ++ A ++ "-specialist")));
    [now left|].
  destruct (parseSection body H_CLAUDE_MD) as [section|]; [|now left].
  destruct (MAX_CLAUDE_MD_LINES <? lineCount (codeBlockOr section));
    [now left|].
  unfold createAgent. cbv zeta.
  destruct (validateMountsIsolation E A
              (standardMounts E A ++ declaredMounts body)) as [err|] eqn:Hv;
    [now left|].
  unfold mountsAt.
  destruct (provisionAgent_registry A (A ++ "-specialist")
              ("agent:" ++ A ++ "-specialist") body model
              (codeBlockOr section)
              (standardMounts E A ++ declaredMounts body) w)
    as [Hr|[addedAt Hr]]; rewrite Hr.
  - now left.
  - destruct (decide (jid = "agent:" ++ A ++ "-specialist")) as [->|Hne].
    + rewrite lookup_insert_eq, existingMountsOf_newGroup. intros Hin.
      right. intros subdir B Hsub HB HBA.
      now apply (validate_sound E A B subdir _ HB HBA Hsub Hv).
    + rewrite lookup_insert_ne by congruence. now left.
Qed.

(** A declared mount inside another agent's partition makes [handleCreate]
    fail with the world untouched. *)
Lemma handleCreate_rejects (A B subdir body : str) (model : option str)
    (w : World) (m : Mount) :
  plainName B -> B <> A -> subdir ∈ PARTITIONS ->
  m ∈ declaredMounts body -> inPartition E subdir B (hostPath m) = true ->
  exists msg, handleCreate E A body model w = (Throw msg, w).
Proof.
  intros HB Hne Hsub Hin Hpart.
  unfold handleCreate. cbv zeta.
  destruct (negb (isValidGroupFolder E (A ++ "-specialist"))); [eauto|].
  rewrite bind_run. cbn [getRegisteredGroup get].
  destruct (isSome (registry w !! ("agent:" ++ A ++ "-specialist")));
    [eauto|].
  destruct (parseSection body H_CLAUDE_MD) as [section|]; [|eauto].
  destruct (MAX_CLAUDE_MD_LINES <? lineCount (codeBlockOr section));
    [eauto|].
  unfold createAgent. cbv zeta.
  destruct (validate_rejects E A B subdir
              (standardMounts E A ++ declaredMounts body) m HB Hne Hsub)
    as [msg Hmsg]; [apply elem_of_app; now right|exact Hpart|].
  rewrite Hmsg. eauto.
Qed.

(** The target lookup of [handleModify] reads the registry and nothing
    else; a group it returns is the one registered under the identity it
    returns. *)
Lemma modifyTarget_spec (A : str) (w : World) :
  exists f j g, modifyTarget A w = (Ok (f, j, g), w)
                /\ forall g', g = Some g' -> registry w !! j = Some g'.
Proof.
  unfold modifyTarget, resolveAgent. rewrite !bind_run.
  cbn [getRegisteredGroup get].
  destruct (negb (isSome (registry w !! ("agent:" ++ A)))
            && negb (endsWith A "-specialist")).
  - rewrite bind_run. cbn [getRegisteredGroup get ret].
    destruct (isSelfMod A).
    + rewrite bind_run. unfold findOrchestratorJid.
      rewrite bind_run. cbn [getAllRegisteredGroups get ret].
      rewrite bind_run.
      match goal with |- context [truthy ?j] => destruct (truthy j) eqn:Hj end.
      * cbn [getRegisteredGroup get ret]. do 3 eexists. split; [reflexivity|].
        now intros g' ->.
      * cbn [ret]. do 3 eexists. split; [reflexivity|]. discriminate.
    + cbn [ret]. do 3 eexists. split; [reflexivity|]. now intros g' ->.
  - cbn [ret]. destruct (isSelfMod A).
    + rewrite bind_run. unfold findOrchestratorJid.
      rewrite bind_run. cbn [getAllRegisteredGroups get ret].
      rewrite bind_run.
      match goal with |- context [truthy ?j] => destruct (truthy j) eqn:Hj end.
      * cbn [getRegisteredGroup get ret]. do 3 eexists. split; [reflexivity|].
        now intros g' ->.
      * cbn [ret]. do 3 eexists. split; [reflexivity|]. discriminate.
    + do 3 eexists. split; [reflexivity|]. now intros g' ->.
Qed.

Lemma modifyMounts_registry (A f j body : str) (g : RegisteredGroup)
    (w : World) :
  let w' := snd (modifyMounts E A f j body g w) in
  registry w' = registry w
  \/ (validateMountsIsolation E (isolationName A) (declaredMounts body) = None
      /\ registry w'
         = <[j := withMounts g (existingMountsOf g ++ declaredMounts body)]>
             (registry w)).
Proof.
  cbv zeta. unfold modifyMounts, declaredMounts.
  destruct (parseSection body H_MOUNTS) as [section|]; [|now left].
  destruct (validateMountsIsolation E (isolationName A)
              (mountsOfSection section)); [now left|].
  right. split; [reflexivity|]. reflexivity.
Qed.

Lemma handleModify_unfold (A body : str) (model : option str) (w : World) :
  exists f j g,
    (forall g', g = Some g' -> registry w !! j = Some g')
    /\ handleModify E A body model w
       = match g with
         | None => (Throw (notFoundMessage A), w)
         | Some g' => modifySteps E A f j body model g' w
         end.
Proof.
  destruct (modifyTarget_spec A w) as (f & j & g & Ht & Hg).
  exists f, j, g. split; [exact Hg|].
  unfold handleModify. rewrite bind_run, Ht.
  destruct g; reflexivity.
Qed.

Lemma modifySteps_registry (A f j body : str) (model : option str)
    (g : RegisteredGroup) (w : World) :
  let w' := snd (modifySteps E A f j body model g w) in
  registry w' = registry w
  \/ (validateMountsIsolation E (isolationName A) (declaredMounts body) = None
      /\ registry w'
         = <[j := withMounts g (existingMountsOf g ++ declaredMounts body)]>
             (registry w)).
Proof.
  cbv zeta. unfold modifySteps.
  set (Q := fun r : gmap str RegisteredGroup =>
     r = registry w
     \/ (validateMountsIsolation E (isolationName A) (declaredMounts body)
         = None
         /\ r = <[j := withMounts g (existingMountsOf g ++ declaredMounts body)]>
                 (registry w))).
  match goal with |- ?G => change G with (Q (registry (snd
    ((modifyClaudeMd E f body ;;
      modifyAppend E f body ;;
      modifyModel E f model ;;
      modifyEnv E f body ;;
      modifyMounts E A f j body g ;;
      modifyTasks E A f j body ;;
      log ("  Agent " ++ [DQ] ++ A ++ [DQ] ++ " modified")) w)))) end.
  apply registry_bind_cases; [frame|now left|]. intros _ w1 H1.
  apply registry_bind_cases; [frame|left; congruence|]. intros _ w2 H2.
  apply registry_bind_cases; [frame|left; congruence|]. intros _ w3 H3.
  apply registry_bind_cases; [frame|left; congruence|]. intros _ w4 H4.
  rewrite bind_run. subst Q. cbv beta.
  pose proof (modifyMounts_registry A f j body g w4) as Hm. cbv zeta in Hm.
  destruct (modifyMounts E A f j body g w4) as [[[]|msg] w5]; simpl in *.
  - match goal with
    | |- context [snd (?rest w5)] =>
        assert (Hrest : preserves registry rest) by frame;
        rewrite (Hrest w5)
    end.
    destruct Hm as [Hm|[Hv Hm]]; [left; congruence|right].
    split; [exact Hv|]. congruence.
  - destruct Hm as [Hm|[Hv Hm]]; [left; congruence|right].
    split; [exact Hv|]. congruence.
Qed.

(** Whatever [handleModify] does, a mount it leaves in the registry was
    there before or reaches into no other agent's partition. *)
Lemma handleModify_isolated (A body : str) (model : option str) (w : World)
    (jid : str) (m : Mount) :
  m ∈ mountsAt (snd (handleModify E A body model w)) jid ->
  m ∈ mountsAt w jid \/ isolatedFrom E (isolationName A) m.
Proof.
  destruct (handleModify_unfold A body model w) as (f & j & g & Hg & ->).
  destruct g as [g|]; [|now left].
  unfold mountsAt.
  destruct (modifySteps_registry A f j body model g w) as [Hr|[Hv Hr]];
    rewrite Hr; [now left|].
  destruct (decide (jid = j)) as [->|Hne].
  - rewrite lookup_insert_eq, existingMountsOf_withMounts.
    rewrite (Hg g eq_refl). intros Hin.
    apply elem_of_app in Hin as [Hin|Hin]; [now left|right].
    intros subdir B Hsub HB HBA.
    now apply (validate_sound E (isolationName A) B subdir _ HB HBA Hsub Hv).
  - rewrite lookup_insert_ne by congruence. now left.
Qed.

(** A declared mount inside another agent's partition makes [handleModify]
    fail, and the registry is as it was. *)
Lemma handleModify_rejects (A B subdir body : str) (model : option str)
    (w : World) (m : Mount) :
  plainName B -> B <> isolationName A -> subdir ∈ PARTITIONS ->
  m ∈ declaredMounts body -> inPartition E subdir B (hostPath m) = true ->
  exists msg w', handleModify E A body model w = (Throw msg, w')
                 /\ registry w' = registry w.
Proof.
  intros HB Hne Hsub Hin Hpart.
  destruct (validate_rejects E (isolationName A) B subdir (declaredMounts body)
              m HB Hne Hsub Hin Hpart) as [err Herr].
  destruct (handleModify_unfold A body model w) as (f & j & g & Hg & ->).
  destruct g as [g|]; [|eauto].
  assert (Hmounts : forall w4, modifyMounts E A f j body g w4 = (Throw err, w4)).
  { intros w4. unfold modifyMounts. unfold declaredMounts in Herr.
    destruct (parseSection body H_MOUNTS) as [section|].
    - now rewrite Herr.
    - discriminate. }
  unfold modifySteps.
  repeat match goal with
  | |- exists msg w', bind ?m ?k ?w0 = _ /\ _ =>
      let Hm := fresh "Hm" in
      let res := fresh "res" in
      rewrite bind_run;
      first
        [ rewrite Hmounts; eauto
        | assert (Hm : preserves registry m) by frame;
          specialize (Hm w0);
          destruct (m w0) as [[[]|?] ?]; simpl in Hm;
          [|do 2 eexists; split; [reflexivity|congruence]] ]
  end.
  do 2 eexists. split; [reflexivity|congruence].
Qed.

End HandlerIsolation.

Lemma demo_GROUPS_DIR_absolute : absolutePath (GROUPS_DIR Demo.ext).
Proof.
  exists (["srv"; "groups"] : list str). split; [discriminate|].
  split; [repeat constructor|reflexivity].
Qed.

(** The invariant in terms of the name under which a spec is checked.  Let
    [A] be the name given to the handler and [B] another name ([main] and
    [orchestrator] being checked as [main]), and take one of the partitions
    [tasks], [results], [knowledge].  The validator accepts no mount under
    the partition root of [B], and answers the first such mount with the
    violation message that names [B]; the test is the path prefix
    [<partitionRoot>/<B>/].  A create or modify spec that declares such a
    mount fails, and no such mount enters the registry through either
    handler. *)
Lemma mount_isolation_by_name (E : Externals) (A B subdir : str) :
  absolutePath (GROUPS_DIR E) ->
  plainName B -> B <> A -> B <> isolationName A -> subdir ∈ PARTITIONS ->
  (forall mounts m,
     validateMountsIsolation E A mounts = None -> m ∈ mounts ->
     inPartition E subdir B (hostPath m) = false)
  /\ (forall pre m post,
        validateMountsIsolation E A pre = None ->
        inPartition E subdir B (hostPath m) = true ->
        validateMountsIsolation E A (pre ++ m :: post)
        = Some (violationMessage (hostPath m) B subdir))
  /\ (forall w body model m,
        m ∈ declaredMounts body ->
        inPartition E subdir B (hostPath m) = true ->
        exists msg, handleCreate E A body model w = (Throw msg, w))
  /\ (forall w body model jid m,
        m ∈ mountsAt (snd (handleCreate E A body model w)) jid ->
        inPartition E subdir B (hostPath m) = true ->
        m ∈ mountsAt w jid)
  /\ (forall w body model m,
        m ∈ declaredMounts body ->
        inPartition E subdir B (hostPath m) = true ->
        exists msg w',
          handleModify E A body model w = (Throw msg, w')
          /\ registry w' = registry w)
  /\ (forall w body model jid m,
        m ∈ mountsAt (snd (handleModify E A body model w)) jid ->
        inPartition E subdir B (hostPath m) = true ->
        m ∈ mountsAt w jid).
Proof.
  intros Habs HB HA HA' Hsub. repeat split.
  - intros mounts m Hv Hin.
    now apply (validate_sound E A B subdir mounts).
  - intros pre m post Hpre Hin. now apply validate_names.
  - intros w body model m Hin Hpart.
    now apply (handleCreate_rejects E A B subdir body model w m).
  - intros w body model jid m Hin Hpart.
    destruct (handleCreate_isolated E A body model w jid m Hin) as [H|H];
      [exact H|].
    rewrite (H subdir B Hsub HB HA) in Hpart. discriminate.
  - intros w body model m Hin Hpart.
    now apply (handleModify_rejects E A B subdir body model w m).
  - intros w body model jid m Hin Hpart.
    destruct (handleModify_isolated E A body model w jid m Hin) as [H|H];
      [exact H|].
    rewrite (H subdir B Hsub HB HA') in Hpart. discriminate.
Qed.

(** The lemma at work: [billing] asks for a mount into the tasks partition
    of [other]. *)
Example mount_isolation_by_name_at_work :
  validateMountsIsolation Demo.ext "billing"
    (standardMounts Demo.ext "billing" ++ [crossMount])
  = Some (violationMessage (hostPath crossMount) "other" "tasks")
  /\ exists msg,
       handleCreate Demo.ext "billing" crossBody None Demo.emptyWorld
       = (Throw msg, Demo.emptyWorld).
Proof.
  destruct (mount_isolation_by_name Demo.ext "billing" "other" "tasks")
    as (_ & Hnames & Hcreate & _).
  - exact demo_GROUPS_DIR_absolute.
  - apply plainSegment_plainName. reflexivity.
  - discriminate.
  - discriminate.
  - apply (list_elem_of_lookup_2 _ 0). reflexivity.
  - split.
    + apply (Hnames (standardMounts Demo.ext "billing") crossMount []);
        vm_compute; reflexivity.
    + apply (Hcreate Demo.emptyWorld crossBody None crossMount).
      * apply (list_elem_of_lookup_2 _ 0). vm_compute. reflexivity.
      * vm_compute. reflexivity.
Qed.

(** The text of the violation message: the host path, the name of the agent
    whose partition it reaches into, and the kind of the partition. *)
Lemma violationMessage_text (hp B subdir : str) :
  violationMessage hp B subdir
  = "Mount " ++ [DQ] ++ hp ++ [DQ] ++ " crosses into agent " ++ [DQ] ++ B
    ++ [DQ] ++ " " ++ subdir ++ " directory".
Proof. reflexivity. Qed.

(** C1 does not hold of a modify that names the agent by its folder.
    [billing] and [billing-specialist] are two agents, and the folder of the
    first is the name of the second.  A modify spec for the name
    [billing-specialist] finds the registry entry of [billing], because the
    lookup tries the name as given first, and checks the mounts under the
    name as given.  So a mount inside the tasks partition of
    [billing-specialist] passes the check and is registered on [billing],
    while a mount inside [billing]'s own partition is refused with a message
    that names [billing].  The same two mounts in a modify spec for the name
    [billing] are treated as the claim says: the first is refused with the
    message that names [billing-specialist], the second is accepted. *)
Lemma C1_modify_by_folder_name_crosses :
  let w := namesakeWorld in
  let billingEntry : str := "agent:billing-specialist" in
  let namesakeEntry : str := "agent:billing-specialist-specialist" in
  let byFolder := handleModify Demo.ext "billing-specialist" in
  let byName := handleModify Demo.ext "billing" in
  name <$> registry w !! billingEntry = Some ("Billing Specialist" : str)
  /\ name <$> registry w !! namesakeEntry
     = Some ("Billing-specialist Specialist" : str)
  /\ hostPath <$> mountsAt w namesakeEntry
     = ["/srv/groups/main/shared/tasks/billing-specialist" : str;
        "/srv/groups/main/shared/results/billing-specialist";
        "/srv/groups/main/shared/knowledge/billing-specialist";
        "/srv/groups/main/shared"]
  /\ hostPath <$> declaredMounts namesakeBody = [namesakeInbox]
  /\ hostPath <$> declaredMounts ownInboxBody = [ownInbox]
  /\ inPartition Demo.ext "tasks" "billing-specialist" namesakeInbox = true
  /\ inPartition Demo.ext "tasks" "billing" ownInbox = true
  /\ fst (byFolder namesakeBody None w) = Ok tt
  /\ hostPath <$> mountsAt (snd (byFolder namesakeBody None w)) billingEntry
     = ["/srv/groups/main/shared/tasks/billing" : str;
        "/srv/groups/main/shared/results/billing";
        "/srv/groups/main/shared/knowledge/billing";
        "/srv/groups/main/shared";
        "/srv/groups/main/shared/tasks/billing-specialist/inbox"]
  /\ fst (byFolder ownInboxBody None w)
     = Throw ("Mount " ++ [DQ] ++ "/srv/groups/main/shared/tasks/billing/inbox"
              ++ [DQ] ++ " crosses into agent " ++ [DQ] ++ "billing" ++ [DQ]
              ++ " tasks directory")
  /\ hostPath <$> mountsAt (snd (byFolder ownInboxBody None w)) billingEntry
     = ["/srv/groups/main/shared/tasks/billing" : str;
        "/srv/groups/main/shared/results/billing";
        "/srv/groups/main/shared/knowledge/billing";
        "/srv/groups/main/shared"]
  /\ fst (byName namesakeBody None w)
     = Throw ("Mount " ++ [DQ]
              ++ "/srv/groups/main/shared/tasks/billing-specialist/inbox"
              ++ [DQ] ++ " crosses into agent " ++ [DQ] ++ "billing-specialist"
              ++ [DQ] ++ " tasks directory")
  /\ hostPath <$> mountsAt (snd (byName namesakeBody None w)) billingEntry
     = ["/srv/groups/main/shared/tasks/billing" : str;
        "/srv/groups/main/shared/results/billing";
        "/srv/groups/main/shared/knowledge/billing";
        "/srv/groups/main/shared"]
  /\ fst (byName ownInboxBody None w) = Ok tt.
Proof. vm_compute. repeat split; reflexivity. Qed.

(** ** Create: the duplicate check and the size check *)

Section CreateFacts.

Variable E : Externals.

Lemma bind_Ok {A B : Type} (m : M A) (k : A -> M B) (w w' : World) (b : B) :
  bind m k w = (Ok b, w') ->
  exists a w1, m w = (Ok a, w1) /\ k a w1 = (Ok b, w').
Proof.
  rewrite bind_run. destruct (m w) as [[a|msg] w1]; [eauto|discriminate].
Qed.

Lemma preserves_run {X A : Type} (proj : World -> X) (m : M A)
    (w w' : World) (r : outcome A) :
  preserves proj m -> m w = (r, w') -> proj w' = proj w.
Proof. intros Hm Hrun. specialize (Hm w). now rewrite Hrun in Hm. Qed.

(** A provisioning that returns has registered the agent. *)
Lemma provisionAgent_Ok (A f j body : str) (model : option str)
    (content : str) (mounts : list Mount) (w w' : World) :
  provisionAgent E A f j body model content mounts w = (Ok tt, w') ->
  exists addedAt,
    registry w' = <[j := newGroup A f addedAt mounts]> (registry w).
Proof.
  unfold provisionAgent. intros H.
  apply bind_Ok in H as (? & w1 & H1 & H).
  apply bind_Ok in H as (? & w2 & H2 & H).
  apply bind_Ok in H as (? & w3 & H3 & H).
  apply bind_Ok in H as (addedAt & w4 & H4 & H).
  apply bind_Ok in H as (? & w5 & H5 & H).
  exists addedAt.
  apply (preserves_run registry) in H1; [|frame].
  apply (preserves_run registry) in H2; [|frame].
  apply (preserves_run registry) in H3; [|frame].
  apply (preserves_run registry) in H4; [|frame].
  apply (preserves_run registry) in H; [|frame].
  unfold setRegisteredGroup in H5. injection H5 as _ <-.
  rewrite H. cbn. congruence.
Qed.

Lemma handleCreate_Ok_registered (A body : str) (model : option str)
    (w w' : World) :
  handleCreate E A body model w = (Ok tt, w') ->
  isValidGroupFolder E (A ++ "-specialist") = true
  /\ exists section addedAt,
       parseSection body H_CLAUDE_MD = Some section
       /\ validateMountsIsolation E A
            (standardMounts E A ++ declaredMounts body) = None
       /\ registry w'
          = <[("agent:" ++ A ++ "-specialist") :=
                newGroup A (A ++ "-specialist") addedAt
                  (standardMounts E A ++ declaredMounts body)]> (registry w)
       /\ provisionAgent E A (A ++ "-specialist")
            ("agent:" ++ A ++ "-specialist") body model (codeBlockOr section)
            (standardMounts E A ++ declaredMounts body) w = (Ok tt, w').
Proof.
  unfold handleCreate. cbv zeta.
  destruct (isValidGroupFolder E (A ++ "-specialist")); [|discriminate].
  cbn [negb]. rewrite bind_run. cbn [getRegisteredGroup get].
  destruct (isSome (registry w !! ("agent:" ++ A ++ "-specialist")));
    [discriminate|].
  destruct (parseSection body H_CLAUDE_MD) as [section|]; [|discriminate].
  destruct (MAX_CLAUDE_MD_LINES <? lineCount (codeBlockOr section));
    [discriminate|].
  unfold createAgent. cbv zeta.
  destruct (validateMountsIsolation E A
              (standardMounts E A ++ declaredMounts body)); [discriminate|].
  intros H. split; [reflexivity|].
  destruct (provisionAgent_Ok _ _ _ _ _ _ _ _ _ H) as [addedAt Hr].
  exists section, addedAt. auto.
Qed.

Lemma handleCreate_duplicate (A body : str) (model : option str) (w : World)
    (g : RegisteredGroup) :
  isValidGroupFolder E (A ++ "-specialist") = true ->
  registry w !! ("agent:" ++ A ++ "-specialist") = Some g ->
  handleCreate E A body model w
  = (Throw (alreadyExistsMessage A ("agent:" ++ A ++ "-specialist")), w).
Proof.
  intros Hvalid Hreg. unfold handleCreate. cbv zeta.
  rewrite Hvalid. cbn [negb]. rewrite bind_run. cbn [getRegisteredGroup get].
  rewrite Hreg. reflexivity.
Qed.

End CreateFacts.

(** C5.  A create spec for an identifier that is registered fails with the
    "already exists" error before the handler has any effect: the world is
    returned as it was.  In particular a create that succeeded makes every
    later create of the same identifier fail, whatever its body, and leaves
    the registration in place. *)
Theorem C5_create_duplicate (E : Externals) (A : str) :
  isValidGroupFolder E (A ++ "-specialist") = true ->
  let jid := "agent:" ++ A ++ "-specialist" in
  (forall w g body model,
     registry w !! jid = Some g ->
     handleCreate E A body model w = (Throw (alreadyExistsMessage A jid), w))
  /\ (forall w w1 body model,
        handleCreate E A body model w = (Ok tt, w1) ->
        exists g, registry w1 !! jid = Some g
          /\ forall body' model',
               handleCreate E A body' model' w1
               = (Throw (alreadyExistsMessage A jid), w1)).
Proof.
  intros Hvalid jid. split.
  - intros w g body model Hreg. now apply handleCreate_duplicate with g.
  - intros w w1 body model Hok.
    apply handleCreate_Ok_registered in Hok
      as (_ & section & addedAt & _ & _ & Hreg & _).
    eexists. split.
    + rewrite Hreg. apply lookup_insert_eq.
    + intros body' model'. eapply handleCreate_duplicate; [exact Hvalid|].
      rewrite Hreg. apply lookup_insert_eq.
Qed.

(** The theorem at work: [billing] is created, and created again. *)
Lemma C5_create_duplicate_witness :
  fst (handleCreate Demo.ext "billing" (bodyOfLines 3) None Demo.emptyWorld)
  = Ok tt
  /\ handleCreate Demo.ext "billing" crossBody None (billingWorld 3)
     = (Throw (alreadyExistsMessage "billing" "agent:billing-specialist"),
        billingWorld 3).
Proof.
  assert (Hfst : fst (handleCreate Demo.ext "billing" (bodyOfLines 3) None
                        Demo.emptyWorld) = Ok tt)
    by (vm_compute; reflexivity).
  split; [exact Hfst|].
  destruct (C5_create_duplicate Demo.ext "billing") as [_ Htwice].
  - reflexivity.
  - destruct (Htwice Demo.emptyWorld (billingWorld 3) (bodyOfLines 3) None)
      as (g & _ & Hagain).
    + rewrite <- Hfst. unfold billingWorld. apply surjective_pairing.
    + apply Hagain.
Defined.

(** ** The size of the instruction document *)






(** The boundary on concrete documents: 150 lines are created and written,
    151 lines are refused, and an append to the 150-line document is refused
    and leaves the file as it was. *)
Example size_boundary_examples :
  let path : str := "/srv/groups/billing-specialist/CLAUDE.md" in
  let lines (w : World) :=
    match fs w !! path with Some (File c) => lineCount c | _ => 0 end in
  fst (handleCreate Demo.ext "billing" (bodyOfLines 150) None Demo.emptyWorld)
  = Ok tt
  /\ lines (billingWorld 150) = 150
  /\ fst (handleCreate Demo.ext "billing" (bodyOfLines 151) None
            Demo.emptyWorld)
     = Throw "CLAUDE.md is 151 lines (max 150)"
  /\ isSome (registry (snd (handleCreate Demo.ext "billing" (bodyOfLines 151)
                              None Demo.emptyWorld))
             !! ("agent:billing-specialist" : str)) = false
  /\ fst (handleModify Demo.ext "billing" (appendBodyOfLines 1) None
            (billingWorld 150))
     = Throw "CLAUDE.md would be 153 lines after append (max 150)"
  /\ lines (snd (handleModify Demo.ext "billing" (appendBodyOfLines 1) None
                   (billingWorld 150))) = 150.
Proof. vm_compute. repeat split; reflexivity. Qed.

(** ** Scheduled tasks and the cron parser *)

Section TaskFacts.

Variable E : Externals.





End TaskFacts.


(** ** The partitions of a created agent *)

Section DirectoryFacts.

Lemma keepsDirs_preserves {A : Type} (m : M A) :
  preserves fs m -> keepsDirs m.
Proof. intros H w p Hp. now rewrite H. Qed.

Lemma keepsDirs_bind {A B : Type} (m : M A) (k : A -> M B) :
  keepsDirs m -> (forall a, keepsDirs (k a)) -> keepsDirs (bind m k).
Proof.
  intros Hm Hk w p Hp. rewrite bind_run. specialize (Hm w p Hp).
  destruct (m w) as [[a|msg] w1]; cbn [snd] in *; [now apply Hk|exact Hm].
Qed.

Lemma keepsDirs_forEach {A : Type} (xs : list A) (body : A -> M unit) :
  (forall x, keepsDirs (body x)) -> keepsDirs (forEach xs body).
Proof.
  intros Hb. induction xs as [|x xs IH]; cbn [forEach].
  - now intros w p Hp.
  - apply keepsDirs_bind; [apply Hb|intros _; exact IH].
Qed.

Lemma mkdirAll_spec (dirs : list str) (f f' : gmap str Node) :
  mkdirAll f dirs = Some f' ->
  (forall d, d ∈ dirs -> f' !! d = Some Dir)
  /\ (forall p, f !! p = Some Dir -> f' !! p = Some Dir).
Proof.
  revert f. induction dirs as [|d dirs IH]; intros f H.
  - injection H as <-. split; [|auto]. intros d Hd. inversion Hd.
  - cbn [mkdirAll] in H.
    assert (Hnext : mkdirAll (<[d := Dir]> f) dirs = Some f').
    { destruct (f !! d) as [[c|]|]; [discriminate|exact H|exact H]. }
    destruct (IH _ Hnext) as [Hmade Hkept].
    assert (Hkeep : forall p, f !! p = Some Dir -> f' !! p = Some Dir).
    { intros p Hp. apply Hkept.
      destruct (decide (p = d)) as [->|Hne].
      - apply lookup_insert_eq.
      - now rewrite lookup_insert_ne by congruence. }
    split; [|exact Hkeep].
    intros d' Hd'. apply elem_of_cons in Hd' as [->|Hd'].
    + apply Hkept, lookup_insert_eq.
    + now apply Hmade.
Qed.

Lemma keepsDirs_mkdirSync (p : str) : keepsDirs (mkdirSync p).
Proof.
  intros w q Hq. unfold mkdirSync.
  destruct (mkdirAll (fs w) (ancestorsAndSelf p)) as [f|] eqn:Hmk;
    [|exact Hq].
  cbn. now apply (proj2 (mkdirAll_spec _ _ _ Hmk)).
Qed.

Lemma keepsDirs_writeFileSync (p c : str) : keepsDirs (writeFileSync p c).
Proof.
  intros w q Hq. unfold writeFileSync.
  destruct (isDir (fs w) p) eqn:Hp; [exact Hq|].
  destruct (isDir (fs w) (dirname p)); [|exact Hq].
  cbn. rewrite lookup_insert_ne; [exact Hq|].
  intros <-. unfold isDir in Hp. rewrite Hq in Hp. discriminate.
Qed.

Lemma mkdirSync_creates (p : str) (w w' : World) :
  mkdirSync p w = (Ok tt, w') ->
  forall d, d ∈ ancestorsAndSelf p -> fs w' !! d = Some Dir.
Proof.
  unfold mkdirSync.
  destruct (mkdirAll (fs w) (ancestorsAndSelf p)) as [f|] eqn:Hmk;
    [|discriminate].
  intros [= <-] d Hd. cbn. now apply (proj1 (mkdirAll_spec _ _ _ Hmk)).
Qed.

Lemma absText_no_trailing (segs : list str) :
  segs <> [] -> Forall (fun s => plainSegment s = true) segs ->
  endsWith (absText segs) "/" = false.
Proof.
  intros Hne H. destruct (absText_last _ Hne H) as (q & c & Hq & Hc).
  unfold endsWith. rewrite Hq, rev_app_distr. cbn.
  rewrite startsWith_nil, andb_true_r. apply ascii_eqb_false. congruence.
Qed.

Lemma prefixesFrom_mem (done pre post : list str) :
  Forall (fun s => plainSegment s = true) (done ++ pre ++ post) ->
  pre <> [] ->
  absText (done ++ pre) ∈ prefixesFrom (accOf done) (pre ++ post).
Proof.
  revert done. induction pre as [|s pre IH]; intros done Hplain Hne;
    [congruence|].
  assert (Hq : match accOf done with
               | [] => s
               | _ => if endsWith (accOf done) "/" then accOf done ++ s
                      else accOf done ++ "/" ++ s
               end = absText (done ++ [s])).
  { destruct done as [|d done].
    - cbn. now rewrite app_nil_r.
    - assert (Hd : Forall (fun s => plainSegment s = true) (d :: done)).
      { now apply Forall_app in Hplain as [Hd _]. }
      unfold accOf.
      rewrite (absText_no_trailing (d :: done)) by (try discriminate; exact Hd).
      rewrite absText_app.
      destruct (absText (d :: done)) eqn:Habs.
      + now apply absText_nonempty in Habs.
      + change (absText [s]) with ("/" ++ s ++ []).
        now rewrite app_nil_r. }
  cbn [app prefixesFrom]. rewrite Hq.
  destruct pre as [|s' pre].
  - apply elem_of_cons. now left.
  - apply elem_of_cons. right.
    specialize (IH (done ++ [s])).
    replace (accOf (done ++ [s])) with (absText (done ++ [s])) in IH
      by (destruct done; reflexivity).
    rewrite <- !app_assoc in IH. cbn [app] in IH.
    apply IH; [exact Hplain|discriminate].
Qed.

(** Every directory above a path is among the ones [mkdirSync] makes. *)
Lemma ancestors_absText (pre post : list str) :
  pre <> [] -> Forall (fun s => plainSegment s = true) (pre ++ post) ->
  absText pre ∈ ancestorsAndSelf (absText (pre ++ post)).
Proof.
  intros Hne Hplain. unfold ancestorsAndSelf.
  assert (Hne' : pre ++ post <> []) by (destruct pre; [congruence|discriminate]).
  rewrite splitChar_absText by assumption.
  rewrite filter_cons_False by (cbn; tauto).
  rewrite filter_truthy_all.
  2:{ eapply Forall_impl; [exact Hplain|].
      intros s Hs. now apply plainSegment_inv in Hs. }
  replace (startsWith (absText (pre ++ post)) "/") with true.
  2:{ destruct pre as [|s pre]; [congruence|]. cbn [app].
      rewrite absText_cons.
      change (startsWith ("/" ++ s ++ absText (pre ++ post)) "/")
        with (Ascii.eqb "/" "/" && startsWith (s ++ absText (pre ++ post)) []).
      now rewrite startsWith_nil. }
  apply (prefixesFrom_mem [] pre post); assumption.
Qed.

(** Joining a relative path of plain segments onto an absolute one. *)
Lemma pjoin_text (p sub : str) (more : list str) :
  absolutePath p -> Forall (fun s => plainSegment s = true) more ->
  more <> [] -> "/" ++ sub = absText more ->
  pjoin [p; sub] = p ++ "/" ++ sub.
Proof.
  intros (segs & Hne & Hplain & ->) Hmore Hmne Hsub.
  unfold pjoin. rewrite filter_truthy_all.
  - cbn [join]. rewrite Hsub, <- absText_app.
    apply normalize_absText.
    + destruct segs; [congruence|discriminate].
    + apply Forall_app. now split.
  - repeat constructor.
    + now apply absText_nonempty.
    + destruct more as [|m more]; [congruence|].
      apply Forall_cons in Hmore as [Hm _].
      apply plainSegment_inv in Hm as (Hm & _).
      rewrite absText_cons in Hsub. injection Hsub as ->.
      destruct m; [congruence|discriminate].
Qed.

End DirectoryFacts.

Section PartitionFacts.

Variable E : Externals.

Lemma keepsDirs_createTasks (A f j body : str) :
  keepsDirs (createTasks E A f j body).
Proof.
  apply keepsDirs_preserves. unfold createTasks, createTaskEntry. frame.
Qed.

(** After the directory loop of [provisionAgent], every directory it was
    asked for exists, with the directories above it. *)
Lemma forEach_mkdir_creates (dirs : list str) (w w' : World) :
  forEach dirs mkdirSync w = (Ok tt, w') ->
  forall p d, p ∈ dirs -> d ∈ ancestorsAndSelf p -> fs w' !! d = Some Dir.
Proof.
  revert w. induction dirs as [|x dirs IH]; intros w H p d Hp Hd.
  - inversion Hp.
  - cbn [forEach] in H. apply bind_Ok in H as ([] & w1 & H1 & H).
    apply elem_of_cons in Hp as [->|Hp].
    + pose proof (keepsDirs_forEach dirs mkdirSync keepsDirs_mkdirSync w1 d)
        as Hkeep.
      rewrite H in Hkeep. apply Hkeep.
      now apply (mkdirSync_creates _ _ _ H1).
    + now apply (IH w1 H p d).
Qed.

Lemma forEach_map {A B : Type} (g : A -> B) (xs : list A) (body : B -> M unit) :
  forEach xs (fun x => body (g x)) = forEach (g <$> xs) body.
Proof.
  induction xs as [|x xs IH]; [reflexivity|].
  cbn [forEach fmap list_fmap]. now rewrite IH.
Qed.

Lemma provisionAgent_dirs (A f j body : str) (model : option str)
    (content : str) (mounts : list Mount) (w w' : World) :
  provisionAgent E A f j body model content mounts w = (Ok tt, w') ->
  forall sub d, sub ∈ partitionDirs A ->
    d ∈ ancestorsAndSelf (pjoin [SHARED_DIR E; sub]) ->
    fs w' !! d = Some Dir.
Proof.
  unfold provisionAgent. intros H sub d Hsub Hd.
  apply bind_Ok in H as ([] & w1 & H1 & H).
  rewrite (forEach_map (fun sub => pjoin [SHARED_DIR E; sub])) in H1.
  assert (Hmade : fs w1 !! d = Some Dir).
  { apply (forEach_mkdir_creates _ _ _ H1 (pjoin [SHARED_DIR E; sub]) d);
      [|exact Hd].
    apply list_elem_of_fmap. now exists sub. }
  match type of H with
  | ?rest w1 = _ =>
      assert (Hkeep : keepsDirs rest)
  end.
  { repeat first
      [ apply keepsDirs_bind
      | apply keepsDirs_mkdirSync
      | apply keepsDirs_writeFileSync
      | apply keepsDirs_createTasks
      | intro
      | apply keepsDirs_preserves; frame ]. }
  specialize (Hkeep w1 d Hmade). now rewrite H in Hkeep.
Qed.

End PartitionFacts.

Section PartitionNaming.

Variable E : Externals.
Hypothesis Habs : absolutePath (GROUPS_DIR E).

(** The host path of a default mount is the partition root followed by the
    agent name. *)
Lemma standard_mount_path (A subdir : str) :
  plainSegment A = true -> subdir ∈ PARTITIONS ->
  pjoin [SHARED_DIR E; subdir; A] = partitionRoot E subdir ++ "/" ++ A.
Proof.
  intros HA Hsub. pose proof (PARTITIONS_plain _ Hsub) as Hplain.
  rewrite partitionRoot_absolute by assumption.
  rewrite pjoin_onto.
  - rewrite !absText_cons. change (absText []) with (@nil ascii).
    rewrite app_nil_r, <- !app_assoc. reflexivity.
  - now apply SHARED_DIR_absolute.
  - repeat constructor; assumption.
Qed.

Lemma standardMounts_partitions (A : str) (custom : list Mount) :
  plainSegment A = true ->
  take 3 (standardMounts E A ++ custom) = partitionMount E A <$> PARTITIONS.
Proof.
  intros HA. unfold standardMounts, partitionMount, PARTITIONS.
  cbn [app take fmap list_fmap].
  rewrite !standard_mount_path
    by (try exact HA; unfold PARTITIONS; rewrite !elem_of_cons; auto).
  reflexivity.
Qed.

(** One of the directories that [handleCreate] makes lies at or below the
    agent's directory in each partition. *)
Lemma partition_dir_made (A subdir : str) :
  plainSegment A = true -> subdir ∈ PARTITIONS ->
  exists sub, sub ∈ partitionDirs A
    /\ partitionRoot E subdir ++ "/" ++ A
       ∈ ancestorsAndSelf (pjoin [SHARED_DIR E; sub]).
Proof.
  intros HA Hsub.
  destruct (SHARED_DIR_absolute E Habs) as [_ Hshared].
  pose proof Hshared as (segs & Hne & Hplain & Hs).
  assert (Hroot : partitionRoot E subdir ++ "/" ++ A
                  = absText (segs ++ [subdir; A])).
  { rewrite partitionRoot_absolute, Hs, absText_app
      by (try exact Habs; now apply PARTITIONS_plain).
    rewrite !absText_cons. change (absText []) with (@nil ascii).
    rewrite app_nil_r, <- !app_assoc. reflexivity. }
  rewrite Hroot.
  assert (Hin : forall post sub,
            Forall (fun s => plainSegment s = true) post ->
            "/" ++ sub = absText ([subdir; A] ++ post) ->
            absText (segs ++ [subdir; A])
            ∈ ancestorsAndSelf (pjoin [SHARED_DIR E; sub])).
  { intros post sub Hpost Hsubtext.
    assert (Hall : Forall (fun s => plainSegment s = true)
                          ([subdir; A] ++ post)).
    { apply Forall_app. split; [|exact Hpost].
      repeat constructor; [now apply PARTITIONS_plain|exact HA]. }
    rewrite (pjoin_text _ sub ([subdir; A] ++ post) Hshared Hall)
      by (try discriminate; exact Hsubtext).
    rewrite Hsubtext, Hs, <- absText_app, app_assoc.
    apply ancestors_absText.
    - destruct segs; discriminate.
    - rewrite <- app_assoc. apply Forall_app. now split. }
  unfold PARTITIONS in Hsub. rewrite !elem_of_cons in Hsub.
  destruct Hsub as [->|[->|[->|Hsub]]]; [| | |inversion Hsub].
  - exists ("tasks/" ++ A ++ "/inbox"). split.
    + apply (list_elem_of_lookup_2 _ 0). reflexivity.
    + apply (Hin ["inbox"]); [repeat constructor|].
      cbn [app]. rewrite !absText_cons. change (absText []) with (@nil ascii).
      rewrite app_nil_r, <- ?app_assoc. reflexivity.
  - exists ("results/" ++ A ++ "/inbox"). split.
    + apply (list_elem_of_lookup_2 _ 3). reflexivity.
    + apply (Hin ["inbox"]); [repeat constructor|].
      cbn [app]. rewrite !absText_cons. change (absText []) with (@nil ascii).
      rewrite app_nil_r, <- ?app_assoc. reflexivity.
  - exists ("knowledge/" ++ A). split.
    + apply (list_elem_of_lookup_2 _ 5). reflexivity.
    + apply (Hin []); [constructor|].
      cbn [app]. rewrite !absText_cons. change (absText []) with (@nil ascii).
      rewrite app_nil_r, <- ?app_assoc. reflexivity.
Qed.

End PartitionNaming.

(** C8, as stated, fails: [billing] is registered under the folder
    [billing-specialist], while its default mounts and the directories made
    for it are [tasks/billing], [results/billing], [knowledge/billing]. *)
Lemma C8_partitions_not_named_by_folder :
  let g := registry (billingWorld 3) !! ("agent:billing-specialist" : str) in
  let made (p : str) := isSome (fs (billingWorld 3) !! p) in
  folder <$> g = Some ("billing-specialist" : str)
  /\ (fun g => hostPath <$> take 3 (existingMountsOf g)) <$> g
     = Some ["/srv/groups/main/shared/tasks/billing" : str;
             "/srv/groups/main/shared/results/billing";
             "/srv/groups/main/shared/knowledge/billing"]
  /\ made "/srv/groups/main/shared/tasks/billing" = true
  /\ made "/srv/groups/main/shared/results/billing" = true
  /\ made "/srv/groups/main/shared/knowledge/billing" = true
  /\ made "/srv/groups/main/shared/tasks/billing-specialist" = false
  /\ made "/srv/groups/main/shared/results/billing-specialist" = false
  /\ made "/srv/groups/main/shared/knowledge/billing-specialist" = false.
Proof. vm_compute. repeat split; reflexivity. Qed.

(** C8, amended: an agent created under the name [A] is registered with the
    folder [A-specialist], from which [A] is recovered by removing the
    suffix; its three default read-write mounts are [tasks/A], [results/A]
    and [knowledge/A] below the shared directory, and these directories
    exist after the create. *)
Theorem C8_partitions_named_by_agent (E : Externals) (A body : str)
    (model : option str) (w w1 : World) :
  absolutePath (GROUPS_DIR E) -> plainSegment A = true ->
  handleCreate E A body model w = (Ok tt, w1) ->
  exists g,
    registry w1 !! ("agent:" ++ A ++ "-specialist") = Some g
    /\ folder g = A ++ "-specialist"
    /\ (forall A', A' ++ "-specialist" = folder g -> A' = A)
    /\ take 3 (existingMountsOf g) = partitionMount E A <$> PARTITIONS
    /\ (forall subdir, subdir ∈ PARTITIONS ->
          fs w1 !! (partitionRoot E subdir ++ "/" ++ A) = Some Dir).
Proof.
  intros Habs HA Hok.
  apply handleCreate_Ok_registered in Hok
    as (_ & section & addedAt & _ & _ & Hreg & Hprov).
  eexists. split; [rewrite Hreg; apply lookup_insert_eq|].
  split; [reflexivity|]. split; [|split].
  - intros A' HA'. cbn [folder newGroup] in HA'.
    now apply app_inv_tail in HA'.
  - rewrite existingMountsOf_newGroup.
    now apply standardMounts_partitions.
  - intros subdir Hsub.
    destruct (partition_dir_made E Habs A subdir HA Hsub)
      as (sub & Hsubin & Hanc).
    now apply (provisionAgent_dirs E _ _ _ _ _ _ _ _ _ Hprov sub).
Qed.

(** The theorem at work on the creation of [billing]. *)
Lemma C8_partitions_named_by_agent_witness :
  exists g,
    registry (billingWorld 3) !! ("agent:billing-specialist" : str) = Some g
    /\ folder g = "billing-specialist"
    /\ (forall A', A' ++ "-specialist" = folder g -> A' = "billing")
    /\ take 3 (existingMountsOf g)
       = partitionMount Demo.ext "billing" <$> PARTITIONS
    /\ (forall subdir, subdir ∈ PARTITIONS ->
          fs (billingWorld 3)
          !! (partitionRoot Demo.ext subdir ++ "/" ++ "billing") = Some Dir).
Proof.
  apply (C8_partitions_named_by_agent Demo.ext "billing" (bodyOfLines 3) None
           Demo.emptyWorld (billingWorld 3)).
  - exact demo_GROUPS_DIR_absolute.
  - reflexivity.
  - transitivity
      (fst (handleCreate Demo.ext "billing" (bodyOfLines 3) None
              Demo.emptyWorld), billingWorld 3).
    + apply surjective_pairing.
    + apply (f_equal (fun o => (o, billingWorld 3))).
      vm_compute. reflexivity.
Defined.

(** ** The frontmatter pattern *)

Section RegexFacts.

(** A literal text matches exactly when the input starts with it. *)
Lemma run_lits (s : str) (k : kont) (i : nat) (prev : option ascii)
    (input : str) (caps : list (nat * nat)) :
  run noFlags (lits s) k i prev input caps
  = if startsWith input s
    then k (i + length s) (lastPrev prev s) (drop (length s) input) caps
    else None.
Proof.
  revert i prev input. induction s as [|c s IH]; intros i prev input.
  - cbn [lits run]. rewrite startsWith_nil. cbn. now rewrite Nat.add_0_r.
  - destruct s as [|c' s].
    + cbn [lits run]. destruct input as [|d input]; [reflexivity|].
      cbn [startsWith litMatches ignoreCase noFlags].
      rewrite startsWith_nil, andb_true_r.
      destruct (Ascii.eqb c d) eqn:Hcd; [|reflexivity].
      apply ascii_eqb_true in Hcd. subst d. cbn.
      now rewrite Nat.add_1_r.
    + change (lits (c :: c' :: s)) with (Seq (Lit c) (lits (c' :: s))).
      cbn [run]. destruct input as [|d input]; [reflexivity|].
      cbn [litMatches ignoreCase noFlags].
      change (startsWith (d :: input) (c :: c' :: s))
        with (Ascii.eqb c d && startsWith input (c' :: s)).
      destruct (Ascii.eqb c d) eqn:Hcd; [|reflexivity].
      apply ascii_eqb_true in Hcd. subst d.
      rewrite IH. cbn [andb].
      destruct (startsWith input (c' :: s)); [|reflexivity].
      cbn [length drop lastPrev fold_left].
      replace (S i + S (length s)) with (i + S (S (length s))) by lia.
      reflexivity.
Qed.

(** A greedy [[\s\S]*] before [$] runs to the end of the input. *)
Lemma starGreedy_to_end (s : str) (i0 i : nat) (prev : option ascii)
    (caps : list (nat * nat)) :
  starGreedy anyChar
    (fun j p' s' c' => run noFlags Eol accept j p' s' (c' ++ [(i0, j)]))
    i prev s caps
  = Some (i + length s, caps ++ [(i0, i + length s)]).
Proof.
  revert i prev. induction s as [|c s IH]; intros i prev.
  - cbn. now rewrite Nat.add_0_r.
  - cbn [starGreedy anyChar]. rewrite IH. cbn [length].
    now rewrite Nat.add_succ_r.
Qed.

(** A lazy [[\s\S]*?] stops at the first position where the rest of the
    pattern matches, when that only depends on the text ahead. *)
Lemma starLazy_find (sep : str) (R : nat -> str -> list (nat * nat) -> result)
    (K : kont) (s : str) (i : nat) (prev : option ascii)
    (caps : list (nat * nat)) :
  (forall j p s' c,
     K j p s' c = if startsWith s' sep then Some (R j s' c) else None) ->
  starLazy anyChar K i prev s caps
  = match findSep sep s with
    | Some d => Some (R (i + d) (drop d s) caps)
    | None => None
    end.
Proof.
  intros HK. revert i prev. induction s as [|c s IH]; intros i prev.
  - cbn [starLazy findSep]. rewrite HK.
    destruct (startsWith [] sep); [|reflexivity].
    cbn. now rewrite Nat.add_0_r.
  - cbn [starLazy findSep]. rewrite HK.
    destruct (startsWith (c :: s) sep).
    + cbn. now rewrite Nat.add_0_r.
    + cbn [anyChar]. rewrite IH.
      destruct (findSep sep s) as [d|]; [|reflexivity].
      cbn. now rewrite Nat.add_succ_r.
Qed.

(** A pattern anchored with [^] and without the [m] flag matches at the
    start of the input or nowhere. *)
Lemma execFrom_anchored (r : re) (s : str) (i : nat) (c : ascii) :
  execFrom noFlags (Seq Bol r) i (Some c) s = None.
Proof.
  revert i c. induction s as [|d s IH]; intros i c; cbn; [reflexivity|].
  apply IH.
Qed.

Lemma findSep_bound (sep s : str) (d : nat) :
  findSep sep s = Some d -> d + length sep <= length s.
Proof.
  revert d. induction s as [|c s IH]; intros d; cbn [findSep].
  - destruct (startsWith [] sep) eqn:H; [|discriminate].
    intros [= <-]. destruct sep; [cbn; lia|discriminate].
  - destruct (startsWith (c :: s) sep) eqn:H.
    + intros [= <-]. apply startsWith_inv in H.
      apply (f_equal length) in H. rewrite length_app in H. lia.
    + destruct (findSep sep s) as [d'|]; [|discriminate].
      intros [= <-]. specialize (IH d' eq_refl). cbn [length]. lia.
Qed.

(** Text added at the end does not move the first occurrence. *)
Lemma findSep_app (sep s t : str) (d : nat) :
  findSep sep s = Some d -> findSep sep (s ++ t) = Some d.
Proof.
  revert d. induction s as [|c s IH]; intros d H.
  - cbn [findSep] in H. destruct (startsWith [] sep) eqn:Hs; [|discriminate].
    destruct sep; [|discriminate].
    injection H as <-. destruct t; reflexivity.
  - pose proof (findSep_bound _ _ _ H) as Hb.
    cbn [findSep app] in *.
    change (c :: s ++ t) with ((c :: s) ++ t).
    rewrite startsWith_app_long by lia.
    destruct (startsWith (c :: s) sep); [exact H|].
    destruct (findSep sep s) as [d'|]; [|discriminate].
    now rewrite (IH d' eq_refl).
Qed.

End RegexFacts.

Section FrontmatterFacts.

Lemma exec_frontmatter (content : str) :
  match exec noFlags reFrontmatter content with
  | Some m => Some (group content m 1, group content m 2)
  | None => None
  end = splitFrontmatter content.
Proof.
  unfold exec, splitFrontmatter.
  assert (Hrun :
    run noFlags reFrontmatter accept 0 None content []
    = if startsWith content frontmatterOpen then
        match findSep frontmatterClose (drop 4 content) with
        | Some d =>
            Some (4 + d + 5 + length (drop 5 (drop d (drop 4 content))),
                  [(4, 4 + d);
                   (4 + d + 5,
                    4 + d + 5 + length (drop 5 (drop d (drop 4 content))))])
        | None => None
        end
      else None).
  { change reFrontmatter
      with (Seq Bol (Seq (lits frontmatterOpen)
              (Seq (Grp (Star false anyChar))
                 (Seq (lits frontmatterClose)
                    (Seq (Grp (Star true anyChar)) Eol))))).
    cbn [run atBol]. rewrite run_lits.
    destruct (startsWith content frontmatterOpen); [|reflexivity].
    change (length frontmatterOpen) with 4. cbn [Nat.add].
    rewrite (starLazy_find frontmatterClose
               (fun j s' c =>
                  (j + 5 + length (drop 5 s'),
                   (c ++ [(4, j)])
                   ++ [(j + 5, j + 5 + length (drop 5 s'))]))).
    - destruct (findSep frontmatterClose (drop 4 content)); reflexivity.
    - intros j p s' c. rewrite run_lits.
      destruct (startsWith s' frontmatterClose); [|reflexivity].
      change (length frontmatterClose) with 5.
      cbn [run]. apply starGreedy_to_end. }
  assert (Hexec : forall r,
    execFrom noFlags r 0 None content
    = match run noFlags r accept 0 None content [] with
      | Some (j, caps) =>
          Some {| m_index := 0; m_end := j; m_groups := caps |}
      | None =>
          match content with
          | c :: s' => execFrom noFlags r 1 (Some c) s'
          | [] => None
          end
      end).
  { intros r. destruct content; reflexivity. }
  rewrite Hexec, Hrun.
  destruct (startsWith content frontmatterOpen) eqn:Hopen.
  - destruct (findSep frontmatterClose (drop 4 content)) as [d|] eqn:Hd.
    + unfold group, slice. cbn [m_groups lookup list_lookup Nat.sub].
      f_equal. f_equal.
      * f_equal. lia.
      * replace (4 + d + 5 + length (drop 5 (drop d (drop 4 content)))
                 - (4 + d + 5))
          with (length (drop 5 (drop d (drop 4 content)))) by lia.
        rewrite !drop_drop.
        replace (4 + (d + 5)) with (4 + d + 5) by lia.
        rewrite firstn_all; f_equal; lia.
    + destruct content as [|c s']; [reflexivity|].
      apply (f_equal (fun o => match o with
                               | Some m => Some (group (c :: s') m 1,
                                                 group (c :: s') m 2)
                               | None => None
                               end) (execFrom_anchored _ s' 1 c)).
  - destruct content as [|c s']; [reflexivity|].
    apply (f_equal (fun o => match o with
                             | Some m => Some (group (c :: s') m 1,
                                               group (c :: s') m 2)
                             | None => None
                             end) (execFrom_anchored _ s' 1 c)).
Qed.

Lemma parseFrontmatter_split (content : str) :
  parseFrontmatter content
  = match splitFrontmatter content with
    | Some (yamlBlock, body) => frontmatterOf yamlBlock body
    | None => None
    end.
Proof.
  rewrite <- exec_frontmatter. unfold parseFrontmatter.
  destruct (exec noFlags reFrontmatter content); reflexivity.
Qed.

Lemma frontmatterOf_body (yamlBlock body body' : str)
    (fm : SpecFrontmatter) :
  frontmatterOf yamlBlock body = Some (fm, body') ->
  body' = body /\ forall b, frontmatterOf yamlBlock b = Some (fm, b).
Proof.
  unfold frontmatterOf. cbv zeta.
  destruct (getKey "operation" _) as [[|c op]|]; try discriminate.
  destruct (getKey "agent" _) as [[|d agent]|]; try discriminate.
  destruct (parseOperation (c :: op)); [|discriminate].
  intros [= <- <-]. split; reflexivity.
Qed.

(** A line feed added at the end of a spec is added at the end of its body
    and changes nothing else. *)
Lemma parseFrontmatter_app_LF (content body : str) (fm : SpecFrontmatter) :
  parseFrontmatter content = Some (fm, body) ->
  parseFrontmatter (content ++ [LF]) = Some (fm, body ++ [LF]).
Proof.
  rewrite !parseFrontmatter_split. unfold splitFrontmatter.
  destruct (startsWith content frontmatterOpen) eqn:Hopen; [|discriminate].
  assert (Hlen : 4 <= length content).
  { apply startsWith_inv in Hopen. rewrite Hopen, length_app.
    change (length frontmatterOpen) with 4. lia. }
  rewrite startsWith_app_long by exact Hlen. rewrite Hopen.
  cbv zeta. rewrite drop_app_le by exact Hlen.
  destruct (findSep frontmatterClose (drop 4 content)) as [d|] eqn:Hd;
    [|discriminate].
  pose proof (findSep_bound _ _ _ Hd) as Hb.
  change (length frontmatterClose) with 5 in Hb.
  rewrite (findSep_app _ _ [LF] _ Hd).
  rewrite take_app_le by lia. rewrite drop_app_le by lia.
  intros H. apply frontmatterOf_body in H as [-> H]. apply H.
Qed.

End FrontmatterFacts.

(** ** State transitions and dispatch *)

Section DispatchFacts.

Variable E : Externals.

Lemma isDir_file (f : gmap str Node) (p c : str) :
  f !! p = Some (File c) -> isDir f p = false.
Proof. unfold isDir. now intros ->. Qed.

Lemma isDir_insert_file (f : gmap str Node) (p q c : str) :
  isDir (<[p := File c]> f) q
  = if bool_decide (q = p) then false else isDir f q.
Proof.
  unfold isDir. case_bool_decide as H.
  - subst q. now rewrite lookup_insert_eq.
  - now rewrite lookup_insert_ne by congruence.
Qed.

(** [renameSpec] on a spec file, when the file system lets it through: the
    file moves to the path that carries the new state, with the note
    appended. *)
Lemma renameSpec_file (p c : str) (sfx : suffix) (note : option str)
    (w : World) :
  fs w !! p = Some (File c) ->
  isDir (fs w) (dirname p) = true ->
  isDir (fs w) (renamedPath p sfx) = false ->
  isDir (fs w) (dirname (renamedPath p sfx)) = true ->
  renameSpec p sfx note w
  = (Ok tt, setFs w (<[renamedPath p sfx := File (annotated c note)]>
                       (delete p (fs w)))).
Proof.
  intros Hfile Hdir Hnew Hnewdir. unfold renameSpec, annotated.
  assert (Hplain :
    renameSync p (renamedPath p sfx) w
    = (Ok tt, setFs w (<[renamedPath p sfx := File c]> (delete p (fs w))))).
  { unfold renameSync. now rewrite Hfile, Hnew, Hnewdir. }
  destruct note as [[|t text]|]; try (rewrite bind_run; exact Hplain).
  rewrite !bind_run. unfold readFileSync. rewrite Hfile.
  unfold writeFileSync. rewrite (isDir_file _ _ _ Hfile), Hdir.
  unfold renameSync. cbn [fs setFs].
  rewrite lookup_insert_eq, !isDir_insert_file, Hnew, Hnewdir.
  assert (Hne : dirname (renamedPath p sfx) <> p).
  { intros Heq. rewrite Heq, (isDir_file _ _ _ Hfile) in Hnewdir.
    discriminate. }
  rewrite (bool_decide_eq_false_2 _ Hne).
  rewrite delete_insert_eq.
  destruct (bool_decide (renamedPath p sfx = p)); reflexivity.
Qed.

(** Without a note nothing is written before the rename. *)
Lemma renameSpec_plain (p c : str) (sfx : suffix) (w : World) :
  fs w !! p = Some (File c) ->
  isDir (fs w) (renamedPath p sfx) = false ->
  isDir (fs w) (dirname (renamedPath p sfx)) = true ->
  renameSpec p sfx None w
  = (Ok tt, setFs w (<[renamedPath p sfx := File c]> (delete p (fs w)))).
Proof.
  intros Hfile Hnew Hnewdir. unfold renameSpec. rewrite bind_run.
  cbn [ret]. unfold renameSync. now rewrite Hfile, Hnew, Hnewdir.
Qed.

(** The [try] block ends with the APPLIED or with the FAILED transition. *)
Lemma applyAndMark_ends (p : str) (operationRun : M unit) (okLine : str)
    (failLine : str -> str) (w : World) :
  exists w3,
    applyAndMark p operationRun okLine failLine w
    = (renameSpec p APPLIED None ;; log okLine) w3
    \/ exists msg,
         applyAndMark p operationRun okLine failLine w
         = (renameSpec p FAILED (Some (errorNote msg)) ;; log (failLine msg))
             w3.
Proof.
  unfold applyAndMark, tryCatch. rewrite bind_run.
  destruct (operationRun w) as [[[]|msg] w1].
  - destruct ((renameSpec p APPLIED None ;; log okLine) w1)
      as [[[]|msg] w2] eqn:Hmark.
    + exists w1. left. now rewrite Hmark.
    + exists w2. right. now exists msg.
  - exists w1. right. now exists msg.
Qed.

(** The standard path on a spec that is not about the controller. *)
Lemma processSpecFile_standard (p content body : str) (fm : SpecFrontmatter)
    (w : World) :
  fs w !! p = Some (File content) ->
  parseFrontmatter content = Some (fm, body) ->
  isSelfMod (fm_agent fm) = false ->
  processSpecFile E p w
  = (log ("Processing: " ++ basename p []) ;;
     applyAndMark p
       (runOperation E (fm_operation fm) (fm_agent fm) body (fm_model fm))
       ("  APPLIED: " ++ operationName (fm_operation fm) ++ " "
        ++ fm_agent fm)
       (fun msg => "  FAILED: " ++ operationName (fm_operation fm) ++ " "
                   ++ fm_agent fm ++ " - " ++ msg)) w.
Proof.
  intros Hfile Hparse Hself. unfold processSpecFile. cbv zeta.
  rewrite !bind_run. cbn [log]. rewrite bind_run.
  unfold readFileSync. cbn [fs setLogs]. rewrite Hfile, Hparse, Hself.
  reflexivity.
Qed.

(** The approved path, once its file is read and parsed again. *)
Lemma processApprovedFile_parsed (p content body : str)
    (fm : SpecFrontmatter) (w : World) :
  fs w !! p = Some (File content) ->
  parseFrontmatter (beforeFirst approvalMarker content) = Some (fm, body) ->
  processApprovedFile E p w
  = (log ("Processing approved: " ++ basename p []) ;;
     applyAndMark p
       (runApprovedOperation E (fm_operation fm) (fm_agent fm) body
          (fm_model fm))
       ("  APPLIED (approved): " ++ operationName (fm_operation fm) ++ " "
        ++ fm_agent fm)
       (fun msg => "  FAILED (approved): " ++ operationName (fm_operation fm)
                   ++ " " ++ fm_agent fm ++ " - " ++ msg)) w.
Proof.
  intros Hfile Hparse. unfold processApprovedFile. cbv zeta.
  rewrite !bind_run. cbn [log]. rewrite bind_run.
  unfold readFileSync. cbn [fs setLogs]. rewrite Hfile, Hparse.
  reflexivity.
Qed.

Lemma beforeFirst_unfold (sep s : str) :
  beforeFirst sep s
  = if startsWith s sep then []
    else match s with
         | [] => []
         | c :: s' => c :: beforeFirst sep s'
         end.
Proof. destruct s; reflexivity. Qed.

Lemma startsWith_straddle (m x rest : str) :
  borderless m -> x <> [] -> length x < length m ->
  startsWith (x ++ m ++ rest) m = false.
Proof.
  intros Hb Hx Hlen.
  destruct (startsWith (x ++ m ++ rest) m) eqn:H; [|reflexivity].
  apply startsWith_inv in H.
  assert (Hk : 0 < length x < length m).
  { destruct x; [congruence|cbn [length] in *; lia]. }
  specialize (Hb (length x) Hk).
  assert (Hpre : startsWith (m ++ rest) (drop (length x) m) = true).
  { apply startsWith_iff.
    exists (drop (length m) (x ++ m ++ rest)).
    apply (f_equal (drop (length x))) in H.
    rewrite drop_app_length in H. rewrite H at 1.
    rewrite drop_app_le by lia. reflexivity. }
  rewrite startsWith_app_long in Hpre by (rewrite length_drop; lia).
  congruence.
Qed.

(** The text before the first occurrence of a borderless marker. *)
Lemma beforeFirst_marker (m x rest : str) :
  borderless m -> includes x m = false ->
  beforeFirst m (x ++ m ++ rest) = x.
Proof.
  intros Hb. induction x as [|c x IH]; intros Hinc.
  - rewrite beforeFirst_unfold. cbn [app]. now rewrite startsWith_app.
  - rewrite includes_cons in Hinc. apply orb_false_iff in Hinc as [Hs Hinc].
    rewrite beforeFirst_unfold.
    assert (Hno : startsWith ((c :: x) ++ m ++ rest) m = false).
    { destruct (le_lt_dec (length m) (length (c :: x))) as [Hle|Hlt].
      - now rewrite startsWith_app_long.
      - now apply startsWith_straddle. }
    rewrite Hno. cbn [app]. f_equal. now apply IH.
Qed.

Lemma approvalMarker_borderless : borderless approvalMarker.
Proof.
  intros k Hk.
  assert (H : forallb (fun k => negb (startsWith approvalMarker
                                        (drop k approvalMarker)))
                      (seq 1 (length approvalMarker - 1)) = true)
    by (vm_compute; reflexivity).
  rewrite forallb_forall in H.
  specialize (H k). rewrite in_seq in H.
  apply negb_true_iff, H. lia.
Qed.

(** Cutting the approval notice from a gated spec leaves the spec and one
    line feed. *)
Lemma clean_pending_content (content : str) :
  includes (content ++ [LF]) approvalMarker = false ->
  beforeFirst approvalMarker (content ++ noteSeparator ++ pendingNote)
  = content ++ [LF].
Proof.
  intros Hinc.
  replace (content ++ noteSeparator ++ pendingNote)
    with ((content ++ [LF]) ++ approvalMarker
          ++ (".** This spec targets the Orchestrator. "
              ++ "Waiting for rename to .APPROVED.md.")).
  - apply beforeFirst_marker; [apply approvalMarker_borderless|exact Hinc].
  - rewrite <- app_assoc. reflexivity.
Qed.

End DispatchFacts.

(** A delete spec aimed at the controller, on the standard path: the file
    ends in FAILED with the note, and nothing else changes. *)
Lemma self_delete_standard_path (E : Externals) (w : World)
    (filePath content body : str) (fm : SpecFrontmatter) :
  fs w !! filePath = Some (File content) ->
  parseFrontmatter content = Some (fm, body) ->
  fm_operation fm = Delete -> isSelfMod (fm_agent fm) = true ->
  isDir (fs w) (dirname filePath) = true ->
  isDir (fs w) (renamedPath filePath FAILED) = false ->
  isDir (fs w) (dirname (renamedPath filePath FAILED)) = true ->
  exists w',
    processSpecFile E filePath w = (Ok tt, w')
    /\ registry w' = registry w /\ tasks w' = tasks w
    /\ fs w' = <[renamedPath filePath FAILED :=
                   File (content ++ noteSeparator ++ cannotDeleteNote)]>
                 (delete filePath (fs w)).
Proof.
  intros Hfile Hparse Hop Hself Hdir Hnew Hnewdir.
  unfold processSpecFile. cbv zeta.
  rewrite !bind_run. cbn [log]. rewrite bind_run.
  unfold readFileSync. cbn [fs setLogs]. rewrite Hfile, Hparse, Hself, Hop.
  rewrite (bool_decide_eq_true_2 _ (eq_refl Delete)). cbn [andb negb].
  rewrite bind_run.
  rewrite (renameSpec_file filePath content FAILED (Some cannotDeleteNote))
    by assumption.
  eexists. split; [reflexivity|]. repeat split.
Qed.

(** The gate, and the approved path on a spec that does not spell the
    approval marker.  A create or modify spec whose agent, lower-cased, is
    one of the controller's own names is renamed to PENDING_APPROVAL with
    the note appended; the registry and the tasks are as they were, and the
    file system differs only in the spec file.  When the spec text does not
    contain the approval marker and the same content comes back on the
    approved path, the note is cut off, the spec parses to the same
    operation, agent and model with the body followed by one line feed, and
    the operation runs through the switch of the standard path inside the
    same try block, which ends with the APPLIED or the FAILED transition. *)
Lemma approval_gate_without_marker (E : Externals) (w : World)
    (filePath content body : str) (fm : SpecFrontmatter) :
  let pending := renamedPath filePath PENDING_APPROVAL in
  let noted := content ++ noteSeparator ++ pendingNote in
  let okLine := "  APPLIED (approved): " ++ operationName (fm_operation fm)
                ++ " " ++ fm_agent fm in
  let failLine := fun msg =>
    "  FAILED (approved): " ++ operationName (fm_operation fm) ++ " "
    ++ fm_agent fm ++ " - " ++ msg in
  fs w !! filePath = Some (File content) ->
  parseFrontmatter content = Some (fm, body) ->
  fm_operation fm <> Delete -> isSelfMod (fm_agent fm) = true ->
  isDir (fs w) (dirname filePath) = true ->
  isDir (fs w) pending = false ->
  isDir (fs w) (dirname pending) = true ->
  includes (content ++ [LF]) approvalMarker = false ->
  (exists w',
     processSpecFile E filePath w = (Ok tt, w')
     /\ registry w' = registry w /\ tasks w' = tasks w
     /\ fs w' = <[pending := File noted]> (delete filePath (fs w)))
  /\ (forall w2 approved,
        fs w2 !! approved = Some (File noted) ->
        processApprovedFile E approved w2
        = (log ("Processing approved: " ++ basename approved []) ;;
           applyAndMark approved
             (runOperation E (fm_operation fm) (fm_agent fm) (body ++ [LF])
                (fm_model fm))
             okLine failLine) w2
        /\ exists w3,
             processApprovedFile E approved w2
             = (renameSpec approved APPLIED None ;; log okLine) w3
             \/ exists msg,
                  processApprovedFile E approved w2
                  = (renameSpec approved FAILED (Some (errorNote msg)) ;;
                     log (failLine msg)) w3).
Proof.
  intros pending noted okLine failLine
    Hfile Hparse Hop Hself Hdir Hnew Hnewdir Hmarker.
  split.
  - unfold processSpecFile. cbv zeta.
    rewrite !bind_run. cbn [log]. rewrite bind_run.
    unfold readFileSync. cbn [fs setLogs]. rewrite Hfile, Hparse, Hself.
    rewrite (bool_decide_eq_false_2 _ Hop). cbn [andb negb].
    rewrite bind_run.
    rewrite (renameSpec_file filePath content PENDING_APPROVAL
               (Some pendingNote)) by assumption.
    eexists. split; [reflexivity|]. repeat split.
  - intros w2 approved Hfile2.
    assert (Hparse2 :
      parseFrontmatter (beforeFirst approvalMarker noted)
      = Some (fm, body ++ [LF])).
    { unfold noted. rewrite clean_pending_content by exact Hmarker.
      now apply parseFrontmatter_app_LF. }
    assert (Hrun :
      processApprovedFile E approved w2
      = (log ("Processing approved: " ++ basename approved []) ;;
         applyAndMark approved
           (runOperation E (fm_operation fm) (fm_agent fm) (body ++ [LF])
              (fm_model fm))
           okLine failLine) w2).
    { rewrite (processApprovedFile_parsed E approved noted (body ++ [LF]) fm)
        by assumption.
      destruct (fm_operation fm); [reflexivity|reflexivity|congruence]. }
    split; [exact Hrun|].
    rewrite Hrun, bind_run. cbn [log].
    apply applyAndMark_ends.
Qed.

(** The lemma at work: the controller asks to modify itself. *)
Example approval_gate_without_marker_at_work :
  let path := opsPath "modify-orchestrator.md" in
  let pending := opsPath "modify-orchestrator.PENDING_APPROVAL.md" in
  let noted := selfModifySpec ++ noteSeparator ++ pendingNote in
  (exists w',
     processSpecFile Demo.ext path selfModifyWorld = (Ok tt, w')
     /\ registry w' = registry selfModifyWorld
     /\ tasks w' = tasks selfModifyWorld
     /\ fs w' = <[pending := File noted]> (delete path (fs selfModifyWorld)))
  /\ forall w2 approved,
       fs w2 !! approved = Some (File noted) ->
       processApprovedFile Demo.ext approved w2
       = (log ("Processing approved: " ++ basename approved []) ;;
          applyAndMark approved
            (handleModify Demo.ext "Orchestrator" (selfModifyBody ++ [LF])
               (Some ("opus" : str)))
            "  APPLIED (approved): modify Orchestrator"
            (fun msg => "  FAILED (approved): modify Orchestrator - " ++ msg))
           w2.
Proof.
  cbv zeta.
  destruct (approval_gate_without_marker Demo.ext selfModifyWorld
              (opsPath "modify-orchestrator.md") selfModifySpec
              selfModifyBody selfModifyFrontmatter) as [Hgate Happroved].
  - vm_compute. reflexivity.
  - vm_compute. reflexivity.
  - discriminate.
  - vm_compute. reflexivity.
  - vm_compute. reflexivity.
  - vm_compute. reflexivity.
  - vm_compute. reflexivity.
  - vm_compute. reflexivity.
  - split.
    + exact Hgate.
    + intros w2 approved Hfile. apply (Happroved w2 approved Hfile).
Qed.

(** C2 does not hold of a spec that spells the approval marker itself: a
    rule line, a blank line, and a line that starts with the words of the
    notice.  The approved path cuts the file at the first such place, not
    at the notice that the gate appended.

    In [ruleSpec] the marker lies inside the text to append, and a mounts
    section follows it.  The spec is gated as usual; once approved, only
    the text before the marker is parsed again, the handler runs on that
    shortened body, and the file ends in APPLIED: the appended text stops at
    the marker and the mount is never registered.  The body of the spec as
    written, handed to the same handler, appends the whole text and
    registers the mount.

    In [markerSpec] the closing delimiter of the header and the first lines
    of the body form the marker.  Once approved, the cut removes the closing
    delimiter, the spec does not parse again, and the file ends in FAILED
    with no handler run. *)
Lemma C2_marker_in_spec_derails_approval :
  let approved := opsPath "modify-main.APPROVED.md" in
  let owner : str := "owner@s.whatsapp.net" in
  let document : str := "/srv/groups/main/CLAUDE.md" in
  let ruleNoted := ruleSpec ++ noteSeparator ++ pendingNote in
  let afterRule :=
    snd (processApprovedFile Demo.ext approved ruleApprovedWorld) in
  let asWritten := handleModify Demo.ext "main" ruleBody None controllerWorld in
  let markerNoted := markerSpec ++ noteSeparator ++ pendingNote in
  let afterMarker :=
    snd (processApprovedFile Demo.ext approved markerApprovedWorld) in
  ((fun r => (fm_operation (fst r), isSelfMod (fm_agent (fst r)), snd r))
     <$> parseFrontmatter ruleSpec = Some (Modify, true, ruleBody)
   /\ hostPath <$> declaredMounts ruleBody = ["/srv/reports" : str]
   /\ fs ruleApprovedWorld !! approved = Some (File ruleNoted)
   /\ mountsAt ruleApprovedWorld owner = []
   /\ (fun r => (fm_operation (fst r), fm_agent (fst r), snd r))
        <$> parseFrontmatter (beforeFirst approvalMarker ruleNoted)
      = Some (Modify, "main" : str,
              Demo.nl ["## Append to CLAUDE.md"; "Approval flow:"; []])
   /\ fs afterRule !! opsPath "modify-main.APPLIED.md" = Some (File ruleNoted)
   /\ fs afterRule !! opsPath "modify-main.FAILED.md" = None
   /\ fs afterRule !! document
      = Some (File (Demo.nl ["# Orchestrator"; []; "Approval flow:"; []]))
   /\ mountsAt afterRule owner = []
   /\ fst asWritten = Ok tt
   /\ fs (snd asWritten) !! document
      = Some (File (Demo.nl
                ["# Orchestrator"; []; "Approval flow:"; []; "---"; [];
                 "**Pending owner approval** means: wait for the owner."; []]))
   /\ hostPath <$> mountsAt (snd asWritten) owner = ["/srv/reports" : str])
  /\ ((fun r => (fm_operation (fst r), isSelfMod (fm_agent (fst r))))
        <$> parseFrontmatter markerSpec = Some (Modify, true)
      /\ fs markerApprovedWorld !! approved = Some (File markerNoted)
      /\ parseFrontmatter (beforeFirst approvalMarker markerNoted) = None
      /\ fs afterMarker !! opsPath "modify-main.FAILED.md"
         = Some (File (markerNoted ++ noteSeparator
                       ++ "**Error:** Could not re-parse spec after approval."))
      /\ fs afterMarker !! opsPath "modify-main.APPLIED.md" = None
      /\ logs afterMarker
         = logs markerApprovedWorld
           ++ ["Processing approved: modify-main.APPROVED.md" : str]
      /\ fs afterMarker !! document = Some (File "# Orchestrator")).
Proof. vm_compute. repeat split; reflexivity. Qed.

(** C10.  A markdown file whose name carries the [.APPROVED.] marker, and
    none of the other three, goes to the approved path whatever its name
    starts with.  When the spec in it parses to a delete, no handler runs:
    the registry and the tasks are as they were, and the only change to the
    file system is that the file is renamed to APPLIED. *)
Theorem C10_approved_delete_marked_applied (E : Externals) (w : World)
    (file content body : str) (fm : SpecFrontmatter) :
  let filePath := pjoin [AGENT_OPS_DIR E; file] in
  let applied := renamedPath filePath APPLIED in
  endsWith file ".md" = true ->
  includes file ".APPLIED." = false ->
  includes file ".FAILED." = false ->
  includes file ".PENDING_APPROVAL." = false ->
  includes file ".APPROVED." = true ->
  fs w !! filePath = Some (File content) ->
  parseFrontmatter (beforeFirst approvalMarker content) = Some (fm, body) ->
  fm_operation fm = Delete ->
  isDir (fs w) applied = false ->
  isDir (fs w) (dirname applied) = true ->
  pollEntry E file = processApprovedFile E filePath
  /\ processApprovedFile E filePath w
     = (log ("Processing approved: " ++ basename filePath []) ;;
        renameSpec filePath APPLIED None ;;
        log ("  APPLIED (approved): delete " ++ fm_agent fm)) w
  /\ exists w',
       pollEntry E file w = (Ok tt, w')
       /\ registry w' = registry w /\ tasks w' = tasks w
       /\ fs w' = <[applied := File content]> (delete filePath (fs w)).
Proof.
  intros filePath applied Hmd Happlied Hfailed Hpending Happroved
    Hfile Hparse Hop Hnew Hnewdir.
  assert (Hroute : pollEntry E file = processApprovedFile E filePath).
  { unfold pollEntry, classify.
    now rewrite Hmd, Happlied, Hfailed, Hpending, Happroved. }
  pose proof (renameSpec_plain filePath content APPLIED
                (setLogs w (logs w ++ ["Processing approved: "
                                       ++ basename filePath []]))
                Hfile Hnew Hnewdir) as Hrename.
  assert (Hrun :
    processApprovedFile E filePath w
    = (log ("Processing approved: " ++ basename filePath []) ;;
       renameSpec filePath APPLIED None ;;
       log ("  APPLIED (approved): delete " ++ fm_agent fm)) w).
  { rewrite (processApprovedFile_parsed E filePath content body fm)
      by assumption.
    rewrite Hop.
    unfold applyAndMark, tryCatch, bind, log, runApprovedOperation, ret.
    now rewrite Hrename. }
  split; [exact Hroute|]. split; [exact Hrun|].
  rewrite Hroute, Hrun. unfold bind, log. rewrite Hrename.
  eexists. split; [reflexivity|]. repeat split.
Qed.

(** The theorem at work: a file marked APPROVED asks to delete [billing],
    which stays registered. *)
Lemma C10_approved_delete_marked_applied_witness :
  let file : str := "delete-billing.APPROVED.md" in
  exists w',
    pollEntry Demo.ext file approvedDeleteWorld = (Ok tt, w')
    /\ registry w' = registry approvedDeleteWorld
    /\ tasks w' = tasks approvedDeleteWorld
    /\ fs w' = <[opsPath "delete-billing.APPLIED.md" :=
                   File deleteBillingSpec]>
                 (delete (opsPath file) (fs approvedDeleteWorld)).
Proof.
  cbv zeta.
  destruct (C10_approved_delete_marked_applied Demo.ext approvedDeleteWorld
              "delete-billing.APPROVED.md" deleteBillingSpec []
              deleteBillingFrontmatter) as (_ & _ & Hend).
  - vm_compute. reflexivity.
  - vm_compute. reflexivity.
  - vm_compute. reflexivity.
  - vm_compute. reflexivity.
  - vm_compute. reflexivity.
  - vm_compute. reflexivity.
  - vm_compute. reflexivity.
  - reflexivity.
  - vm_compute. reflexivity.
  - vm_compute. reflexivity.
  - exact Hend.
Defined.

(** C6 at the failing input: the delete spec aimed at the controller sits in
    a file marked APPROVED.  One poll leaves it marked APPLIED, not FAILED;
    on the standard path the same spec ends in FAILED. *)
Lemma C6_approved_self_delete_marked_applied :
  let w1 := snd (poll Demo.ext approvedSelfDeleteWorld) in
  let w2 := snd (poll Demo.ext standardSelfDeleteWorld) in
  fst (poll Demo.ext approvedSelfDeleteWorld) = Ok tt
  /\ isSome (fs w1 !! opsPath "delete-main.APPLIED.md") = true
  /\ isSome (fs w1 !! opsPath "delete-main.FAILED.md") = false
  /\ isSome (fs w2 !! opsPath "delete-main.FAILED.md") = true
  /\ isSome (fs w2 !! opsPath "delete-main.APPLIED.md") = false.
Proof. vm_compute. repeat split; reflexivity. Qed.

(** ** A cron expression that the parser rejects *)






Section BadSchedule.

Variable E : Externals.
Variables (body tasksSection : str) (pre post : list record) (item : record).
Variables (cron msg : str).

Hypothesis Hsection : parseSection body H_TASKS = Some tasksSection.
Hypothesis Hitems : parseYamlList tasksSection = pre ++ item :: post.
Hypothesis Hcron : field2 item "cron" "schedule" = Some cron.
Hypothesis Hfilled : cron <> [].
Hypothesis Hprompt : promptOf item <> [].
Hypothesis Hrejected : forall now, cronNext E cron now = inr msg.












End BadSchedule.



(** ** What the isolation check lets through *)

Section ValidatorEdges.

Variable E : Externals.
Hypothesis Habs : absolutePath (GROUPS_DIR E).

Lemma partitionRoot_text (s : str) :
  s ∈ PARTITIONS ->
  partitionRoot E s = GROUPS_DIR E ++ "/main/shared" ++ "/" ++ s.
Proof.
  intros Hs. rewrite partitionRoot_absolute
    by (try exact Habs; now apply PARTITIONS_plain).
  destruct (SHARED_DIR_absolute E Habs) as [-> _].
  now rewrite <- app_assoc.
Qed.

(** The partition roots differ in the first character of their last
    segment, so a path below one root is below no other. *)
Lemma roots_apart (s s' r : str) :
  s ∈ PARTITIONS -> s' ∈ PARTITIONS -> s' <> s ->
  startsWith (partitionRoot E s ++ r) (partitionRoot E s' ++ "/") = false.
Proof.
  intros Hs Hs' Hne. rewrite !partitionRoot_text by assumption.
  rewrite <- !app_assoc, startsWith_cancel.
  change ("/main/shared" ++ "/" ++ s ++ r)
    with ("/main/shared/" ++ s ++ r).
  change ("/main/shared" ++ "/" ++ s' ++ "/")
    with ("/main/shared/" ++ s' ++ "/").
  rewrite startsWith_cancel.
  unfold PARTITIONS in Hs, Hs'. rewrite !elem_of_cons in Hs, Hs'.
  destruct Hs as [->|[->|[->|Hs]]]; [| | |inversion Hs];
    destruct Hs' as [->|[->|[->|Hs']]];
    try congruence; try reflexivity; inversion Hs'.
Qed.

Lemma crossing_outside (A hp s : str) :
  startsWith hp (partitionRoot E s ++ "/") = false ->
  crossing E A hp s = None.
Proof. intros H. unfold crossing. cbv zeta. now rewrite H. Qed.

Lemma checkMount_all_None (A hp : str) (subdirs : list str) :
  (forall s, s ∈ subdirs -> crossing E A hp s = None) ->
  checkMount E A hp subdirs = None.
Proof.
  induction subdirs as [|s more IH]; intros H; [reflexivity|].
  cbn [checkMount]. rewrite (H s) by (rewrite elem_of_cons; auto).
  apply IH. intros s' Hs'. apply H. rewrite elem_of_cons. auto.
Qed.

Lemma crossing_own (A s r : str) :
  "/"%char ∉ A -> (r = [] \/ exists r', r = "/"%char :: r') ->
  crossing E A (partitionRoot E s ++ "/" ++ A ++ r) s = None.
Proof.
  intros HA Hr. unfold crossing. cbv zeta.
  rewrite (app_assoc (partitionRoot E s) "/"), startsWith_app.
  replace (length (partitionRoot E s) + 1)
    with (length (partitionRoot E s ++ "/"))
    by (rewrite length_app; reflexivity).
  rewrite drop_app_length.
  destruct (splitChar_head A r HA Hr) as (more & ->).
  rewrite (bool_decide_eq_true_2 _ (eq_refl A)).
  now rewrite andb_false_r.
Qed.

Lemma checkMount_own (A s r : str) :
  "/"%char ∉ A -> (r = [] \/ exists r', r = "/"%char :: r') ->
  s ∈ PARTITIONS ->
  checkMount E A (partitionRoot E s ++ "/" ++ A ++ r) PARTITIONS = None.
Proof.
  intros HA Hr Hs. apply checkMount_all_None. intros s' Hs'.
  destruct (decide (s' = s)) as [->|Hne]; [now apply crossing_own|].
  apply crossing_outside. now apply roots_apart.
Qed.

Lemma shorter_outside (A hp : str) :
  length hp <= length (GROUPS_DIR E ++ "/main/shared") ->
  checkMount E A hp PARTITIONS = None.
Proof.
  intros Hlen. apply checkMount_all_None. intros s Hs.
  apply crossing_outside, startsWith_short.
  rewrite partitionRoot_text by exact Hs.
  rewrite !length_app in *.
  change (length ("/main/shared" : str)) with 12 in *.
  change (length ("/" : str)) with 1. lia.
Qed.

Lemma checkMount_root (A s : str) :
  s ∈ PARTITIONS -> checkMount E A (partitionRoot E s) PARTITIONS = None.
Proof.
  intros Hs. apply checkMount_all_None; intros s' Hs'.
  destruct (decide (s' = s)) as [->|Hne].
  - apply crossing_outside, startsWith_short.
    rewrite length_app. change (length ("/" : str)) with 1. lia.
  - apply crossing_outside.
    rewrite <- (app_nil_r (partitionRoot E s)). now apply roots_apart.
Qed.

(** Below a partition root, an empty first segment names no agent. *)
Lemma checkMount_empty_segment (A s r : str) :
  s ∈ PARTITIONS -> (r = [] \/ exists r', r = "/"%char :: r') ->
  checkMount E A (partitionRoot E s ++ "/" ++ r) PARTITIONS = None.
Proof.
  intros Hs Hr. apply checkMount_all_None; intros s' Hs'.
  destruct (decide (s' = s)) as [->|Hne].
  - unfold crossing. cbv zeta.
    rewrite (app_assoc (partitionRoot E s) "/"), startsWith_app.
    replace (length (partitionRoot E s) + 1)
      with (length (partitionRoot E s ++ "/"))
      by (rewrite length_app; reflexivity).
    rewrite drop_app_length.
    destruct Hr as [->|(r' & ->)]; [reflexivity|].
    cbn [splitChar]. rewrite (proj2 (ascii_eqb_true "/" "/") eq_refl).
    reflexivity.
  - apply crossing_outside. now apply roots_apart.
Qed.

End ValidatorEdges.

(** X1.  Every path written as the root of one of [A]'s own partitions
    followed by a separator and any text passes the isolation check for
    [A]: the check reads the segment after the partition root and nothing
    behind it, and it does not normalize the path.  A path that leaves the
    partition again through parent segments is accepted with the others. *)
Theorem X1_own_partition_text_accepted (E : Externals) (A : str)
    (mounts : list Mount) :
  absolutePath (GROUPS_DIR E) -> "/"%char ∉ A ->
  Forall (fun m => exists s rest,
            s ∈ PARTITIONS
            /\ hostPath m = partitionRoot E s ++ "/" ++ A ++ "/" ++ rest)
         mounts ->
  validateMountsIsolation E A mounts = None.
Proof.
  intros Habs HA Hall.
  induction Hall as [|m more (s & rest & Hs & Hhp) _ IH]; [reflexivity|].
  cbn [validateMountsIsolation]. rewrite Hhp.
  rewrite (checkMount_own E Habs A s ("/" ++ rest)); [exact IH|exact HA| |exact Hs].
  right. now exists rest.
Qed.

(** The theorem at work: a path that starts in the tasks partition of
    [billing] and ends in the inbox of [other]. *)
Lemma X1_own_partition_text_accepted_witness :
  normalize escapingPath = "/srv/groups/main/shared/tasks/other/inbox"
  /\ validateMountsIsolation Demo.ext "billing" [mountAt escapingPath] = None.
Proof.
  split; [vm_compute; reflexivity|].
  apply (X1_own_partition_text_accepted Demo.ext "billing").
  - apply demo_GROUPS_DIR_absolute.
  - exact (proj2 (plainSegment_plainName "billing" eq_refl)).
  - constructor; [|constructor].
    exists ("tasks" : str), ("../other/inbox" : str).
    split; [unfold PARTITIONS; rewrite !elem_of_cons; auto|].
    vm_compute. reflexivity.
Defined.

(** X2.  The file-system root, the groups directory, the shared directory
    and each partition root pass the isolation check for every agent, and so
    does a path that goes on below a partition root with an empty segment,
    that is the root with a trailing separator or with a doubled one before
    the rest: the check names an agent only when the segment after the
    partition root is not empty. *)
Theorem X2_enclosing_directories_accepted (E : Externals) (A hp : str) :
  absolutePath (GROUPS_DIR E) ->
  hp = "/" \/ hp = GROUPS_DIR E \/ hp = SHARED_DIR E
  \/ (exists s, s ∈ PARTITIONS /\ hp = partitionRoot E s)
  \/ (exists s r, s ∈ PARTITIONS
                  /\ hp = partitionRoot E s ++ "/" ++ r
                  /\ (r = [] \/ exists r', r = "/"%char :: r')) ->
  validateMountsIsolation E A [mountAt hp] = None.
Proof.
  intros Habs Hhp. cbn [validateMountsIsolation mountAt hostPath].
  enough (Hc : checkMount E A hp PARTITIONS = None) by now rewrite Hc.
  destruct Hhp as [->|[->|[->|[(s & Hs & ->)|(s & r & Hs & -> & Hr)]]]].
  - apply (shorter_outside E Habs). rewrite length_app.
    change (length ("/main/shared" : str)) with 12.
    change (length ("/" : str)) with 1. lia.
  - apply (shorter_outside E Habs). rewrite length_app. lia.
  - apply (shorter_outside E Habs).
    now destruct (SHARED_DIR_absolute E Habs) as [-> _].
  - now apply (checkMount_root E Habs).
  - now apply (checkMount_empty_segment E Habs).
Qed.

(** The theorem at work: the whole tasks directory as a mount of
    [billing], and the inbox of [other] behind a doubled separator. *)
Lemma X2_enclosing_directories_accepted_witness :
  validateMountsIsolation Demo.ext "billing"
    [mountAt "/srv/groups/main/shared/tasks"] = None
  /\ validateMountsIsolation Demo.ext "billing"
       [mountAt "/srv/groups/main/shared/tasks//other/inbox"] = None.
Proof.
  split; apply (X2_enclosing_directories_accepted Demo.ext "billing");
    try apply demo_GROUPS_DIR_absolute.
  - right. right. right. left. exists ("tasks" : str).
    split; [unfold PARTITIONS; rewrite !elem_of_cons; auto|].
    vm_compute. reflexivity.
  - right. right. right. right.
    exists ("tasks" : str), ("/other/inbox" : str).
    split; [unfold PARTITIONS; rewrite !elem_of_cons; auto|].
    split; [vm_compute; reflexivity|]. right. now exists ("other/inbox" : str).
Defined.

(** X26.  The four default mounts of an agent pass the isolation check
    for that agent, so the check of a create decides on the mounts that the
    body declares and on nothing else. *)
Theorem X26_default_mounts_pass (E : Externals) (A : str)
    (declared : list Mount) :
  absolutePath (GROUPS_DIR E) -> plainSegment A = true ->
  validateMountsIsolation E A (standardMounts E A ++ declared)
  = validateMountsIsolation E A declared.
Proof.
  intros Habs HA. apply validate_app_None.
  assert (Hfree : "/"%char ∉ A) by (now apply plainSegment_inv in HA).
  assert (Hpart : forall s, s ∈ PARTITIONS ->
            checkMount E A (pjoin [SHARED_DIR E; s; A]) PARTITIONS = None).
  { intros s Hs. rewrite (standard_mount_path E Habs A s HA Hs).
    rewrite <- (app_nil_r A) at 2.
    apply (checkMount_own E Habs A s []); [exact Hfree|now left|exact Hs]. }
  unfold standardMounts. cbn [validateMountsIsolation hostPath].
  rewrite !Hpart by (unfold PARTITIONS; rewrite !elem_of_cons; auto).
  rewrite (shorter_outside E Habs); [reflexivity|].
  now destruct (SHARED_DIR_absolute E Habs) as [-> _].
Qed.

(** The theorem at work on the mounts of [billing] and a mount in the
    partition of [other]. *)
Lemma X26_default_mounts_pass_witness :
  validateMountsIsolation Demo.ext "billing"
    (standardMounts Demo.ext "billing" ++ [crossMount])
  = validateMountsIsolation Demo.ext "billing" [crossMount].
Proof.
  apply (X26_default_mounts_pass Demo.ext "billing" [crossMount]).
  - apply demo_GROUPS_DIR_absolute.
  - reflexivity.
Defined.

(** ** Section headings and section ends *)

Section HeadingFacts.

Lemma run_lits_fold (s : str) :
  forall (w rest : str) (k : kont) (i : nat) (prev : option ascii)
         (caps : list (nat * nat)),
    map upperAsciiChar w = map upperAsciiChar s ->
    run flagsIM (lits s) k i prev (w ++ rest) caps
    = k (i + length s) (lastPrev prev w) rest caps.
Proof.
  induction s as [|c s IH]; intros w rest k i prev caps Hw.
  - destruct w; [|discriminate]. cbn [lits run app length lastPrev fold_left].
    now rewrite Nat.add_0_r.
  - destruct w as [|d w]; [discriminate|].
    cbn [map] in Hw. injection Hw as Hd Hw.
    assert (Hlit : litMatches flagsIM c d = true).
    { unfold litMatches. cbn [ignoreCase flagsIM]. rewrite Hd.
      now apply ascii_eqb_true. }
    destruct s as [|c2 s].
    + destruct w; [|discriminate].
      cbn [lits run app length]. rewrite Hlit.
      now replace (i + 1) with (S i) by lia.
    + change (lits (c :: c2 :: s)) with (Seq (Lit c) (lits (c2 :: s))).
      cbn [run]. change ((d :: w) ++ rest) with (d :: (w ++ rest)).
      cbn iota. rewrite Hlit. rewrite (IH w rest k (S i) (Some d) caps Hw).
      f_equal. cbn [length]. lia.
Qed.

Lemma starGreedy_some (p : ascii -> bool) (k : kont) (i : nat)
    (prev : option ascii) (s : str) (caps : list (nat * nat)) :
  isSome (k i prev s caps) = true ->
  isSome (starGreedy p k i prev s caps) = true.
Proof.
  intros Hk. destruct s as [|c s]; cbn [starGreedy]; [exact Hk|].
  destruct (p c); [|exact Hk].
  now destruct (starGreedy p k (S i) (Some c) s caps).
Qed.

Lemma starGreedy_spaces (ws tail : str) (i : nat) (prev : option ascii)
    (caps : list (nat * nat)) :
  forallb isSpace ws = true -> atEol flagsIM tail = true ->
  isSome (starGreedy isSpace (run flagsIM Eol accept) i prev (ws ++ tail) caps)
  = true.
Proof.
  intros Hws Htail. revert i prev Hws.
  induction ws as [|c ws IH]; intros i prev Hws.
  - apply starGreedy_some. cbn [app run]. now rewrite Htail.
  - cbn [forallb] in Hws. apply andb_true_iff in Hws as [Hc Hws].
    cbn [app starGreedy]. rewrite Hc.
    specialize (IH (S i) (Some c) Hws).
    now destruct (starGreedy isSpace (run flagsIM Eol accept) (S i)
                    (Some c) (ws ++ tail) caps).
Qed.

Lemma execFrom_later (fl : flags) (r : re) (pre s : str) :
  (forall i prev, isSome (run fl r accept i prev s []) = true) ->
  forall i prev, isSome (execFrom fl r i prev (pre ++ s)) = true.
Proof.
  intros Hs. induction pre as [|c pre IH]; intros i prev.
  - cbn [app]. specialize (Hs i prev).
    destruct s; cbn [execFrom];
      destruct (run fl r accept i prev _ []) as [[j caps]|];
      try reflexivity; discriminate.
  - cbn [app execFrom].
    destruct (run fl r accept i prev (c :: pre ++ s) []) as [[j caps]|];
      [reflexivity|apply IH].
Qed.

Lemma run_alt_right (fl : flags) (a b : re) (i : nat) (prev : option ascii)
    (s : str) :
  isSome (run fl b accept i prev s []) = true ->
  isSome (run fl (Alt a b) accept i prev s []) = true.
Proof.
  intros Hb. cbn [run]. now destruct (run fl a accept i prev s []).
Qed.

(** X3.  The headings ['API Keys|Env|Environment'] and
    ['Scheduled Tasks|Tasks'] are spliced into the pattern as text, where
    the alternation splits the whole pattern: the anchor and the ['##'] belong
    to the first alternative only.  So the environment section is found
    wherever the body holds the letters of [Env], in either case, and the
    tasks section wherever a line ends with the letters of [Tasks],
    followed by white space or not. *)
Theorem X3_alternative_headings_match_bare_words (pre w post : str) :
  (map upperAsciiChar w = "ENV" ->
   sectionPresent (pre ++ w ++ post) H_ENV = true)
  /\ (map upperAsciiChar w = "TASKS" ->
      forall ws tail,
        post = ws ++ tail -> forallb isSpace ws = true ->
        tail = [] \/ (exists rest, tail = LF :: rest) ->
        sectionPresent (pre ++ w ++ post) H_TASKS = true).
Proof.
  split.
  - intros Hw. unfold sectionPresent, exec. apply execFrom_later.
    intros i prev. unfold H_ENV, headingRegex.
    apply run_alt_right. cbn [headingTail].
    cbn [run]. rewrite (run_lits_fold "Env" w post accept i prev [] Hw).
    reflexivity.
  - intros Hw ws tail -> Hws Htail. unfold sectionPresent, exec.
    apply execFrom_later.
    intros i prev. unfold H_TASKS, headingRegex.
    apply run_alt_right. cbn [headingTail].
    cbn [run].
    rewrite (run_lits_fold "Tasks" w (ws ++ tail) _ i prev [] Hw).
    apply starGreedy_spaces; [exact Hws|].
    destruct Htail as [->|(rest & ->)]; reflexivity.
Qed.

(** The theorem at work: a body with no environment section and no tasks
    section.  The word [environment] in its instruction document opens the
    environment section, the list below it names a key of the secret store,
    and the secret enters the settings of the new agent. *)
Lemma X3_alternative_headings_match_bare_words_witness :
  sectionPresent proseBody H_ENV = true
  /\ sectionPresent ("Finish the open tasks" ++ [LF] ++ "first.") H_TASKS = true
  /\ getKey "EXA_API_KEY" (createEnvVars Demo.ext proseBody None)
     = Some ("exa-secret" : str).
Proof.
  split; [|split].
  - apply (proj1 (X3_alternative_headings_match_bare_words
                    ("## CLAUDE.md" ++ [LF] ++ "You work in the staging ")
                    "env"
                    ("ironment." ++ [LF] ++ "- key: EXA_API_KEY" ++ [LF]))).
    reflexivity.
  - apply (proj2 (X3_alternative_headings_match_bare_words
                    "Finish the open " "tasks" ([LF] ++ "first."))
             eq_refl [] ([LF] ++ "first.")); [reflexivity|reflexivity|].
    right. now exists ("first." : str).
  - vm_compute. reflexivity.
Defined.

Lemma findSectionEnd_None (lines : list str) (b : bool) (pos : nat) :
  findSectionEnd lines b pos = None ->
  forall k line, lines !! k = Some line -> startsWith line "## " = true ->
    xorb b (insideFence lines k) = true.
Proof.
  revert b pos. induction lines as [|line more IH]; intros b pos H k l Hk Hh.
  - discriminate.
  - cbn [findSectionEnd] in H. revert H.
    destruct (startsWith line fence) eqn:Hf; intros H.
    + destruct k as [|k].
      * injection Hk as <-. rewrite (fence_not_heading _ Hf) in Hh.
        discriminate.
      * rewrite insideFence_cons_fence by exact Hf.
        specialize (IH _ _ H k l Hk Hh).
        destruct b, (insideFence more k); simpl in *; congruence.
    + revert H. destruct (negb b && startsWith line "## ") eqn:Hb; intros H;
        [discriminate|].
      destruct k as [|k].
      * injection Hk as <-. rewrite Hh in Hb.
        destruct b; [reflexivity|discriminate].
      * rewrite insideFence_cons_plain by exact Hf.
        apply (IH _ _ H k l Hk Hh).
Qed.

Lemma join_splitChar (c : ascii) (s : str) : join [c] (splitChar c s) = s.
Proof.
  induction s as [|d s IH]; [reflexivity|].
  cbn [splitChar]. destruct (Ascii.eqb d c) eqn:Hd.
  - apply ascii_eqb_true in Hd as ->.
    destruct (splitChar c s) as [|h t] eqn:Hs;
      [now apply splitChar_nonempty in Hs|].
    rewrite join_cons2, IH. reflexivity.
  - destruct (splitChar c s) as [|h t] eqn:Hs;
      [now apply splitChar_nonempty in Hs|].
    destruct t as [|h2 t].
    + cbn [join] in *. now rewrite IH.
    + rewrite join_cons2 in *. rewrite <- IH. reflexivity.
Qed.

Lemma join_linesBefore (lines : list str) (k : nat) :
  k < length lines ->
  join [LF] lines = linesBefore lines k ++ join [LF] (drop k lines).
Proof.
  revert k. induction lines as [|x rest IH]; intros k Hk;
    [cbn [length] in Hk; lia|].
  destruct k as [|k]; [reflexivity|].
  cbn [length] in Hk. destruct rest as [|y rest]; [cbn [length] in Hk; lia|].
  rewrite join_cons2, (IH k) by lia.
  unfold linesBefore. cbn [take fmap list_fmap concat drop].
  now rewrite <- !app_assoc.
Qed.

Lemma linesBefore_length (lines : list str) (k : nat) :
  length (linesBefore lines k) = lineOffset lines k.
Proof.
  unfold linesBefore, lineOffset. revert k.
  induction lines as [|x rest IH]; intros [|k]; try reflexivity.
  cbn [take fmap list_fmap concat sum_list sum_list_with].
  rewrite length_app, length_app, IH. reflexivity.
Qed.

Lemma take_lineOffset (rest : str) (k : nat) :
  k < length (splitChar LF rest) ->
  take (lineOffset (splitChar LF rest) k) rest
  = linesBefore (splitChar LF rest) k.
Proof.
  intros Hk. rewrite <- linesBefore_length.
  rewrite <- (join_splitChar LF rest) at 2.
  rewrite (join_linesBefore _ k Hk). apply take_app_length.
Qed.

(** X4.  The text of a section runs from the end of its heading line to the
    first later line that starts with ['## '] and is not nested inside a
    fenced block, and holds exactly the lines before that one; when there is
    no such line it runs to the end of the body.  A ['## '] line between two
    fence lines never ends the section. *)
Theorem X4_section_runs_to_first_open_heading (rest : str) :
  let lines := splitChar LF rest in
  (exists k, openHeading lines k
             /\ (forall j, j < k -> ~ openHeading lines j)
             /\ sectionText rest = linesBefore lines k)
  \/ ((forall k, ~ openHeading lines k) /\ sectionText rest = rest).
Proof.
  intros lines. unfold sectionText. fold lines.
  destruct (findSectionEnd lines false 0) as [e|] eqn:He.
  - left. apply findSectionEnd_Some in He
      as (k & line & Hk & Hh & Hx & -> & Hmin).
    exists k. split; [|split].
    + exists line. auto.
    + intros j Hj (l & Hl & Hhl & Hin).
      specialize (Hmin j l Hj Hl Hhl). cbn [xorb] in Hmin. congruence.
    + cbn [Nat.add]. apply take_lineOffset.
      now apply lookup_lt_Some in Hk.
  - right. split; [|reflexivity].
    intros k (l & Hl & Hhl & Hin).
    pose proof (findSectionEnd_None _ _ _ He k l Hl Hhl) as Hx.
    cbn [xorb] in Hx. congruence.
Qed.

End HeadingFacts.

(** ** The list parser *)

Section YamlFacts.

Lemma parseYamlList_itemsOf (text : str) :
  parseYamlList text
  = itemsOf (fold_left yamlStep (splitChar LF text) ([], None)).
Proof.
  unfold parseYamlList, itemsOf.
  now destruct (fold_left yamlStep (splitChar LF text) ([], None))
    as [items [c|]].
Qed.

(** What one line does to the loop state. *)
Lemma yamlStep_opens (st : list record * option record) (line : str) :
  opensItem line = true ->
  yamlStep st line
  = (itemsOf st, Some (assignKeyValue [] (drop 2 (trim line)))).
Proof.
  unfold opensItem, yamlStep, itemsOf. intros H.
  destruct st as [items [c|]]; cbv zeta; rewrite H; reflexivity.
Qed.

Lemma yamlStep_continues (st : list record * option record) (line : str) :
  opensItem line = false ->
  fst (yamlStep st line) = fst st
  /\ (snd st = None -> snd (yamlStep st line) = None)
  /\ (forall c, snd st = Some c ->
        exists c', snd (yamlStep st line) = Some c').
Proof.
  unfold opensItem, yamlStep. intros H.
  destruct st as [items [c|]]; cbv zeta; rewrite H; cbn [fst snd].
  - destruct (includes (trim line) ":"); cbn [fst snd];
      (split; [reflexivity|]); (split; [discriminate|]);
      intros c0 [= <-]; eexists; reflexivity.
  - split; [reflexivity|]. split; [reflexivity|discriminate].
Qed.

Lemma yaml_fold_count (lines : list str) :
  forall st,
    length (itemsOf (fold_left yamlStep lines st))
    = length (itemsOf st)
      + length (filter (fun l => opensItem l = true) lines).
Proof.
  induction lines as [|line lines IH]; intros st.
  - cbn [fold_left]. rewrite filter_nil. cbn [length]. lia.
  - cbn [fold_left]. rewrite IH. rewrite filter_cons.
    destruct (decide (opensItem line = true)) as [Ho|Ho].
    + rewrite (yamlStep_opens st line Ho). unfold itemsOf at 1.
      cbn [fst snd length]. rewrite length_app. cbn [length]. lia.
    + apply not_true_is_false in Ho.
      destruct (yamlStep_continues st line Ho) as (Hf & Hn & Hs).
      enough (length (itemsOf (yamlStep st line)) = length (itemsOf st))
        by lia.
      unfold itemsOf. rewrite Hf.
      destruct (snd st) as [c|] eqn:Hc.
      * destruct (Hs c eq_refl) as (c' & ->).
        now rewrite !length_app.
      * now rewrite (Hn eq_refl).
Qed.

(** The finished items are a prefix that later lines never touch. *)
Lemma yaml_fold_prefix (lines : list str) :
  forall items current,
    itemsOf (fold_left yamlStep lines (items, current))
    = items ++ itemsOf (fold_left yamlStep lines ([], current)).
Proof.
  induction lines as [|line lines IH]; intros items current.
  - unfold itemsOf. cbn [fold_left fst snd].
    destruct current; [reflexivity|now rewrite app_nil_r].
  - cbn [fold_left].
    destruct (opensItem line) eqn:Ho.
    + rewrite !(yamlStep_opens _ line Ho).
      rewrite (IH (itemsOf (items, current))),
              (IH (itemsOf ([], current))).
      generalize (itemsOf (fold_left yamlStep lines
                    ([], Some (assignKeyValue [] (drop 2 (trim line)))))).
      intros done. unfold itemsOf. cbn [fst snd].
      destruct current; cbn [app]; now rewrite <- ?app_assoc.
    + unfold yamlStep. unfold opensItem in Ho. cbv zeta. rewrite !Ho.
      destruct current as [c|]; [|apply IH].
      destruct (includes (trim line) ":"); apply IH.
Qed.

Lemma splitChar_app (c : ascii) (a b : str) :
  splitChar c (a ++ c :: b) = splitChar c a ++ splitChar c b.
Proof.
  induction a as [|d a IH].
  - cbn [app splitChar]. now rewrite (proj2 (ascii_eqb_true c c) eq_refl).
  - cbn [app splitChar]. rewrite IH.
    destruct (Ascii.eqb d c); [reflexivity|].
    destruct (splitChar c a) as [|h t] eqn:Hs;
      [now apply splitChar_nonempty in Hs|reflexivity].
Qed.

End YamlFacts.

(** X5.  The list parser returns one item for every line that, trimmed,
    starts with ['- '] and holds a colon, and nothing else makes an item: a
    text without such a line, the empty text among them, gives the empty
    list. *)
Theorem X5_yaml_items_counted (text : str) :
  length (parseYamlList text)
  = length (filter (fun l => opensItem l = true) (splitChar LF text)).
Proof. rewrite parseYamlList_itemsOf. now rewrite yaml_fold_count. Qed.

(** X6.  Parsing distributes over a line break that is followed by the
    opening line of an item: the items of the text before the break, then
    the items of the text after it.  In particular the lines before the
    first opening line add nothing. *)
Theorem X6_yaml_items_concatenate (a b line : str) (more : list str) :
  splitChar LF b = line :: more -> opensItem line = true ->
  parseYamlList (a ++ LF :: b) = parseYamlList a ++ parseYamlList b.
Proof.
  intros Hb Ho. rewrite !parseYamlList_itemsOf.
  rewrite splitChar_app, fold_left_app, Hb. cbn [fold_left].
  rewrite !(yamlStep_opens _ line Ho).
  rewrite yaml_fold_prefix.
  generalize (fold_left yamlStep (splitChar LF a) ([], None)).
  intros st. unfold itemsOf at 3. cbn [fst snd app].
  reflexivity.
Qed.

(** The theorem at work on two mounts, one per item. *)
Lemma X6_yaml_items_concatenate_witness :
  parseYamlList ("- host: /a" ++ [LF] ++ "  readonly: yes" ++ [LF]
                 ++ "- host: /b")
  = parseYamlList ("- host: /a" ++ [LF] ++ "  readonly: yes")
    ++ parseYamlList "- host: /b".
Proof.
  apply (X6_yaml_items_concatenate
           ("- host: /a" ++ [LF] ++ "  readonly: yes") "- host: /b"
           "- host: /b" []); reflexivity.
Defined.

(** ** The header of a spec *)

Section HeaderFacts.

Lemma findSep_unfold (sep s : str) :
  findSep sep s
  = if startsWith s sep then Some 0
    else match s with
         | [] => None
         | _ :: s' => S <$> findSep sep s'
         end.
Proof. destruct s; reflexivity. Qed.

(** The first occurrence is an occurrence, and nothing occurs before it. *)
Lemma findSep_first (sep s : str) (d : nat) :
  findSep sep s = Some d ->
  startsWith (drop d s) sep = true
  /\ forall j, j < d -> startsWith (drop j s) sep = false.
Proof.
  revert d. induction s as [|c s IH]; intros d; rewrite findSep_unfold.
  - destruct (startsWith [] sep) eqn:H; [|discriminate].
    intros [= <-]. split; [exact H|]. intros j Hj. lia.
  - destruct (startsWith (c :: s) sep) eqn:H.
    + intros [= <-]. split; [exact H|]. intros j Hj. lia.
    + destruct (findSep sep s) as [d'|]; [|discriminate].
      intros [= <-]. destruct (IH d' eq_refl) as [Hat Hmin].
      split; [exact Hat|]. intros [|j] Hj; [exact H|].
      apply Hmin. lia.
Qed.

Lemma splitFrontmatter_Some (content yamlBlock body : str) :
  splitFrontmatter content = Some (yamlBlock, body) ->
  content = frontmatterOpen ++ yamlBlock ++ frontmatterClose ++ body
  /\ forall j, j < length yamlBlock ->
       startsWith (drop j (yamlBlock ++ frontmatterClose ++ body))
                  frontmatterClose = false.
Proof.
  unfold splitFrontmatter.
  destruct (startsWith content frontmatterOpen) eqn:Hopen; [|discriminate].
  cbv zeta.
  destruct (findSep frontmatterClose (drop 4 content)) as [d|] eqn:Hd;
    [|discriminate].
  intros [= <- <-].
  pose proof (findSep_bound _ _ _ Hd) as Hb.
  destruct (findSep_first _ _ _ Hd) as [Hat Hmin].
  apply startsWith_inv in Hopen, Hat.
  change (length frontmatterOpen) with 4 in Hopen.
  change (length frontmatterClose) with 5 in Hat, Hb.
  remember (drop 4 content) as r eqn:Er.
  assert (Hr : r = take d r ++ frontmatterClose ++ drop (d + 5) r).
  { rewrite <- (take_drop d r) at 1. f_equal. rewrite Hat at 1. f_equal.
    now rewrite drop_drop. }
  split.
  - rewrite <- Hr. exact Hopen.
  - intros j Hj. rewrite <- Hr. apply Hmin.
    rewrite length_take in Hj. lia.
Qed.

Lemma trimStart_subset (c : ascii) (s : str) : c ∈ trimStart s -> c ∈ s.
Proof.
  destruct (trimStart_suffix s) as (pre & Hs). intros H.
  rewrite Hs. apply elem_of_app. now right.
Qed.

Lemma trim_subset (c : ascii) (s : str) : c ∈ trim s -> c ∈ s.
Proof.
  unfold trim. intros H. apply trimStart_subset.
  destruct (trimEnd_prefix (trimStart s)) as (post & Hs).
  rewrite Hs. apply elem_of_app. now left.
Qed.

Lemma splitChar_pieces (c : ascii) (s : str) :
  Forall (fun l => c ∉ l) (splitChar c s).
Proof.
  induction s as [|d s IH]; [repeat constructor; inversion 1|].
  cbn [splitChar]. destruct (Ascii.eqb d c) eqn:Hd.
  - constructor; [inversion 1|exact IH].
  - apply ascii_eqb_false in Hd.
    destruct (splitChar c s) as [|h t]; [repeat constructor|].
    + intros H. apply list_elem_of_singleton in H. congruence.
    + inversion IH as [|? ? Hh Ht]; subst. constructor; [|exact Ht].
      intros H. apply elem_of_cons in H as [H|H]; [congruence|auto].
Qed.

Lemma setKey_values (P : str -> Prop) (k v : str) (o : record) :
  P v -> Forall (fun kv => P (snd kv)) o ->
  Forall (fun kv => P (snd kv)) (setKey k v o).
Proof.
  intros Hv Ho. induction Ho as [|[k' v'] o Hk Ho IH]; cbn [setKey].
  - repeat constructor. exact Hv.
  - destruct (bool_decide (k' = k)); constructor; auto.
Qed.

Lemma getKey_values (P : str -> Prop) (k v : str) (o : record) :
  Forall (fun kv => P (snd kv)) o -> getKey k o = Some v -> P v.
Proof.
  intros Ho. induction Ho as [|[k' v'] o Hk Ho IH]; cbn [getKey];
    [discriminate|].
  destruct (bool_decide (k' = k)); [|exact IH].
  now intros [= <-].
Qed.

Lemma assignKeyValue_values (o : record) (line : str) :
  LF ∉ line -> Forall (fun kv => headerValue (snd kv)) o ->
  Forall (fun kv => headerValue (snd kv)) (assignKeyValue o line).
Proof.
  intros Hline Ho. unfold assignKeyValue.
  destruct (indexOfChar ":" line) as [i|]; [|exact Ho].
  apply setKey_values; [|exact Ho]. split; [apply trim_idem|].
  intros H. apply trim_subset in H. apply Hline.
  rewrite <- (take_drop (S i) line). apply elem_of_app. now right.
Qed.

Lemma header_values (lines : list str) :
  Forall (fun l => LF ∉ l) lines ->
  forall o, Forall (fun kv => headerValue (snd kv)) o ->
    Forall (fun kv => headerValue (snd kv))
           (fold_left assignKeyValue lines o).
Proof.
  induction 1 as [|l lines Hl Hlines IH]; intros o Ho; [exact Ho|].
  cbn [fold_left]. apply IH. now apply assignKeyValue_values.
Qed.

Lemma frontmatterOf_agent (yamlBlock body body' : str)
    (fm : SpecFrontmatter) :
  frontmatterOf yamlBlock body = Some (fm, body') ->
  fm_agent fm <> [] /\ headerValue (fm_agent fm)
  /\ forall m, fm_model fm = Some m -> headerValue m.
Proof.
  unfold frontmatterOf. cbv zeta.
  pose proof (header_values (splitChar LF yamlBlock)
                (splitChar_pieces LF yamlBlock) [] ltac:(constructor)) as Hv.
  destruct (getKey "operation" _) as [[|c op]|]; try discriminate.
  destruct (getKey "agent" _) as [[|d agent]|] eqn:Ha; try discriminate.
  destruct (parseOperation (c :: op)); [|discriminate].
  intros [= <- _]. cbn [fm_agent fm_model].
  split; [discriminate|]. split.
  - exact (getKey_values _ _ _ _ Hv Ha).
  - intros m Hm. exact (getKey_values _ _ _ _ Hv Hm).
Qed.

End HeaderFacts.

(** X7.  A spec that parses is the opening delimiter line, a header block,
    the closing delimiter between two line feeds, and the body, in that
    order and with nothing else: the header block ends at the first closing
    delimiter, and the body is all the text behind it, unchanged.  The agent
    of the result is not empty, is trimmed and lies on one line, and so
    does the model when there is one. *)
Theorem X7_frontmatter_decomposes (content body : str)
    (fm : SpecFrontmatter) :
  parseFrontmatter content = Some (fm, body) ->
  exists yamlBlock,
    content = frontmatterOpen ++ yamlBlock ++ frontmatterClose ++ body
    /\ (forall j, j < length yamlBlock ->
          startsWith (drop j (yamlBlock ++ frontmatterClose ++ body))
                     frontmatterClose = false)
    /\ fm_agent fm <> [] /\ headerValue (fm_agent fm)
    /\ (forall m, fm_model fm = Some m -> headerValue m).
Proof.
  rewrite parseFrontmatter_split.
  destruct (splitFrontmatter content) as [[yamlBlock body']|] eqn:Hsplit;
    [|discriminate].
  intros Hfm. pose proof (frontmatterOf_body _ _ _ _ Hfm) as [-> _].
  exists yamlBlock.
  destruct (splitFrontmatter_Some _ _ _ Hsplit) as [Hcontent Hfirst].
  split; [exact Hcontent|]. split; [exact Hfirst|].
  exact (frontmatterOf_agent _ _ _ _ Hfm).
Qed.

(** The theorem at work on the spec that asks to delete [billing]. *)
Lemma X7_frontmatter_decomposes_witness :
  exists yamlBlock,
    deleteBillingSpec = frontmatterOpen ++ yamlBlock ++ frontmatterClose ++ []
    /\ (forall j, j < length yamlBlock ->
          startsWith (drop j (yamlBlock ++ frontmatterClose ++ []))
                     frontmatterClose = false)
    /\ ("billing" : str) <> [] /\ headerValue "billing"
    /\ (forall m, None = Some m -> headerValue m).
Proof.
  apply (X7_frontmatter_decomposes deleteBillingSpec []
           {| fm_operation := Delete; fm_agent := "billing";
              fm_model := None |}).
  vm_compute. reflexivity.
Defined.

Section RenderFacts.

Lemma findSep_skip_line (l tail : str) :
  LF ∉ l ->
  findSep frontmatterClose (l ++ tail)
  = (fun d => length l + d) <$> findSep frontmatterClose tail.
Proof.
  intros Hl. induction l as [|c l IH].
  - cbn [app length]. now destruct (findSep frontmatterClose tail).
  - assert (Hc : c <> LF) by (intros ->; apply Hl; left).
    assert (Hl' : LF ∉ l) by (intros H; apply Hl; now right).
    cbn [app]. rewrite findSep_unfold.
    assert (Hs : startsWith (c :: l ++ tail) frontmatterClose = false).
    { change frontmatterClose with (LF :: "---" ++ [LF]).
      cbn [startsWith]. apply andb_false_iff. left.
      apply ascii_eqb_false. congruence. }
    rewrite Hs, (IH Hl').
    now destruct (findSep frontmatterClose tail).
Qed.

Lemma startsWith_head (s p : str) (c : ascii) :
  head s <> Some c -> startsWith s (c :: p) = false.
Proof.
  destruct s as [|d s]; [reflexivity|]. cbn [head startsWith]. intros H.
  apply andb_false_iff. left. apply ascii_eqb_false. congruence.
Qed.

Lemma head_join (l : str) (lines : list str) (tail : str) :
  head l <> Some "-"%char ->
  head (join [LF] (l :: lines) ++ frontmatterClose ++ tail)
  <> Some "-"%char.
Proof.
  intros Hl. destruct lines as [|l2 lines]; [|rewrite join_cons2];
    destruct l as [|c l]; cbn [join app head] in *;
    try exact Hl; discriminate.
Qed.

(** In a header whose lines after the first do not start with a dash, the
    first closing delimiter is the one behind the header. *)
Lemma findSep_header (lines : list str) (rest : str) :
  lines <> [] -> Forall (fun l => LF ∉ l) lines ->
  Forall (fun l => head l <> Some "-"%char) (tail lines) ->
  findSep frontmatterClose (join [LF] lines ++ frontmatterClose ++ rest)
  = Some (length (join [LF] lines)).
Proof.
  induction lines as [|l lines IH]; intros Hne Hfree Hdash; [congruence|].
  inversion Hfree as [|? ? Hl Hfree']; subst.
  destruct lines as [|l2 lines].
  - cbn [join]. rewrite findSep_skip_line by exact Hl.
    rewrite findSep_unfold, startsWith_app. cbn [fmap option_fmap option_map].
    f_equal. lia.
  - rewrite join_cons2, <- !app_assoc.
    rewrite findSep_skip_line by exact Hl.
    cbn [tail] in Hdash. inversion Hdash as [|? ? Hl2 Hdash']; subst.
    rewrite findSep_unfold.
    assert (Hs : startsWith ([LF] ++ join [LF] (l2 :: lines)
                             ++ frontmatterClose ++ rest)
                            frontmatterClose = false).
    { change frontmatterClose with (LF :: "-"%char :: "--" ++ [LF]) at 2.
      cbn [app startsWith].
      rewrite (proj2 (ascii_eqb_true LF LF) eq_refl). cbn [andb].
      apply startsWith_head. now apply head_join. }
    rewrite Hs. cbn [app].
    rewrite (IH ltac:(discriminate) Hfree').
    + cbn [fmap option_fmap option_map]. f_equal.
      rewrite !length_app. cbn [length]. lia.
    + destruct lines; [constructor|].
      cbn [tail]. exact Hdash'.
Qed.

Lemma splitChar_join (lines : list str) :
  lines <> [] -> Forall (fun l => LF ∉ l) lines ->
  splitChar LF (join [LF] lines) = lines.
Proof.
  induction lines as [|l lines IH]; intros Hne Hfree; [congruence|].
  inversion Hfree as [|? ? Hl Hfree']; subst.
  destruct lines as [|l2 lines].
  - cbn [join]. now apply splitChar_no_sep.
  - rewrite join_cons2. change ([LF] ++ join [LF] (l2 :: lines))
      with (LF :: join [LF] (l2 :: lines)).
    rewrite splitChar_app_sep by exact Hl.
    now rewrite IH.
Qed.

Lemma indexOfChar_app (c : ascii) (key value : str) :
  c ∉ key -> indexOfChar c (key ++ c :: value) = Some (length key).
Proof.
  induction key as [|d key IH]; intros Hk.
  - cbn [app indexOfChar]. now rewrite (proj2 (ascii_eqb_true c c) eq_refl).
  - assert (Hd : Ascii.eqb d c = false)
      by (apply ascii_eqb_false; intros ->; apply Hk; left).
    cbn [app indexOfChar]. rewrite Hd, IH; [reflexivity|].
    intros H. apply Hk. now right.
Qed.

(** A line [key:value] assigns the trimmed value to the trimmed key. *)
Lemma assignKeyValue_line (o : record) (key value : str) :
  ":"%char ∉ key ->
  assignKeyValue o (key ++ ":"%char :: value)
  = setKey (trim key) (trim value) o.
Proof.
  intros Hk. unfold assignKeyValue. rewrite indexOfChar_app by exact Hk.
  rewrite take_app_length.
  replace (S (length key)) with (length (key ++ [":"%char]))
    by (rewrite length_app; cbn [length]; lia).
  change (key ++ ":"%char :: value) with (key ++ [":"%char] ++ value).
  now rewrite app_assoc, drop_app_length.
Qed.

Lemma trim_after_space (v : str) : trim v = v -> trim (" " ++ v) = v.
Proof. intros H. exact H. Qed.

Lemma notin_text (c : ascii) (s : str) :
  forallb (fun d => negb (Ascii.eqb d c)) s = true -> c ∉ s.
Proof.
  induction s as [|d s IH]; intros H; [inversion 1|].
  cbn [forallb] in H. apply andb_true_iff in H as [Hd Hs].
  apply negb_true_iff, ascii_eqb_false in Hd.
  intros Hin. apply elem_of_cons in Hin as [->|Hin]; [congruence|].
  now apply IH.
Qed.

Lemma headerLines_free (op : operation) (agent : str) (model : option str) :
  LF ∉ agent -> (forall m, model = Some m -> LF ∉ m) ->
  Forall (fun l => LF ∉ l) (headerLines op agent model).
Proof.
  intros Ha Hm. unfold headerLines. apply Forall_app. split.
  - constructor; [|constructor; [|constructor]].
    + destruct op; apply notin_text; reflexivity.
    + intros H. apply elem_of_app in H as [H|H]; [|auto].
      revert H. apply notin_text. reflexivity.
  - destruct model as [m|]; constructor; [|constructor].
    intros H. apply elem_of_app in H as [H|H]; [|now apply (Hm m)].
    revert H. apply notin_text. reflexivity.
Qed.

End RenderFacts.

(** X8.  A spec written as the opening delimiter, the lines
    [operation: ...], [agent: ...] and, when a model is given,
    [model: ...], the closing delimiter and a body parses to that
    operation, agent and model and to that body, whatever the body holds,
    further delimiter lines included.  The agent and the model are trimmed
    one-line texts, the agent not empty. *)
Theorem X8_frontmatter_round_trip (op : operation) (agent : str)
    (model : option str) (body : str) :
  agent <> [] -> headerValue agent ->
  (forall m, model = Some m -> headerValue m) ->
  parseFrontmatter (renderSpec op agent model body)
  = Some ({| fm_operation := op; fm_agent := agent; fm_model := model |},
          body).
Proof.
  intros Hne [Htrim Hfree] Hmodel.
  assert (Hlines : Forall (fun l => LF ∉ l) (headerLines op agent model)).
  { apply headerLines_free; [exact Hfree|]. intros m Hm.
    now destruct (Hmodel m Hm). }
  assert (Hsome : headerLines op agent model <> [])
    by (unfold headerLines; discriminate).
  rewrite parseFrontmatter_split. unfold renderSpec, splitFrontmatter.
  rewrite startsWith_app. cbv zeta.
  set (R := join [LF] (headerLines op agent model) ++ frontmatterClose
            ++ body).
  change (drop 4 (frontmatterOpen ++ R)) with R. subst R.
  rewrite findSep_header; [|exact Hsome|exact Hlines|].
  - rewrite take_app_length.
    replace (length (join [LF] (headerLines op agent model)) + 5)
      with (length (join [LF] (headerLines op agent model)
                    ++ frontmatterClose))
      by (rewrite length_app; reflexivity).
    rewrite app_assoc, drop_app_length.
    unfold frontmatterOf. rewrite splitChar_join by assumption.
    unfold headerLines. cbn [app fold_left].
    change ("operation: " ++ operationName op)
      with ("operation" ++ ":"%char :: " " ++ operationName op).
    change ("agent: " ++ agent) with ("agent" ++ ":"%char :: " " ++ agent).
    rewrite !assignKeyValue_line by (apply notin_text; reflexivity).
    rewrite (trim_after_space agent Htrim).
    destruct agent as [|a agent]; [congruence|].
    destruct model as [m|].
    + cbn [fold_left].
      change ("model: " ++ m) with ("model" ++ ":"%char :: " " ++ m).
      rewrite assignKeyValue_line by (apply notin_text; reflexivity).
      destruct (Hmodel m eq_refl) as [Hm _].
      rewrite (trim_after_space m Hm).
      destruct op; vm_compute; reflexivity.
    + cbn [fold_left]. destruct op; vm_compute; reflexivity.
  - unfold headerLines. cbn [app tail].
    constructor; [discriminate|].
    destruct model; constructor; [discriminate|constructor].
Qed.

(** The theorem at work: a modify spec for [billing] with a model, whose
    body holds a delimiter line of its own. *)
Lemma X8_frontmatter_round_trip_witness :
  parseFrontmatter
    (renderSpec Modify "billing" (Some "opus")
       ("## Append to CLAUDE.md" ++ [LF] ++ "---" ++ [LF] ++ "Done."))
  = Some ({| fm_operation := Modify; fm_agent := "billing";
             fm_model := Some ("opus" : str) |},
          "## Append to CLAUDE.md" ++ [LF] ++ "---" ++ [LF] ++ "Done.").
Proof.
  apply X8_frontmatter_round_trip.
  - discriminate.
  - split; [reflexivity|apply notin_text; reflexivity].
  - intros m [= <-]. split; [reflexivity|apply notin_text; reflexivity].
Defined.

(** ** The fenced block of a section *)

Section CodeBlockFacts.

Lemma execFrom_unfold (fl : flags) (r : re) (i : nat) (prev : option ascii)
    (s : str) :
  execFrom fl r i prev s
  = match run fl r accept i prev s [] with
    | Some (j, caps) => Some {| m_index := i; m_end := j; m_groups := caps |}
    | None =>
        match s with
        | c :: s' => execFrom fl r (S i) (Some c) s'
        | [] => None
        end
    end.
Proof. destruct s; reflexivity. Qed.

(** A greedy repetition over a class takes the whole run of the class when
    what follows the run is matched there. *)
Lemma starGreedy_run (p : ascii -> bool) (K : kont) (ws tail : str)
    (i : nat) (prev : option ascii) (caps : list (nat * nat)) (r : result) :
  forallb p ws = true ->
  match tail with c :: _ => p c = false | [] => True end ->
  K (i + length ws) (lastPrev prev ws) tail caps = Some r ->
  starGreedy p K i prev (ws ++ tail) caps = Some r.
Proof.
  revert i prev. induction ws as [|c ws IH]; intros i prev Hws Htail HK.
  - cbn [app length lastPrev fold_left] in *. rewrite Nat.add_0_r in HK.
    destruct tail as [|c tail]; cbn [starGreedy]; [exact HK|].
    now rewrite Htail.
  - cbn [forallb] in Hws. apply andb_true_iff in Hws as [Hc Hws].
    cbn [app starGreedy]. rewrite Hc.
    rewrite (IH (S i) (Some c) Hws Htail); [reflexivity|].
    cbn [length] in HK. now replace (S i + length ws) with (i + S (length ws))
      by lia.
Qed.

Lemma run_codeBlock (lang inner post : str) (i : nat) (prev : option ascii) :
  forallb isWord lang = true ->
  findSep fence (inner ++ fence) = Some (length inner) ->
  run noFlags reCodeBlock accept i prev
      (fence ++ lang ++ [LF] ++ inner ++ fence ++ post) []
  = Some (i + 3 + length lang + 1 + length inner + 3,
          [(i + 3 + length lang + 1, i + 3 + length lang + 1 + length inner)]).
Proof.
  intros Hlang Hinner.
  change reCodeBlock
    with (Seq (lits fence) (Seq (Star true isWord) (Seq (Lit LF)
            (Seq (Grp (Star false anyChar)) (lits fence))))).
  cbn [run]. rewrite run_lits, startsWith_app, drop_app_length.
  change (length fence) with 3.
  apply starGreedy_run; [exact Hlang|reflexivity|].
  cbn [app]. cbn [litMatches ignoreCase noFlags].
  rewrite (proj2 (ascii_eqb_true LF LF) eq_refl).
  rewrite (starLazy_find fence
             (fun j s' c =>
                (j + 3, c ++ [(S (i + 3 + length lang), j)]))).
  - pose proof (findSep_app fence (inner ++ fence) post _ Hinner) as Hpost.
    rewrite <- app_assoc in Hpost. rewrite Hpost.
    f_equal. f_equal; [lia|]. cbn [app]. repeat f_equal; lia.
  - intros j p s' c. rewrite run_lits.
    destruct (startsWith s' fence); reflexivity.
Qed.

Lemma execFrom_before_block (pre s : str) (i : nat) (prev : option ascii) :
  "`"%char ∉ pre ->
  execFrom noFlags reCodeBlock i prev (pre ++ s)
  = execFrom noFlags reCodeBlock (i + length pre) (lastPrev prev pre) s.
Proof.
  revert i prev. induction pre as [|c pre IH]; intros i prev Hpre.
  - cbn [app length lastPrev fold_left]. now rewrite Nat.add_0_r.
  - assert (Hc : c <> "`"%char) by (intros ->; apply Hpre; left).
    assert (Hpre' : "`"%char ∉ pre) by (intros H; apply Hpre; now right).
    rewrite execFrom_unfold.
    change reCodeBlock
      with (Seq (lits fence) (Seq (Star true isWord) (Seq (Lit LF)
              (Seq (Grp (Star false anyChar)) (lits fence))))) at 1.
    cbn [run]. rewrite run_lits.
    assert (Hs : startsWith ((c :: pre) ++ s) fence = false).
    { change fence with ("`"%char :: "``"). cbn [app startsWith].
      apply andb_false_iff. left. apply ascii_eqb_false. congruence. }
    rewrite Hs. cbn [app]. rewrite (IH (S i) (Some c) Hpre').
    cbn [length lastPrev fold_left]. f_equal. lia.
Qed.

End CodeBlockFacts.

(** X9.  From a text that holds a fenced block, the block extractor
    returns the inside of the first block, trimmed: the text before the
    opening fence, the word behind the fence, the closing fence and all
    text after it are dropped.  The text before the block holds no
    backquote, the word is made of letters, digits and underscores, and
    the closing fence is the first fence after the opening line. *)
Theorem X9_code_block_inside (pre lang inner post : str) :
  "`"%char ∉ pre -> forallb isWord lang = true ->
  findSep fence (inner ++ fence) = Some (length inner) ->
  parseCodeBlock (pre ++ fence ++ lang ++ [LF] ++ inner ++ fence ++ post)
  = Some (trim inner).
Proof.
  intros Hpre Hlang Hinner. unfold parseCodeBlock, exec.
  rewrite execFrom_before_block by exact Hpre.
  rewrite execFrom_unfold, run_codeBlock by assumption.
  unfold group, slice. cbn [m_groups lookup list_lookup Nat.sub Nat.add].
  f_equal. f_equal.
  replace (length pre + 3 + length lang + 1 + length inner
           - (length pre + 3 + length lang + 1))
    with (length inner) by lia.
  replace (length pre + 3 + length lang + 1)
    with (length (pre ++ fence ++ lang ++ [LF]))
    by (rewrite !length_app; change (length fence) with 3;
        cbn [length]; lia).
  replace (pre ++ fence ++ lang ++ [LF] ++ inner ++ fence ++ post)
    with ((pre ++ fence ++ lang ++ [LF]) ++ inner ++ fence ++ post)
    by (now rewrite <- !app_assoc).
  rewrite drop_app_length. apply take_app_length.
Qed.

(** The theorem at work on the instruction document of a create body. *)
Lemma X9_code_block_inside_witness :
  parseCodeBlock ("The document:" ++ [LF] ++ "```markdown" ++ [LF]
                  ++ "# Billing agent" ++ [LF] ++ "```" ++ [LF]
                  ++ "Keep it short.")
  = Some ("# Billing agent" : str).
Proof.
  apply (X9_code_block_inside ("The document:" ++ [LF]) "markdown"
           ("# Billing agent" ++ [LF]) ([LF] ++ "Keep it short.")).
  - apply notin_text. reflexivity.
  - reflexivity.
  - reflexivity.
Defined.

(** ** Model names *)

Section ModelFacts.

Lemma MODEL_MAP_values :
  Forall (fun kv => snd kv <> [] /\ resolveModel (Some (snd kv)) = snd kv)
         MODEL_MAP.
Proof. repeat constructor; try discriminate; vm_compute; reflexivity. Qed.

End ModelFacts.

(** X10.  The resolved model is never empty, and resolving it again gives
    it back: an alias goes to a full model id, a full id and a name the
    table does not know stay as they are, and a missing or empty model
    becomes the default id.  The names every object inherits are left out:
    the table lookup of the source finds them on the prototype. *)
Theorem X10_resolveModel_settles (model : option str) :
  plainModel model ->
  resolveModel model <> []
  /\ resolveModel (Some (resolveModel model)) = resolveModel model.
Proof.
  intros _. destruct model as [[|c m]|]; try (split; [discriminate|reflexivity]).
  assert (Hr : resolveModel (Some (c :: m))
               = match getKey (trim (toLowerCase (c :: m))) MODEL_MAP with
                 | Some ((_ :: _) as full) => full
                 | _ => c :: m
                 end) by reflexivity.
  destruct (getKey (trim (toLowerCase (c :: m))) MODEL_MAP)
    as [[|f full]|] eqn:Hk; rewrite Hr.
  - split; [discriminate|]. now rewrite Hr.
  - exact (getKey_values
             (fun v => v <> [] /\ resolveModel (Some v) = v)
             _ _ _ MODEL_MAP_values Hk).
  - split; [discriminate|]. now rewrite Hr.
Qed.

(** The theorem at work on an alias written in capitals. *)
Lemma X10_resolveModel_settles_witness :
  resolveModel (Some (" Haiku " : str)) = "claude-haiku-4-6"
  /\ resolveModel (Some (" Haiku " : str)) <> []
  /\ resolveModel (Some (resolveModel (Some (" Haiku " : str))))
     = resolveModel (Some (" Haiku " : str)).
Proof.
  split; [reflexivity|].
  apply (X10_resolveModel_settles (Some (" Haiku " : str))).
  intros m [= <-]. vm_compute. intros H.
  apply elem_of_cons in H as [H|H]; [discriminate|].
  apply elem_of_cons in H as [H|H]; [discriminate|inversion H].
Defined.

(** ** Status markers of spec files *)

Section StatusFacts.

Lemma run_status_tail (s : str) (i : nat) (prev : option ascii)
    (caps : list (nat * nat)) :
  "."%char ∈ s ->
  run noFlags
    (Seq (Grp (Alt (lits "APPLIED") (Alt (lits "FAILED")
            (Alt (lits "PENDING_APPROVAL") (lits "APPROVED")))))
         Eol) accept i prev s caps = None.
Proof.
  intros Hdot.
  assert (Hnot : forall nm : str, "."%char ∉ nm ->
            startsWith s nm = true -> drop (length nm) s <> []).
  { intros nm Hnm Hs Hd. apply startsWith_inv in Hs. rewrite Hd in Hs.
    rewrite app_nil_r in Hs. subst s. contradiction. }
  assert (Hone : forall (nm : str) (K : kont),
            "."%char ∉ nm ->
            (forall j p s' c, s' <> [] -> K j p s' c = None) ->
            run noFlags (lits nm) K i prev s caps = None).
  { intros nm K Hnm HK. rewrite run_lits.
    destruct (startsWith s nm) eqn:Hs; [|reflexivity].
    apply HK. now apply Hnot. }
  cbn [run].
  rewrite !Hone; try reflexivity; try (apply notin_text; reflexivity);
    intros j p [|d s'] c Hs'; try congruence; reflexivity.
Qed.

Lemma run_status_at (sfx : suffix) (i : nat) (prev : option ascii) :
  run noFlags reStatusSuffix accept i prev ("." ++ suffixName sfx) []
  = Some (length (suffixName sfx) + S i,
          [(S i, length (suffixName sfx) + S i)]).
Proof. destruct sfx; reflexivity. Qed.

Lemma run_status_before (c : ascii) (b : str) (sfx : suffix) (i : nat)
    (prev : option ascii) :
  run noFlags reStatusSuffix accept i prev
      (c :: b ++ "." ++ suffixName sfx) [] = None.
Proof.
  change reStatusSuffix
    with (Seq (Lit ".")
            (Seq (Grp (Alt (lits "APPLIED") (Alt (lits "FAILED")
                    (Alt (lits "PENDING_APPROVAL") (lits "APPROVED")))))
                 Eol)).
  cbn [run]. destruct (litMatches noFlags "." c); [|reflexivity].
  apply run_status_tail. apply elem_of_app. right. left.
Qed.

Lemma execFrom_status (b : str) (sfx : suffix) :
  forall i prev,
    execFrom noFlags reStatusSuffix i prev (b ++ "." ++ suffixName sfx)
    = Some {| m_index := i + length b;
              m_end := length (suffixName sfx) + S (i + length b);
              m_groups := [(S (i + length b),
                            length (suffixName sfx) + S (i + length b))] |}.
Proof.
  induction b as [|c b IH]; intros i prev.
  - cbn [app length]. rewrite Nat.add_0_r.
    rewrite execFrom_unfold.
    change ("."%char :: suffixName sfx) with ("." ++ suffixName sfx).
    now rewrite run_status_at.
  - cbn [app length]. rewrite execFrom_unfold, run_status_before.
    rewrite IH. now replace (S i + length b) with (i + S (length b)) by lia.
Qed.

Lemma stripStatus_marked (b : str) (sfx : suffix) :
  stripStatus (b ++ "." ++ suffixName sfx) = b.
Proof.
  unfold stripStatus, exec. rewrite execFrom_status.
  cbn [m_index m_end Nat.add].
  rewrite take_app_length.
  replace (length (suffixName sfx) + S (length b))
    with (length (b ++ "." ++ suffixName sfx))
    by (rewrite !length_app; change (length ("." : str)) with 1; lia).
  rewrite drop_all. apply app_nil_r.
Qed.

Lemma stripStatus_subset (b : str) : stripStatus b ⊆ b.
Proof.
  unfold stripStatus.
  destruct (exec noFlags reStatusSuffix b) as [m|]; [|reflexivity].
  intros c Hc. apply elem_of_app in Hc as [Hc|Hc].
  - now apply (subseteq_take (m_index m) b).
  - now apply (subseteq_drop (m_end m) b).
Qed.

(** The marker test of [poll] finds a marker wherever it stands. *)
Lemma includes_mid (a p r : str) : includes (a ++ p ++ r) p = true.
Proof.
  induction a as [|c a IH].
  - cbn [app]. destruct (p ++ r) eqn:Hpr; cbn [includes];
      rewrite <- Hpr, startsWith_app; reflexivity.
  - cbn [app]. rewrite includes_cons, IH. apply orb_true_r.
Qed.

Lemma endsWith_app (a p : str) : endsWith (a ++ p) p = true.
Proof. unfold endsWith. rewrite rev_app_distr. apply startsWith_app. Qed.

End StatusFacts.

(** X11.  Renaming strips the marker a file name already carries before it
    puts the new one: from a base name followed by a dot and one of the four
    markers, the pattern removes exactly that dot and marker, whatever the
    base name holds, earlier markers included.  So markers replace each
    other and do not pile up. *)
Theorem X11_status_marker_stripped (b : str) (sfx : suffix) :
  stripStatus (b ++ "." ++ suffixName sfx) = b.
Proof. exact (stripStatus_marked b sfx). Qed.

(** X12.  A file name that ends with a dot, one of the markers APPLIED,
    FAILED or PENDING_APPROVAL, and [.md] is passed over by [poll], whatever
    stands before the marker: a spec that was marked with one of the three
    is not processed again. *)
Theorem X12_settled_files_skipped (b : str) (sfx : suffix) :
  settled sfx = true ->
  classify (b ++ "." ++ suffixName sfx ++ ".md") = Skip.
Proof.
  intros Hs. unfold classify.
  replace (b ++ "." ++ suffixName sfx ++ ".md")
    with ((b ++ "." ++ suffixName sfx) ++ ".md")
    by (now rewrite <- !app_assoc).
  rewrite endsWith_app. cbn [negb].
  rewrite <- !app_assoc.
  destruct sfx; try discriminate.
  - change (b ++ "." ++ suffixName APPLIED ++ ".md")
      with (b ++ ".APPLIED." ++ "md").
    now rewrite includes_mid.
  - change (b ++ "." ++ suffixName FAILED ++ ".md")
      with (b ++ ".FAILED." ++ "md").
    rewrite includes_mid. now rewrite orb_true_r.
  - change (b ++ "." ++ suffixName PENDING_APPROVAL ++ ".md")
      with (b ++ ".PENDING_APPROVAL." ++ "md").
    rewrite includes_mid. now rewrite !orb_true_r.
Qed.

(** The theorem at work on a spec that failed. *)
Lemma X12_settled_files_skipped_witness :
  classify "create-billing.FAILED.md" = Skip.
Proof.
  apply (X12_settled_files_skipped "create-billing" FAILED). reflexivity.
Defined.

(** X13.  When every entry of the watched directory is one that [poll]
    passes over, a poll returns without an error and leaves the world,
    its log included, exactly as it was. *)
Theorem X13_poll_quiescent (E : Externals) (w : World) (files : list str) :
  readdirSync (AGENT_OPS_DIR E) w = (Ok files, w) ->
  Forall (fun file => classify file = Skip) files ->
  poll E w = (Ok tt, w).
Proof.
  intros Hread Hskip. unfold poll.
  assert (Hdir : isDir (fs w) (AGENT_OPS_DIR E) = true).
  { unfold readdirSync in Hread.
    destruct (isDir (fs w) (AGENT_OPS_DIR E)); [reflexivity|discriminate]. }
  assert (Hex : existsSync (AGENT_OPS_DIR E) w = (Ok true, w)).
  { unfold existsSync, get. unfold isDir in Hdir.
    destruct (fs w !! AGENT_OPS_DIR E) as [[c|]|]; cbn [isSome orb];
      try discriminate; try reflexivity. now rewrite Hdir. }
  rewrite bind_run, Hex. cbn [negb when]. rewrite bind_run. cbn [ret].
  rewrite bind_run, Hread.
  clear Hread Hdir Hex. induction Hskip as [|file files Hfile _ IH];
    [reflexivity|].
  cbn [forEach]. rewrite bind_run. unfold pollEntry at 1. rewrite Hfile.
  cbn [ret]. exact IH.
Qed.

(** The theorem at work: the world after the spec that deletes the
    controller was marked FAILED. *)
Lemma X13_poll_quiescent_witness :
  let w := snd (poll Demo.ext standardSelfDeleteWorld) in
  readdirSync (AGENT_OPS_DIR Demo.ext) w = (Ok ["delete-main.FAILED.md" : str], w)
  /\ poll Demo.ext w = (Ok tt, w).
Proof.
  intros w.
  assert (Hread : readdirSync (AGENT_OPS_DIR Demo.ext) w
                  = (Ok ["delete-main.FAILED.md" : str], w)).
  { apply (f_equal (fun o => (o, w))). vm_compute. reflexivity. }
  split; [exact Hread|].
  apply (X13_poll_quiescent Demo.ext w ["delete-main.FAILED.md" : str] Hread).
  constructor; [reflexivity|constructor].
Defined.

(** ** Deleting an agent *)

Section DeleteFacts.

Variable E : Externals.

Lemma resolveAgent_found (w : World) (A f : str) (g : RegisteredGroup) :
  foundAs w A f g ->
  resolveAgent A w = (Ok (f, "agent:" ++ f, Some g), w).
Proof.
  unfold resolveAgent. rewrite bind_run. cbn [getRegisteredGroup get].
  intros [[-> Hg]|(-> & Hnone & Hend & Hg)].
  - now rewrite Hg.
  - rewrite Hnone, Hend. cbn [isSome negb andb].
    rewrite bind_run. cbn [getRegisteredGroup get ret].
    now rewrite Hg.
Qed.

Lemma resolveAgent_unknown (w : World) (A : str) :
  registry w !! ("agent:" ++ A) = None ->
  registry w !! ("agent:" ++ A ++ "-specialist") = None ->
  exists f j, resolveAgent A w = (Ok (f, j, None), w).
Proof.
  intros Hnone Hspec. unfold resolveAgent. rewrite bind_run.
  cbn [getRegisteredGroup get]. rewrite Hnone. cbn [isSome negb andb].
  destruct (endsWith A "-specialist"); cbn [negb].
  - eauto.
  - rewrite bind_run. cbn [getRegisteredGroup get ret].
    rewrite Hspec. eauto.
Qed.

(** The loop that deletes the tasks of the agent never fails. *)
Lemma deleteLoop_run (owned : list ScheduledTask) (w : World) :
  exists w1,
    forEach owned
      (fun task => deleteTask (id task) ;;
                   log ("  Deleted task: " ++ id task)) w = (Ok tt, w1)
    /\ registry w1 = registry w
    /\ tasks w1 = foldl (fun m t => delete (id t) m) (tasks w) owned.
Proof.
  revert w. induction owned as [|t owned IH]; intros w.
  - exists w. repeat split.
  - cbn [forEach]. rewrite bind_run, bind_run. cbn [deleteTask log].
    destruct (IH (setLogs (setTasks w (delete (id t) (tasks w)))
                    (logs (setTasks w (delete (id t) (tasks w)))
                     ++ ["  Deleted task: " ++ id t])))
      as (w1 & Hrun & Hreg & Htasks).
    exists w1. split; [exact Hrun|]. split; [exact Hreg|exact Htasks].
Qed.

Lemma lookup_foldl_delete (owned : list ScheduledTask)
    (m : gmap str ScheduledTask) (k : str) :
  foldl (fun m t => delete (id t) m) m owned !! k
  = if bool_decide (k ∈ id <$> owned) then None else m !! k.
Proof.
  revert m. induction owned as [|t owned IH]; intros m.
  - cbn [foldl fmap list_fmap].
    rewrite bool_decide_eq_false_2; [reflexivity|inversion 1].
  - cbn [foldl fmap list_fmap]. rewrite IH.
    destruct (decide (k ∈ id <$> owned)) as [Hin|Hin].
    + rewrite !bool_decide_eq_true_2; [reflexivity| |exact Hin].
      now right.
    + rewrite (bool_decide_eq_false_2 _ Hin).
      destruct (decide (k = id t)) as [->|Hne].
      * rewrite lookup_delete_eq. rewrite bool_decide_eq_true_2;
          [reflexivity|left].
      * rewrite lookup_delete_ne by congruence.
        rewrite bool_decide_eq_false_2; [reflexivity|].
        intros H. apply elem_of_cons in H as [H|H]; contradiction.
Qed.

Lemma owned_ids (t : gmap str ScheduledTask) (f k : str) :
  keyedById t ->
  k ∈ id <$> filter (fun task => group_folder task = f)
                    (snd <$> map_to_list t)
  <-> exists task, t !! k = Some task /\ group_folder task = f.
Proof.
  intros Hkey. rewrite list_elem_of_fmap. split.
  - intros (task & -> & Hin). apply list_elem_of_filter in Hin as [Hf Hin].
    apply list_elem_of_fmap in Hin as ([k' task'] & -> & Hin).
    apply elem_of_map_to_list in Hin. cbn [snd] in *.
    exists task'. split; [|exact Hf].
    now rewrite (Hkey _ _ Hin).
  - intros (task & Hk & Hf). exists task. split; [now rewrite (Hkey _ _ Hk)|].
    apply list_elem_of_filter. split; [exact Hf|].
    apply list_elem_of_fmap. exists (k, task). split; [reflexivity|].
    now apply elem_of_map_to_list.
Qed.

End DeleteFacts.

(** X14.  Deleting a registered agent removes its registry entry and every
    scheduled task of its folder, and touches no other entry and no task of
    another folder.  This holds whether or not the clean-up of the file
    system that follows succeeds: the registry and the task table are
    written first, and an error raised later does not bring them back. *)
Theorem X14_delete_unregisters (E : Externals) (A f : str)
    (g : RegisteredGroup) (w : World) :
  keyedById (tasks w) -> foundAs w A f g ->
  let w' := snd (handleDelete E A w) in
  registry w' = delete ("agent:" ++ f) (registry w)
  /\ forall k,
       tasks w' !! k
       = match tasks w !! k with
         | Some task =>
             if bool_decide (group_folder task = f) then None else Some task
         | None => None
         end.
Proof.
  intros Hkey Hfound. cbv zeta. unfold handleDelete.
  rewrite bind_run, (resolveAgent_found w A f g Hfound).
  rewrite bind_run. cbn [getTasksForGroup get].
  set (owned := filter (fun t => group_folder t = f)
                       (snd <$> map_to_list (tasks w))).
  rewrite bind_run.
  destruct (deleteLoop_run owned w) as (w1 & -> & Hreg & Htasks).
  rewrite bind_run. cbn [deleteRegisteredGroup].
  match goal with
  | |- registry (snd (?rest ?w2)) = _ /\ _ =>
      assert (Hr : preserves registry rest)
        by (unfold archiveSub; frame);
      assert (Ht : preserves tasks rest)
        by (unfold archiveSub; frame);
      rewrite (Hr w2); split; [|intros k; rewrite (Ht w2)]
  end.
  - cbn [registry setRegistry]. now rewrite Hreg.
  - cbn [tasks setRegistry]. rewrite Htasks, lookup_foldl_delete.
    destruct (tasks w !! k) as [task|] eqn:Hk.
    + destruct (decide (group_folder task = f)) as [Hf|Hf].
      * rewrite !bool_decide_eq_true_2; [reflexivity|exact Hf|].
        apply (owned_ids (tasks w) f k Hkey). eauto.
      * rewrite !bool_decide_eq_false_2; [reflexivity|exact Hf|].
        intros Hin. apply (owned_ids (tasks w) f k Hkey) in Hin
          as (task' & Hk' & Hf'). congruence.
    + destruct (bool_decide (k ∈ id <$> owned)); reflexivity.
Qed.

(** The theorem at work: [billing] owns two of three tasks. *)
Lemma X14_delete_unregisters_witness :
  let w' := snd (handleDelete Demo.ext "billing" billingWithTasks) in
  registry w'
  = delete ("agent:" ++ "billing-specialist") (registry billingWithTasks)
  /\ forall k,
       tasks w' !! k
       = match tasks billingWithTasks !! k with
         | Some task =>
             if bool_decide (group_folder task = "billing-specialist")
             then None else Some task
         | None => None
         end.
Proof.
  assert (Hg : exists g, registry billingWithTasks
                         !! ("agent:billing-specialist" : str) = Some g).
  { destruct (registry billingWithTasks
              !! ("agent:billing-specialist" : str)) as [g|] eqn:Hg;
      [eauto|]. vm_compute in Hg. discriminate. }
  destruct Hg as (g & Hg).
  apply (X14_delete_unregisters Demo.ext "billing" "billing-specialist" g).
  - intros k task Hk. unfold billingWithTasks in Hk. cbn [tasks setTasks] in Hk.
    repeat (apply lookup_insert_Some in Hk as [[<- <-]|[_ Hk]];
            [reflexivity|]).
    rewrite lookup_empty in Hk. discriminate.
  - right. split; [reflexivity|]. split; [vm_compute; reflexivity|].
    split; [reflexivity|exact Hg].
Defined.

(** X15.  For a name that is registered neither as given nor with
    [-specialist] appended, delete fails with the "not found" error and
    leaves the world as it was, and so does modify when the name is not one
    of the controller's own. *)
Theorem X15_unknown_agent_not_found (E : Externals) (A body : str)
    (model : option str) (w : World) :
  registry w !! ("agent:" ++ A) = None ->
  registry w !! ("agent:" ++ A ++ "-specialist") = None ->
  handleDelete E A w = (Throw (notFoundMessage A), w)
  /\ (isSelfMod A = false ->
      handleModify E A body model w = (Throw (notFoundMessage A), w)).
Proof.
  intros Hnone Hspec.
  destruct (resolveAgent_unknown w A Hnone Hspec) as (f & j & Hres).
  split.
  - unfold handleDelete. now rewrite bind_run, Hres.
  - intros Hself. unfold handleModify, modifyTarget.
    now rewrite bind_run, bind_run, Hres, Hself.
Qed.

(** The theorem at work in the empty world. *)
Lemma X15_unknown_agent_not_found_witness :
  handleDelete Demo.ext "ghost" Demo.emptyWorld
  = (Throw (notFoundMessage "ghost"), Demo.emptyWorld)
  /\ handleModify Demo.ext "ghost" [] None Demo.emptyWorld
     = (Throw (notFoundMessage "ghost"), Demo.emptyWorld).
Proof.
  destruct (X15_unknown_agent_not_found Demo.ext "ghost" [] None
              Demo.emptyWorld eq_refl eq_refl) as [Hdel Hmod].
  split; [exact Hdel|]. apply Hmod. reflexivity.
Defined.

(** ** Modifying an agent *)

Section ModifyFacts.

Variable E : Externals.

Lemma modifyMounts_Ok (A f j body : str) (g : RegisteredGroup)
    (w w' : World) :
  modifyMounts E A f j body g w = (Ok tt, w') ->
  validateMountsIsolation E (isolationName A) (declaredMounts body) = None
  /\ ((parseSection body H_MOUNTS = None /\ registry w' = registry w)
      \/ registry w'
         = <[j := withMounts g (existingMountsOf g ++ declaredMounts body)]>
             (registry w)).
Proof.
  unfold modifyMounts, declaredMounts.
  destruct (parseSection body H_MOUNTS) as [section|].
  - destruct (validateMountsIsolation E (isolationName A)
                (mountsOfSection section)) as [msg|]; [discriminate|].
    rewrite bind_run. cbn [setRegisteredGroup log].
    intros [= <-]. split; [reflexivity|]. now right.
  - intros [= <-]. split; [reflexivity|]. now left.
Qed.

Lemma modifySteps_Ok (A f j body : str) (model : option str)
    (g : RegisteredGroup) (w w' : World) :
  modifySteps E A f j body model g w = (Ok tt, w') ->
  validateMountsIsolation E (isolationName A) (declaredMounts body) = None
  /\ ((parseSection body H_MOUNTS = None /\ registry w' = registry w)
      \/ registry w'
         = <[j := withMounts g (existingMountsOf g ++ declaredMounts body)]>
             (registry w)).
Proof.
  unfold modifySteps. intros H.
  apply bind_Ok in H as (? & w1 & H1 & H).
  apply bind_Ok in H as (? & w2 & H2 & H).
  apply bind_Ok in H as (? & w3 & H3 & H).
  apply bind_Ok in H as (? & w4 & H4 & H).
  apply bind_Ok in H as ([] & w5 & H5 & H).
  apply bind_Ok in H as (? & w6 & H6 & H).
  apply (preserves_run registry) in H1; [|frame].
  apply (preserves_run registry) in H2; [|frame].
  apply (preserves_run registry) in H3; [|frame].
  apply (preserves_run registry) in H4; [|frame].
  apply (preserves_run registry) in H6; [|frame].
  apply (preserves_run registry) in H; [|frame].
  apply modifyMounts_Ok in H5 as [Hv H5]. split; [exact Hv|].
  destruct H5 as [[Hnone H5]|H5]; [left|right]; try split;
    try exact Hnone; congruence.
Qed.

End ModifyFacts.

(** X16.  A modify that succeeds leaves every registry entry but its
    target's as it was, and in the target's entry it changes the mounts
    only: the mounts the body declares are put behind the mounts that are
    there, none of which is removed or replaced, and a declared mount that
    is there already is there twice afterwards.  The declared mounts have
    passed the isolation check. *)
Theorem X16_modify_appends_mounts (E : Externals) (A body : str)
    (model : option str) (w w' : World) :
  handleModify E A body model w = (Ok tt, w') ->
  exists j g g',
    registry w !! j = Some g /\ registry w' !! j = Some g'
    /\ existingMountsOf g' = existingMountsOf g ++ declaredMounts body
    /\ name g' = name g /\ folder g' = folder g /\ trigger g' = trigger g
    /\ (forall j', j' <> j -> registry w' !! j' = registry w !! j')
    /\ validateMountsIsolation E (isolationName A) (declaredMounts body)
       = None.
Proof.
  intros Hok.
  destruct (handleModify_unfold E A body model w) as (f & j & g & Hg & Hrun).
  rewrite Hok in Hrun. destruct g as [g|]; [|discriminate].
  symmetry in Hrun. apply modifySteps_Ok in Hrun as [Hv Hreg].
  specialize (Hg g eq_refl). exists j, g.
  destruct Hreg as [[Hnone Hreg]|Hreg].
  - exists g. rewrite Hreg. repeat split; try assumption.
    unfold declaredMounts. rewrite Hnone. now rewrite app_nil_r.
  - exists (withMounts g (existingMountsOf g ++ declaredMounts body)).
    rewrite Hreg. repeat split; try assumption;
      try apply lookup_insert_eq.
    intros j' Hj'. now apply lookup_insert_ne.
Qed.

(** The theorem at work: the reports directory is added to the mounts of
    [billing], read-only. *)
Lemma X16_modify_appends_mounts_witness :
  let w' := snd (handleModify Demo.ext "billing" reportsBody None
                   (billingWorld 3)) in
  declaredMounts reportsBody
  = [ {| hostPath := "/srv/reports"; containerPath := "reports";
         readonly := true |} ]
  /\ exists j g g',
       registry (billingWorld 3) !! j = Some g /\ registry w' !! j = Some g'
       /\ existingMountsOf g' = existingMountsOf g ++ declaredMounts reportsBody
       /\ name g' = name g /\ folder g' = folder g /\ trigger g' = trigger g
       /\ (forall j', j' <> j ->
             registry w' !! j' = registry (billingWorld 3) !! j')
       /\ validateMountsIsolation Demo.ext (isolationName "billing")
            (declaredMounts reportsBody) = None.
Proof.
  split; [vm_compute; reflexivity|].
  apply (X16_modify_appends_mounts Demo.ext "billing" reportsBody None
           (billingWorld 3)).
  assert (Hfst : fst (handleModify Demo.ext "billing" reportsBody None
                        (billingWorld 3)) = Ok tt)
    by (vm_compute; reflexivity).
  rewrite <- Hfst. apply surjective_pairing.
Defined.

(** X17.  Modify applies its sections one after the other and checks the
    mounts only when it comes to them: when the body holds a valid
    instruction document and a mount that fails the isolation check, the
    handler throws the violation message after it has overwritten the
    instruction document of the agent.  (Create checks its mounts before
    its first effect.) *)
Theorem X17_modify_writes_before_mount_check (E : Externals)
    (A f body section msg : str) (g : RegisteredGroup) (w : World) :
  isSelfMod A = false -> foundAs w A f g ->
  parseSection body H_CLAUDE_MD = Some section ->
  lineCount (codeBlockOr section) <= MAX_CLAUDE_MD_LINES ->
  isDir (fs w) (claudeMdPathOf E f) = false ->
  isDir (fs w) (dirname (claudeMdPathOf E f)) = true ->
  parseSection body H_APPEND = None -> parseSection body H_ENV = None ->
  validateMountsIsolation E (isolationName A) (declaredMounts body)
  = Some msg ->
  handleModify E A body None w
  = (Throw msg,
     setLogs
       (setFs w (<[claudeMdPathOf E f := File (codeBlockOr section)]> (fs w)))
       (logs w ++ ["  Updated CLAUDE.md for " ++ f])).
Proof.
  intros Hself Hfound Hdoc Hlen Hnotdir Hdir Happend Henv Hval.
  unfold handleModify, modifyTarget.
  rewrite bind_run, bind_run, (resolveAgent_found w A f g Hfound), Hself.
  cbn [ret]. rewrite bind_run.
  unfold modifyClaudeMd. rewrite Hdoc.
  apply Nat.ltb_ge in Hlen. rewrite Hlen.
  rewrite bind_run. unfold writeFileSync at 1. rewrite Hnotdir, Hdir.
  cbn [log]. rewrite bind_run.
  unfold modifyAppend. rewrite Happend. cbn [ret].
  rewrite bind_run. cbn [modifyModel ret]. rewrite bind_run.
  unfold modifyEnv. rewrite Henv. cbn [ret]. rewrite bind_run.
  unfold modifyMounts. unfold declaredMounts in Hval.
  destruct (parseSection body H_MOUNTS) as [mounts|]; [|discriminate].
  now rewrite Hval.
Qed.

(** The theorem at work: [billing] gets a new instruction document and asks
    for a mount in the tasks partition of [other]. *)
Lemma X17_modify_writes_before_mount_check_witness :
  let r := handleModify Demo.ext "billing" rewriteAndCrossBody None
             (billingWorld 3) in
  fst r = Throw (violationMessage (hostPath crossMount) "other" "tasks")
  /\ fs (snd r) !! ("/srv/groups/billing-specialist/CLAUDE.md" : str)
     = Some (File "Billing agent, second edition.").
Proof.
  assert (Hg : exists g, registry (billingWorld 3)
                         !! ("agent:billing-specialist" : str) = Some g).
  { destruct (registry (billingWorld 3)
              !! ("agent:billing-specialist" : str)) as [g|] eqn:Hg;
      [eauto|]. vm_compute in Hg. discriminate. }
  destruct Hg as (g & Hg).
  pose proof (X17_modify_writes_before_mount_check Demo.ext "billing"
                "billing-specialist" rewriteAndCrossBody
                "Billing agent, second edition."
                (violationMessage (hostPath crossMount) "other" "tasks")
                g (billingWorld 3)) as H.
  cbv zeta. rewrite H.
  - split; [reflexivity|]. cbn [snd fs setLogs setFs].
    apply lookup_insert_eq.
  - reflexivity.
  - right. split; [reflexivity|]. split; [vm_compute; reflexivity|].
    split; [reflexivity|exact Hg].
  - vm_compute. reflexivity.
  - vm_compute. lia.
  - vm_compute. reflexivity.
  - vm_compute. reflexivity.
  - vm_compute. reflexivity.
  - vm_compute. reflexivity.
  - vm_compute. reflexivity.
Defined.

(** ** The controller's identity and the first checks of a spec file *)

(** X18.  The reverse lookup of the controller returns an identity whose
    registry entry has the folder [main] whenever the registry holds such
    an entry, and the empty string when it holds none; it changes
    nothing.  A modify aimed at one of the controller's own names takes
    its target from this lookup and the folder [main], whatever the lookup
    by name has found. *)
Theorem X18_controller_found_by_folder (w : World) :
  exists j,
    findOrchestratorJid w = (Ok j, w)
    /\ ((exists j' g, registry w !! j' = Some g /\ folder g = "main") ->
        exists g, registry w !! j = Some g /\ folder g = "main")
    /\ ((forall j' g, registry w !! j' = Some g -> folder g <> "main") ->
        j = [])
    /\ forall A, isSelfMod A = true ->
         modifyTarget A w
         = (Ok ("main" : str, j,
                if truthy j then registry w !! j else None), w).
Proof.
  unfold findOrchestratorJid, getAllRegisteredGroups.
  rewrite bind_run. cbn [get ret].
  set (mains := filter (fun jg : str * RegisteredGroup =>
                          folder (snd jg) = ("main" : str))
                       (map_to_list (registry w))).
  assert (Hmains : forall j g, (j, g) ∈ mains
                     <-> registry w !! j = Some g /\ folder g = "main").
  { intros j g. unfold mains. rewrite list_elem_of_filter.
    rewrite elem_of_map_to_list. cbn [snd]. tauto. }
  assert (Htarget : forall j A, isSelfMod A = true ->
            findOrchestratorJid w = (Ok j, w) ->
            modifyTarget A w
            = (Ok ("main" : str, j,
                   if truthy j then registry w !! j else None), w)).
  { intros j A Hself Hfind. unfold modifyTarget.
    rewrite bind_run.
    pose proof (resolveAgent_frame (fun w => w) A w) as Hw.
    destruct (resolveAgent A w) as [[target|msg] w1] eqn:Hres;
      cbn [snd] in Hw; subst w1.
    - rewrite Hself, bind_run, Hfind, bind_run.
      destruct (truthy j); reflexivity.
    - exfalso. revert Hres. unfold resolveAgent. rewrite bind_run.
      cbn [getRegisteredGroup get].
      destruct (negb (isSome (registry w !! ("agent:" ++ A)))
                && negb (endsWith A "-specialist"));
        [rewrite bind_run|]; discriminate. }
  destruct mains as [|[j g] rest] eqn:Hm.
  - exists []. split; [reflexivity|]. split; [|split].
    + intros (j' & g & Hg). apply Hmains in Hg. inversion Hg.
    + reflexivity.
    + intros A Hself. apply Htarget; [exact Hself|].
      unfold findOrchestratorJid, getAllRegisteredGroups.
      rewrite bind_run. cbn [get ret]. fold mains. now rewrite Hm.
  - exists j. split; [reflexivity|]. split; [|split].
    + intros _. exists g. apply Hmains. left.
    + intros Hnone. exfalso.
      destruct (proj1 (Hmains j g) ltac:(left)) as [Hg Hf].
      exact (Hnone j g Hg Hf).
    + intros A Hself. apply Htarget; [exact Hself|].
      unfold findOrchestratorJid, getAllRegisteredGroups.
      rewrite bind_run. cbn [get ret]. fold mains. now rewrite Hm.
Qed.

(** X19.  Two kinds of spec file are turned down before any handler is
    chosen: a file whose content does not parse, and a delete aimed at one
    of the controller's own names.  Either file is renamed to FAILED with
    the note for its case behind its content; the registry and the tasks
    stay as they were, and nothing else in the file system changes. *)
Theorem X19_rejected_before_dispatch (E : Externals) (w : World)
    (filePath content : str) :
  fs w !! filePath = Some (File content) ->
  isDir (fs w) (dirname filePath) = true ->
  isDir (fs w) (renamedPath filePath FAILED) = false ->
  isDir (fs w) (dirname (renamedPath filePath FAILED)) = true ->
  let failedWith := fun (note line : str) =>
    processSpecFile E filePath w
    = (Ok tt,
       setLogs
         (setFs w (<[renamedPath filePath FAILED :=
                       File (content ++ noteSeparator ++ note)]>
                     (delete filePath (fs w))))
         (logs w ++ ["Processing: " ++ basename filePath []; line])) in
  (parseFrontmatter content = None ->
   failedWith invalidSpecNote
     ("  FAILED: Invalid frontmatter in " ++ basename filePath []))
  /\ (forall fm body,
        parseFrontmatter content = Some (fm, body) ->
        fm_operation fm = Delete -> isSelfMod (fm_agent fm) = true ->
        failedWith cannotDeleteNote "  FAILED: Cannot delete orchestrator").
Proof.
  intros Hfile Hdir Hnew Hnewdir failedWith. subst failedWith. cbv beta.
  split.
  - intros Hparse. unfold processSpecFile. cbv zeta.
    rewrite !bind_run. cbn [log]. rewrite bind_run.
    unfold readFileSync. cbn [fs setLogs]. rewrite Hfile, Hparse.
    rewrite bind_run.
    rewrite (renameSpec_file filePath content FAILED (Some invalidSpecNote))
      by assumption.
    change (annotated content (Some invalidSpecNote))
      with (content ++ noteSeparator ++ invalidSpecNote).
    unfold log, setLogs, setFs. cbn [logs fs registry tasks clock].
    now rewrite <- app_assoc.
  - intros fm body Hparse Hop Hself. unfold processSpecFile. cbv zeta.
    rewrite !bind_run. cbn [log]. rewrite bind_run.
    unfold readFileSync. cbn [fs setLogs]. rewrite Hfile, Hparse, Hself, Hop.
    rewrite (bool_decide_eq_true_2 _ (eq_refl Delete)). cbn [andb negb].
    rewrite bind_run.
    rewrite (renameSpec_file filePath content FAILED (Some cannotDeleteNote))
      by assumption.
    change (annotated content (Some cannotDeleteNote))
      with (content ++ noteSeparator ++ cannotDeleteNote).
    unfold log, setLogs, setFs. cbn [logs fs registry tasks clock].
    now rewrite <- app_assoc.
Qed.

(** The theorem at work on a file without a header. *)
Lemma X19_rejected_before_dispatch_witness :
  processSpecFile Demo.ext (opsPath "create-notes.md") headlessWorld
  = (Ok tt,
     setLogs
       (setFs headlessWorld
          (<[renamedPath (opsPath "create-notes.md") FAILED :=
               File ("Remember the milk." ++ noteSeparator ++ invalidSpecNote)]>
             (delete (opsPath "create-notes.md") (fs headlessWorld))))
       (logs headlessWorld
        ++ ["Processing: " ++ basename (opsPath "create-notes.md") [];
            "  FAILED: Invalid frontmatter in "
            ++ basename (opsPath "create-notes.md") []])).
Proof.
  apply (proj1 (X19_rejected_before_dispatch Demo.ext headlessWorld
                  (opsPath "create-notes.md") "Remember the milk."
                  ltac:(vm_compute; reflexivity)
                  ltac:(vm_compute; reflexivity)
                  ltac:(vm_compute; reflexivity)
                  ltac:(vm_compute; reflexivity))).
  vm_compute. reflexivity.
Defined.

(** ** The files of a new agent *)

Section CreateFiles.

Variable E : Externals.

Lemma mkdirAll_keeps_files (dirs : list str) (f f' : gmap str Node)
    (p c : str) :
  mkdirAll f dirs = Some f' -> f !! p = Some (File c) ->
  f' !! p = Some (File c).
Proof.
  revert f. induction dirs as [|d dirs IH]; intros f Hm Hp.
  - injection Hm as <-. exact Hp.
  - cbn [mkdirAll] in Hm.
    destruct (decide (d = p)) as [->|Hne].
    + rewrite Hp in Hm. discriminate.
    + assert (Hp' : <[d := Dir]> f !! p = Some (File c))
        by now rewrite lookup_insert_ne.
      destruct (f !! d) as [[c'|]|]; [discriminate| |]; exact (IH _ Hm Hp').
Qed.

Lemma mkdirSync_keeps_files (d p c : str) (w w' : World) :
  mkdirSync d w = (Ok tt, w') -> fs w !! p = Some (File c) ->
  fs w' !! p = Some (File c).
Proof.
  unfold mkdirSync.
  destruct (mkdirAll (fs w) (ancestorsAndSelf d)) as [f|] eqn:Hm;
    [|discriminate].
  intros [= <-] Hp. cbn [fs setFs]. exact (mkdirAll_keeps_files _ _ _ _ _ Hm Hp).
Qed.

Lemma writeFileSync_Ok (p c : str) (w w' : World) :
  writeFileSync p c w = (Ok tt, w') ->
  fs w' = <[p := File c]> (fs w).
Proof.
  unfold writeFileSync.
  destruct (isDir (fs w) p); [discriminate|].
  destruct (isDir (fs w) (dirname p)); [|discriminate].
  now intros [= <-].
Qed.

Lemma createTasks_fs (A f j body : str) :
  preserves fs (createTasks E A f j body).
Proof. unfold createTasks, createTaskEntry. frame. Qed.

Lemma absolutePath_onto (p : str) (more : list str) :
  absolutePath p -> Forall (fun s => plainSegment s = true) more ->
  absolutePath (p ++ absText more).
Proof.
  intros (segs & Hne & Hsegs & ->) Hmore. exists (segs ++ more).
  split; [|split].
  - destruct segs; [congruence|discriminate].
  - now apply Forall_app.
  - now rewrite absText_app.
Qed.

Lemma claudeMd_text (f : str) :
  absolutePath (GROUPS_DIR E) -> plainSegment f = true ->
  pjoin [pjoin [GROUPS_DIR E; f]; "CLAUDE.md"]
  = GROUPS_DIR E ++ "/" ++ f ++ "/CLAUDE.md".
Proof.
  intros Habs Hf.
  rewrite (pjoin_onto (GROUPS_DIR E) [f]) by (try assumption; now constructor).
  rewrite (pjoin_onto _ ["CLAUDE.md" : str]).
  - rewrite <- app_assoc. unfold absText. cbn [fmap list_fmap concat].
    now rewrite !app_nil_r, <- !app_assoc.
  - apply absolutePath_onto; [exact Habs|now constructor].
  - now constructor.
Qed.

Lemma settings_text (f : str) :
  absolutePath (DATA_DIR E) -> plainSegment f = true ->
  pjoin [settingsDirOf E f; "settings.json"]
  = DATA_DIR E ++ "/sessions/" ++ f ++ "/.claude/settings.json".
Proof.
  intros Habs Hf. unfold settingsDirOf.
  assert (Hsegs : Forall (fun s => plainSegment s = true)
                    (["sessions"; f; ".claude"] : list str))
    by (repeat constructor; assumption).
  rewrite (pjoin_onto (DATA_DIR E) ["sessions"; f; ".claude"])
    by assumption.
  rewrite (pjoin_onto _ ["settings.json" : str]).
  - rewrite <- app_assoc. unfold absText. cbn [fmap list_fmap concat].
    now rewrite !app_nil_r, <- !app_assoc.
  - now apply absolutePath_onto.
  - now constructor.
Qed.

Lemma last_char_differs (x y : str) (a b : ascii) :
  a <> b -> x ++ [a] <> y ++ [b].
Proof. intros Hab H. apply app_inj_tail in H as [_ H]. congruence. Qed.

End CreateFiles.

(** X20.  After a create that succeeded, the instruction document of the
    new agent is the file [CLAUDE.md] in its group folder and holds the
    text taken from the [CLAUDE.md] section of the body, and the settings
    file of its session holds the rendering of the environment built for
    it.  The tasks created afterwards touch neither file. *)
Theorem X20_create_writes_files (E : Externals) (A body : str)
    (model : option str) (w w' : World) :
  absolutePath (GROUPS_DIR E) -> absolutePath (DATA_DIR E) ->
  plainSegment (A ++ "-specialist") = true ->
  handleCreate E A body model w = (Ok tt, w') ->
  exists section,
    parseSection body H_CLAUDE_MD = Some section
    /\ fs w' !! (GROUPS_DIR E ++ "/" ++ (A ++ "-specialist") ++ "/CLAUDE.md")
       = Some (File (codeBlockOr section))
    /\ fs w' !! (DATA_DIR E ++ "/sessions/" ++ (A ++ "-specialist")
                 ++ "/.claude/settings.json")
       = Some (File (jsonStringify E (createEnvVars E body model))).
Proof.
  intros Hg Hd Hf Hok.
  apply handleCreate_Ok_registered in Hok
    as (_ & section & addedAt & Hsec & _ & _ & Hprov).
  exists section. split; [exact Hsec|].
  unfold provisionAgent in Hprov.
  rewrite (claudeMd_text E _ Hg Hf), (settings_text E _ Hd Hf) in Hprov.
  apply bind_Ok in Hprov as ([] & w1 & _ & H).
  apply bind_Ok in H as ([] & w2 & _ & H).
  apply bind_Ok in H as ([] & w3 & Hdoc & H).
  apply bind_Ok in H as (? & w4 & Hnow & H).
  apply bind_Ok in H as ([] & w5 & Hreg & H).
  apply bind_Ok in H as ([] & w6 & Hmk & H).
  apply bind_Ok in H as ([] & w7 & Hset & H).
  apply bind_Ok in H as ([] & w8 & Htasks & H).
  apply writeFileSync_Ok in Hdoc, Hset.
  apply (preserves_run fs) in Hnow; [|frame].
  apply (preserves_run fs) in Hreg; [|frame].
  apply (preserves_run fs) in Htasks; [|apply createTasks_fs].
  apply (preserves_run fs) in H; [|frame].
  assert (H5 : fs w5 !! (GROUPS_DIR E ++ "/" ++ (A ++ "-specialist")
                         ++ "/CLAUDE.md")
               = Some (File (codeBlockOr section))).
  { rewrite Hreg, Hnow, Hdoc. apply lookup_insert_eq. }
  apply (mkdirSync_keeps_files _ _ _ _ _ Hmk) in H5.
  rewrite H, Htasks, Hset. split.
  - rewrite lookup_insert_ne; [exact H5|].
    change ("/.claude/settings.json" : str)
      with ("/.claude/settings.jso" ++ ["n"%char]).
    change ("/CLAUDE.md" : str) with ("/CLAUDE.m" ++ ["d"%char]).
    rewrite !app_assoc. apply last_char_differs. discriminate.
  - apply lookup_insert_eq.
Qed.

(** The theorem at work on the creation of [billing]. *)
Lemma X20_create_writes_files_witness :
  exists section,
    parseSection (bodyOfLines 3) H_CLAUDE_MD = Some section
    /\ fs (billingWorld 3)
       !! (GROUPS_DIR Demo.ext ++ "/" ++ ("billing" ++ "-specialist")
           ++ "/CLAUDE.md")
       = Some (File (codeBlockOr section))
    /\ fs (billingWorld 3)
       !! (DATA_DIR Demo.ext ++ "/sessions/" ++ ("billing" ++ "-specialist")
           ++ "/.claude/settings.json")
       = Some (File (jsonStringify Demo.ext
                       (createEnvVars Demo.ext (bodyOfLines 3) None))).
Proof.
  apply (X20_create_writes_files Demo.ext "billing" (bodyOfLines 3) None
           Demo.emptyWorld).
  - apply demo_GROUPS_DIR_absolute.
  - exists (["srv"; "data"] : list str). split; [discriminate|].
    split; [repeat constructor|reflexivity].
  - reflexivity.
  - assert (Hfst : fst (handleCreate Demo.ext "billing" (bodyOfLines 3) None
                          Demo.emptyWorld) = Ok tt)
      by (vm_compute; reflexivity).
    rewrite <- Hfst. unfold billingWorld. apply surjective_pairing.
Defined.

(** ** The environment of a new agent *)

Section EnvFacts.

Lemma getKey_setKey (k k' v : str) (o : record) :
  getKey k (setKey k' v o)
  = if bool_decide (k' = k) then Some v else getKey k o.
Proof.
  induction o as [|[k0 v0] o IH]; cbn [setKey getKey].
  - reflexivity.
  - destruct (decide (k0 = k')) as [->|Hne].
    + rewrite (bool_decide_eq_true_2 _ (eq_refl k')). cbn [getKey].
      now destruct (bool_decide (k' = k)).
    + rewrite (bool_decide_eq_false_2 _ Hne). cbn [getKey]. rewrite IH.
      destruct (decide (k0 = k)) as [->|Hne0].
      * rewrite (bool_decide_eq_true_2 _ (eq_refl k)).
        now rewrite bool_decide_eq_false_2 by congruence.
      * now rewrite (bool_decide_eq_false_2 _ Hne0).
Qed.

Lemma getKey_assign_absent (k : str) (source : record) :
  getKey k source = None ->
  forall target, getKey k (assign target source) = getKey k target.
Proof.
  unfold assign. induction source as [|[k' v'] source IH]; intros Hs target;
    [reflexivity|].
  cbn [getKey] in Hs. cbn [fold_left fst snd].
  destruct (bool_decide (k' = k)) eqn:Hk; [discriminate|].
  rewrite (IH Hs), getKey_setKey. now rewrite Hk.
Qed.

Lemma getKey_assign_present (k : str) (source : record) :
  forall target, isSome (getKey k target) = true ->
    isSome (getKey k (assign target source)) = true.
Proof.
  unfold assign. induction source as [|[k' v'] source IH]; intros target Ht;
    [exact Ht|].
  cbn [fold_left fst snd]. apply IH. rewrite getKey_setKey.
  now destruct (bool_decide (k' = k)).
Qed.

End EnvFacts.

(** X21.  The environment written for a new agent holds every variable of
    the standard set, whatever the body asks for, and a variable that the
    secret store does not supply keeps its standard value: the model
    variable is the resolved model unless the store holds a variable of
    that name. *)
Theorem X21_create_env_keeps_defaults (E : Externals) (body : str)
    (model : option str) (k : str) :
  (isSome (getKey k (defaultEnv model)) = true ->
   isSome (getKey k (createEnvVars E body model)) = true)
  /\ ((forall keys, getKey k (readEnvFile E keys) = None) ->
      getKey k (createEnvVars E body model) = getKey k (defaultEnv model)).
Proof.
  unfold createEnvVars. split.
  - intros Hk. destruct (parseSection body H_ENV) as [section|]; [|exact Hk].
    destruct (keyNamesOf (parseYamlList section)); [exact Hk|].
    now apply getKey_assign_present.
  - intros Hstore. destruct (parseSection body H_ENV) as [section|];
      [|reflexivity].
    destruct (keyNamesOf (parseYamlList section)) as [|key keys];
      [reflexivity|].
    now apply getKey_assign_absent.
Qed.

(** The theorem at work on the body that hands out a secret: the model
    variable keeps its standard value. *)
Lemma X21_create_env_keeps_defaults_witness :
  getKey "CLAUDE_CODE_USE_MODEL" (createEnvVars Demo.ext proseBody None)
  = Some ("claude-sonnet-4-6" : str).
Proof.
  apply (proj2 (X21_create_env_keeps_defaults Demo.ext proseBody None
                  "CLAUDE_CODE_USE_MODEL")).
  intros keys. cbn [readEnvFile Demo.ext].
  rewrite filter_cons. cbn [fst].
  destruct (decide (bool_decide (("EXA_API_KEY" : str) ∈ keys)));
    reflexivity.
Defined.

(** ** The outcome of a handler *)

(** X22.  On the standard path the outcome of the handler decides the
    marker of the spec file, and [processSpecFile] itself returns without
    an error either way: after a handler that returned, the file is renamed
    to APPLIED with its content as it was; after a handler that threw, it
    is renamed to FAILED and the message of the error stands behind its
    content.  The spec file is still in place when the handler is done. *)
Theorem X22_handler_outcome_marks_file (E : Externals) (w w1 : World)
    (filePath content body : str) (fm : SpecFrontmatter) (r : outcome unit) :
  let sfx := fst (verdict r) in
  let note := snd (verdict r) in
  fs w !! filePath = Some (File content) ->
  parseFrontmatter content = Some (fm, body) ->
  isSelfMod (fm_agent fm) = false ->
  runOperation E (fm_operation fm) (fm_agent fm) body (fm_model fm)
    (setLogs w (logs w ++ ["Processing: " ++ basename filePath []]))
  = (r, w1) ->
  fs w1 !! filePath = Some (File content) ->
  isDir (fs w1) (dirname filePath) = true ->
  isDir (fs w1) (renamedPath filePath sfx) = false ->
  isDir (fs w1) (dirname (renamedPath filePath sfx)) = true ->
  exists w2,
    processSpecFile E filePath w = (Ok tt, w2)
    /\ fs w2 = <[renamedPath filePath sfx := File (annotated content note)]>
                 (delete filePath (fs w1))
    /\ registry w2 = registry w1 /\ tasks w2 = tasks w1.
Proof.
  intros sfx note Hfile Hparse Hself Hrun Hstill Hdir Hnew Hnewdir.
  rewrite (processSpecFile_standard E filePath content body fm w)
    by assumption.
  rewrite bind_run. cbn [log].
  unfold applyAndMark, tryCatch. rewrite bind_run, Hrun.
  destruct r as [[]|msg]; cbn [verdict fst snd] in *.
  - rewrite bind_run.
    rewrite (renameSpec_plain filePath content APPLIED w1) by assumption.
    eexists. split; [reflexivity|]. repeat split.
  - rewrite bind_run.
    rewrite (renameSpec_file filePath content FAILED (Some (errorNote msg)))
      by assumption.
    eexists. split; [reflexivity|]. repeat split.
Qed.

(** The theorem at work: the create of [billing] with a mount in the
    partition of [other] is turned down by the handler. *)
Lemma X22_handler_outcome_marks_file_witness :
  let p := opsPath "create-billing.md" in
  let spec := renderSpec Create "billing" None crossBody in
  let w := Demo.withSpecs [("create-billing.md", spec)] Demo.emptyWorld in
  exists w2,
    processSpecFile Demo.ext p w = (Ok tt, w2)
    /\ fs w2 !! opsPath "create-billing.FAILED.md"
       = Some (File (spec ++ noteSeparator ++ "**Error:** "
                     ++ violationMessage (hostPath crossMount) "other"
                          "tasks"))
    /\ fs w2 !! p = None.
Proof.
  intros p spec w.
  set (r := Throw (violationMessage (hostPath crossMount) "other" "tasks")
            : outcome unit).
  set (w0 := setLogs w (logs w ++ ["Processing: " ++ basename p []])).
  destruct (X22_handler_outcome_marks_file Demo.ext w w0 p spec crossBody
              {| fm_operation := Create; fm_agent := "billing";
                 fm_model := None |} r)
    as (w2 & Hrun & Hfs & _).
  - vm_compute. reflexivity.
  - vm_compute. reflexivity.
  - reflexivity.
  - apply (f_equal (fun o => (o, w0))). vm_compute. reflexivity.
  - vm_compute. reflexivity.
  - vm_compute. reflexivity.
  - vm_compute. reflexivity.
  - vm_compute. reflexivity.
  - exists w2. split; [exact Hrun|]. rewrite Hfs. split.
    + replace (opsPath "create-billing.FAILED.md")
        with (renamedPath p FAILED) by (vm_compute; reflexivity).
      cbn [verdict r fst snd]. rewrite lookup_insert_eq. reflexivity.
    + cbn [verdict r fst snd]. rewrite lookup_insert_ne
        by (vm_compute; discriminate).
      apply lookup_delete_eq.
Defined.

(** ** The approved path and files that were never held *)

Section ApprovedFacts.

Lemma beforeFirst_absent (m s : str) :
  includes s m = false -> beforeFirst m s = s.
Proof.
  induction s as [|c s IH]; intros H; rewrite beforeFirst_unfold.
  - now destruct (startsWith [] m).
  - rewrite includes_cons in H. apply orb_false_iff in H as [Hs Hin].
    rewrite Hs. now rewrite IH.
Qed.

End ApprovedFacts.

(** X23.  A file of the watched directory whose name carries the APPROVED
    marker is applied on the approved path whether or not it was ever held
    for approval: its content is parsed as it stands, and its create or
    modify runs through the same handler as on the standard path, inside the
    same [try] block.  No test of the agent name comes before it, so this
    includes a spec aimed at the controller. *)
Theorem X23_approved_name_runs_unheld (E : Externals) (w : World)
    (file content body : str) (fm : SpecFrontmatter) :
  let filePath := pjoin [AGENT_OPS_DIR E; file] in
  classify file = ApprovedPath ->
  fs w !! filePath = Some (File content) ->
  includes content approvalMarker = false ->
  parseFrontmatter content = Some (fm, body) ->
  fm_operation fm <> Delete ->
  pollEntry E file w
  = (log ("Processing approved: " ++ basename filePath []) ;;
     applyAndMark filePath
       (runOperation E (fm_operation fm) (fm_agent fm) body (fm_model fm))
       ("  APPLIED (approved): " ++ operationName (fm_operation fm) ++ " "
        ++ fm_agent fm)
       (fun msg => "  FAILED (approved): " ++ operationName (fm_operation fm)
                   ++ " " ++ fm_agent fm ++ " - " ++ msg)) w.
Proof.
  intros filePath Hclass Hfile Hmarker Hparse Hop.
  unfold pollEntry. rewrite Hclass. fold filePath.
  rewrite (processApprovedFile_parsed E filePath content body fm w Hfile)
    by (now rewrite beforeFirst_absent).
  destruct (fm_operation fm); [reflexivity|reflexivity|congruence].
Qed.

(** The theorem at work: the controller's own modify, in a file named
    [note.APPROVED.md], changes the instruction document of the controller
    in one poll. *)
Lemma X23_approved_name_runs_unheld_witness :
  let w := directlyApprovedWorld in
  let filePath := pjoin [AGENT_OPS_DIR Demo.ext; "note.APPROVED.md"] in
  isSelfMod (fm_agent selfModifyFrontmatter) = true
  /\ pollEntry Demo.ext "note.APPROVED.md" w
     = (log ("Processing approved: " ++ basename filePath []) ;;
        applyAndMark filePath
          (runOperation Demo.ext Modify "Orchestrator" selfModifyBody
             (Some ("opus" : str)))
          ("  APPLIED (approved): " ++ operationName Modify ++ " "
           ++ "Orchestrator")
          (fun msg => "  FAILED (approved): " ++ operationName Modify
                      ++ " " ++ "Orchestrator" ++ " - " ++ msg)) w
  /\ fs (snd (poll Demo.ext w)) !! ("/srv/groups/main/CLAUDE.md" : str)
     = Some (File ("# Orchestrator" ++ [LF; LF] ++ "Report every Friday."
                   ++ [LF])).
Proof.
  intros w filePath. split; [reflexivity|]. split.
  - apply (X23_approved_name_runs_unheld Demo.ext w "note.APPROVED.md"
             selfModifySpec selfModifyBody selfModifyFrontmatter).
    + reflexivity.
    + vm_compute. reflexivity.
    + vm_compute. reflexivity.
    + vm_compute. reflexivity.
    + discriminate.
  - vm_compute. reflexivity.
Defined.

(** ** Headings with one name *)

Section HeadingFound.

Lemma starGreedy_exists (p : ascii -> bool) (K : kont) (ws tail : str)
    (i : nat) (prev : option ascii) (caps : list (nat * nat)) :
  forallb p ws = true ->
  isSome (K (i + length ws) (lastPrev prev ws) tail caps) = true ->
  isSome (starGreedy p K i prev (ws ++ tail) caps) = true.
Proof.
  revert i prev. induction ws as [|c ws IH]; intros i prev Hws HK.
  - cbn [app length lastPrev fold_left] in *. rewrite Nat.add_0_r in HK.
    now apply starGreedy_some.
  - cbn [forallb] in Hws. apply andb_true_iff in Hws as [Hc Hws].
    cbn [app starGreedy]. rewrite Hc.
    assert (Hrec : isSome (starGreedy p K (S i) (Some c) (ws ++ tail) caps)
                   = true).
    { apply IH; [exact Hws|]. cbn [length] in HK.
      now replace (S i + length ws) with (i + S (length ws)) by lia. }
    now destruct (starGreedy p K (S i) (Some c) (ws ++ tail) caps).
Qed.

Lemma execFrom_reaches (fl : flags) (r : re) (pre s : str) :
  forall i prev,
    isSome (run fl r accept (i + length pre) (lastPrev prev pre) s []) = true ->
    isSome (execFrom fl r i prev (pre ++ s)) = true.
Proof.
  induction pre as [|c pre IH]; intros i prev Hs.
  - cbn [app length lastPrev fold_left] in *. rewrite Nat.add_0_r in Hs.
    rewrite execFrom_unfold.
    now destruct (run fl r accept i prev s []) as [[j caps]|].
  - cbn [app]. rewrite execFrom_unfold.
    destruct (run fl r accept i prev (c :: pre ++ s) []) as [[j caps]|];
      [reflexivity|].
    apply IH. cbn [length] in Hs.
    now replace (S i + length pre) with (i + S (length pre)) by lia.
Qed.

End HeadingFound.

(** X24.  A heading with a single name is found on every line that starts
    with ['##'], goes on with white space, the name in any mix of upper and
    lower case, and nothing but white space up to the end of the line.  The
    line is the first of the body or follows a line feed. *)
Theorem X24_heading_line_found (h pre sp w ws tail : str) :
  pre = [] \/ (exists pre', pre = pre' ++ [LF]) ->
  sp <> [] -> forallb isSpace sp = true ->
  map upperAsciiChar w = map upperAsciiChar h ->
  forallb isSpace ws = true ->
  tail = [] \/ (exists rest, tail = LF :: rest) ->
  sectionPresent (pre ++ "##" ++ sp ++ w ++ ws ++ tail) [lits h] = true.
Proof.
  intros Hpre Hsp Hspaces Hw Hws Htail.
  unfold sectionPresent, exec. apply execFrom_reaches.
  assert (Hbol : atBol flagsIM (lastPrev None pre) = true).
  { destruct Hpre as [->|(pre' & ->)]; [reflexivity|].
    unfold lastPrev. rewrite fold_left_app. reflexivity. }
  unfold headingRegex. cbn [headingTail run]. rewrite Hbol.
  rewrite (run_lits_fold "##" "##" _ _ _ _ _ eq_refl).
  destruct sp as [|c sp]; [congruence|].
  cbn [forallb] in Hspaces. apply andb_true_iff in Hspaces as [Hc Hspaces].
  unfold Plus. cbn [run app]. rewrite Hc.
  apply starGreedy_exists; [exact Hspaces|].
  rewrite (run_lits_fold h w _ _ _ _ _ Hw).
  apply starGreedy_exists; [exact Hws|].
  cbn [run]. destruct Htail as [->|(rest & ->)]; reflexivity.
Qed.

(** The theorem at work on a mounts heading in capitals, behind an
    instruction document. *)
Lemma X24_heading_line_found_witness :
  sectionPresent ("## CLAUDE.md" ++ [LF] ++ "Billing agent." ++ [LF]
                  ++ "##  MOUNTS " ++ [LF] ++ "- host: /srv/reports")
                 H_MOUNTS = true.
Proof.
  apply (X24_heading_line_found "Mounts"
           ("## CLAUDE.md" ++ [LF] ++ "Billing agent." ++ [LF])
           "  " "MOUNTS" " " ([LF] ++ "- host: /srv/reports")).
  - right. now exists ("## CLAUDE.md" ++ [LF] ++ "Billing agent.").
  - discriminate.
  - reflexivity.
  - reflexivity.
  - reflexivity.
  - right. now exists ("- host: /srv/reports" : str).
Defined.

(** ** The path a spec file is renamed to *)

Section RenamedPath.

Lemma dropTrailingSlashes_id (r : str) :
  head r <> Some "/"%char -> dropTrailingSlashes r = r.
Proof.
  destruct r as [|c r]; [reflexivity|]. cbn [head dropTrailingSlashes].
  intros H. destruct (Ascii.eqb c "/") eqn:Hc; [|reflexivity].
  apply ascii_eqb_true in Hc. congruence.
Qed.

Lemma beforeFirst_sep (x y : str) :
  "/"%char ∉ x -> beforeFirst "/" (x ++ "/"%char :: y) = x.
Proof.
  induction x as [|c x IH]; intros Hx; rewrite beforeFirst_unfold.
  - cbn [app]. now rewrite (startsWith_app "/" y : startsWith ("/"%char :: y) "/" = true).
  - assert (Hs : startsWith ((c :: x) ++ "/"%char :: y) "/" = false).
    { apply (startsWith_head _ [] "/"). cbn [app head].
      intros [= ->]. apply Hx. left. }
    rewrite Hs. cbn [app]. rewrite IH; [reflexivity|].
    intros H. apply Hx. now right.
Qed.

Lemma elem_of_rev (c : ascii) (s : str) : c ∈ rev s <-> c ∈ s.
Proof.
  induction s as [|d s IH]; [reflexivity|].
  cbn [rev]. split; intros H.
  - apply elem_of_app in H as [H|H].
    + right. now apply IH.
    + apply list_elem_of_singleton in H. subst. left.
  - apply elem_of_app. apply elem_of_cons in H as [->|H].
    + right. left.
    + left. now apply IH.
Qed.

Lemma rev_head_plain (name tail : str) :
  name <> [] -> "/"%char ∉ name ->
  head (rev name ++ tail) <> Some "/"%char.
Proof.
  intros Hne Hfree. destruct (rev name) as [|c r] eqn:Hr.
  - apply (f_equal (@rev ascii)) in Hr. rewrite rev_involutive in Hr.
    contradiction.
  - cbn [app head]. intros [= ->]. apply Hfree.
    apply elem_of_rev. rewrite Hr. left.
Qed.

Lemma rev_path (segs : list str) (name : str) :
  rev (absText (segs ++ [name]))
  = rev name ++ "/"%char :: rev (absText segs).
Proof.
  rewrite absText_app. unfold absText at 2.
  cbn [fmap list_fmap concat]. rewrite app_nil_r.
  rewrite rev_app_distr. change ("/" ++ name) with ("/"%char :: name).
  cbn [rev]. now rewrite <- app_assoc.
Qed.

Lemma lastSegment_absText (segs : list str) (name : str) :
  name <> [] -> "/"%char ∉ name ->
  lastSegment (absText (segs ++ [name])) = name.
Proof.
  intros Hne Hfree. unfold lastSegment. rewrite rev_path.
  assert (Hfree' : "/"%char ∉ rev name).
  { intros H. apply Hfree. now apply elem_of_rev. }
  rewrite dropTrailingSlashes_id.
  - rewrite beforeFirst_sep by exact Hfree'. apply rev_involutive.
  - now apply rev_head_plain.
Qed.

Lemma dirname_absText (segs : list str) (name : str) :
  segs <> [] -> Forall (fun s => plainSegment s = true) segs ->
  name <> [] -> "/"%char ∉ name ->
  dirname (absText (segs ++ [name])) = absText segs.
Proof.
  intros Hsegs Hplain Hne Hfree. unfold dirname. rewrite rev_path.
  assert (Hfree' : "/"%char ∉ rev name).
  { intros H. apply Hfree. now apply elem_of_rev. }
  rewrite dropTrailingSlashes_id.
  2:{ now apply rev_head_plain. }
  rewrite beforeFirst_sep by exact Hfree'.
  rewrite drop_app_length.
  cbn [dropTrailingSlashes].
  rewrite (proj2 (ascii_eqb_true "/" "/") eq_refl).
  destruct (absText_last segs Hsegs Hplain) as (q & c & Hq & Hc).
  rewrite Hq, rev_app_distr. cbn [rev app dropTrailingSlashes].
  rewrite (proj2 (ascii_eqb_false c "/") Hc).
  change (c :: rev q) with (rev [c] ++ rev q).
  rewrite <- rev_app_distr, rev_involutive.
  destruct q; reflexivity.
Qed.

Lemma basename_md (segs : list str) (base : str) :
  base <> [] -> "/"%char ∉ base ->
  basename (absText (segs ++ [base ++ ".md"])) ".md" = base.
Proof.
  intros Hne Hfree. unfold basename.
  rewrite lastSegment_absText.
  - rewrite endsWith_app.
    rewrite bool_decide_eq_false_2.
    + cbn [negb andb]. rewrite length_app, Nat.add_sub.
      apply take_app_length.
    + intros H. apply (f_equal length) in H. rewrite length_app in H.
      destruct base; [congruence|]. cbn [length] in H. lia.
  - destruct base; [congruence|discriminate].
  - intros H. apply elem_of_app in H as [H|H]; [auto|].
    revert H. apply notin_text. reflexivity.
Qed.

Lemma plainSegment_marked (b sfx : str) :
  "/"%char ∉ b -> "/"%char ∉ sfx ->
  plainSegment (b ++ "." ++ sfx ++ ".md") = true.
Proof.
  intros Hb Hs. unfold plainSegment.
  assert (Hlen : 4 <= length (b ++ "." ++ sfx ++ ".md")).
  { rewrite !length_app. change (length ("." : str)) with 1.
    change (length (".md" : str)) with 3. lia. }
  assert (Hfree : includes (b ++ "." ++ sfx ++ ".md") "/" = false).
  { destruct (includes (b ++ "." ++ sfx ++ ".md") "/") eqn:Hin;
      [|reflexivity].
    apply (includes_char "/") in Hin.
    rewrite !elem_of_app in Hin. destruct Hin as [H|[H|[H|H]]];
      try contradiction; exfalso; revert H; apply notin_text; reflexivity. }
  rewrite Hfree.
  rewrite !bool_decide_eq_false_2.
  - destruct (b ++ "." ++ sfx ++ ".md"); [cbn [length] in Hlen; lia|].
    reflexivity.
  - intros H. rewrite H in Hlen. cbn in Hlen. lia.
  - intros H. rewrite H in Hlen. cbn in Hlen. lia.
Qed.

Lemma suffixName_free (sfx : suffix) : "/"%char ∉ suffixName sfx.
Proof. destruct sfx; apply notin_text; reflexivity. Qed.

Lemma renamedPath_absText (segs : list str) (base : str) (sfx : suffix) :
  segs <> [] -> Forall (fun s => plainSegment s = true) segs ->
  base <> [] -> "/"%char ∉ base ->
  renamedPath (absText (segs ++ [base ++ ".md"])) sfx
  = absText (segs ++ [stripStatus base ++ "." ++ suffixName sfx ++ ".md"]).
Proof.
  intros Hsegs Hplain Hne Hfree. unfold renamedPath.
  rewrite dirname_absText; try assumption.
  - rewrite basename_md by assumption.
    rewrite pjoin_absolute; try assumption.
    + reflexivity.
    + constructor; [|constructor].
      apply plainSegment_marked; [|apply suffixName_free].
      intros H. apply Hfree. now apply stripStatus_subset.
  - destruct base; [congruence|discriminate].
  - intros H. apply elem_of_app in H as [H|H]; [auto|].
    revert H. apply notin_text. reflexivity.
Qed.

End RenamedPath.

(** X25.  A spec file in a directory is renamed inside that directory: the
    new name is the old base name without the marker it carried, then a dot,
    the new marker and [.md].  Renaming twice gives the path that the second
    renaming alone gives, so a file that goes from PENDING_APPROVAL to
    APPROVED to APPLIED ends under the name a direct APPLIED gives it. *)
Theorem X25_renamed_in_place (segs : list str) (base : str)
    (sfx sfx' : suffix) :
  segs <> [] -> Forall (fun s => plainSegment s = true) segs ->
  base <> [] -> "/"%char ∉ base ->
  let p := absText (segs ++ [base ++ ".md"]) in
  renamedPath p sfx
  = absText (segs ++ [stripStatus base ++ "." ++ suffixName sfx ++ ".md"])
  /\ dirname (renamedPath p sfx) = dirname p
  /\ renamedPath (renamedPath p sfx) sfx' = renamedPath p sfx'.
Proof.
  intros Hsegs Hplain Hne Hfree p. subst p.
  assert (Hfree' : "/"%char ∉ stripStatus base ++ "." ++ suffixName sfx).
  { intros H. apply elem_of_app in H as [H|H].
    - apply Hfree. now apply stripStatus_subset.
    - apply elem_of_app in H as [H|H].
      + revert H. apply notin_text. reflexivity.
      + now apply suffixName_free in H. }
  assert (Hne' : stripStatus base ++ "." ++ suffixName sfx <> [])
    by (destruct (stripStatus base); discriminate).
  rewrite !renamedPath_absText by assumption.
  split; [reflexivity|]. split.
  - replace (stripStatus base ++ "." ++ suffixName sfx ++ ".md")
      with ((stripStatus base ++ "." ++ suffixName sfx) ++ ".md")
      by (now rewrite <- !app_assoc).
    rewrite !dirname_absText; try assumption; try reflexivity.
    + destruct base; [congruence|discriminate].
    + intros H. apply elem_of_app in H as [H|H]; [auto|].
      revert H. apply notin_text. reflexivity.
    + destruct (stripStatus base); discriminate.
    + intros H. apply elem_of_app in H as [H|H]; [auto|].
      revert H. apply notin_text. reflexivity.
  - replace (stripStatus base ++ "." ++ suffixName sfx ++ ".md")
      with ((stripStatus base ++ "." ++ suffixName sfx) ++ ".md")
      by (now rewrite <- !app_assoc).
    rewrite renamedPath_absText by assumption.
    now rewrite stripStatus_marked.
Qed.

(** The theorem at work on the spec of the controller that was held. *)
Lemma X25_renamed_in_place_witness :
  let p := opsPath "modify-main.PENDING_APPROVAL.md" in
  renamedPath p APPROVED = opsPath "modify-main.APPROVED.md"
  /\ dirname (renamedPath p APPROVED) = dirname p
  /\ renamedPath (renamedPath p APPROVED) APPLIED = renamedPath p APPLIED.
Proof.
  apply (X25_renamed_in_place ["srv"; "groups"; "main"; "shared"; "agent-ops"]
           "modify-main.PENDING_APPROVAL" APPROVED APPLIED).
  - discriminate.
  - repeat constructor.
  - discriminate.
  - apply notin_text. reflexivity.
Defined.
